(** * SutraQuery retrieval pipeline: a shallow embedding

    The development follows the Python sources of the repository:
    - [utils/text_utils.py]            ([TextChunker], [TextNormalizer])
    - [services/api_client.py]         ([APIClient])
    - [services/faiss_vector_store.py] ([FaissVectorStore])
    - [services/vector_store.py]       ([VectorStore], the Qdrant client wrapper)
    - [services/rag_service.py]        ([RAGService])
    - [config.py]                      ([Config])

    Python [str] values are lists of Unicode code points, Python [int]s are
    [Z], Python [float]s are IEEE-754 binary64 values and numpy [float32]
    values are binary32 values, both taken from the [SpecFloat] model of the
    standard library.  Exceptions are explicit results. *)

From Stdlib Require Import ZArith NArith List String Ascii Bool Lia.
From Stdlib Require Import Floats.SpecFloat.
From stdpp Require Import base option gmap.
Import ListNotations.

#[local] Open Scope Z_scope.

(** ** Python strings *)

(** A [str] is a sequence of code points. *)
Definition str := list N.

Definition len {A : Type} (l : list A) : Z := Z.of_nat (length l).

(** An ASCII literal of the source as a [str]. *)
Definition lit (s : string) : str :=
  List.map N_of_ascii (list_ascii_of_string s).

(** Truth value of a sequence: [if text] / [if chunk]. *)
Definition truthy {A : Type} (l : list A) : bool :=
  match l with [] => false | _ :: _ => true end.

(** [str.isspace] on one code point, which is also the class [\s] of [re]
    on [str] patterns. *)
Definition isspace (c : N) : bool :=
  ((9 <=? c) && (c <=? 13) || (28 <=? c) && (c <=? 32) ||
   (c =? 133) || (c =? 160) || (c =? 5760) ||
   (8192 <=? c) && (c <=? 8202) ||
   (c =? 8232) || (c =? 8233) || (c =? 8239) || (c =? 8287) ||
   (c =? 12288))%N.

(** Index adjustment of a slice bound: a negative bound counts from the end,
    and every bound is clipped to [0, len]. *)
Definition adjust_index (n i : Z) : Z :=
  if i <? 0 then Z.max 0 (i + n) else Z.min i n.

(** [l[i:j]]. *)
Definition py_slice {A : Type} (l : list A) (i j : Z) : list A :=
  let lo := adjust_index (len l) i in
  let hi := adjust_index (len l) j in
  firstn (Z.to_nat (hi - lo)) (skipn (Z.to_nat lo) l).

Fixpoint lstrip (s : str) : str :=
  match s with
  | c :: s' => if isspace c then lstrip s' else s
  | [] => []
  end.

Definition rstrip (s : str) : str := rev (lstrip (rev s)).

(** [s.strip()]. *)
Definition strip (s : str) : str := rstrip (lstrip s).

(** [sep.join(parts)]. *)
Fixpoint join (sep : str) (parts : list str) : str :=
  match parts with
  | [] => []
  | [p] => p
  | p :: rest => p ++ sep ++ join sep rest
  end.

Fixpoint starts_with (k s : str) : bool :=
  match k, s with
  | [], _ => true
  | _ :: _, [] => false
  | a :: k', b :: s' => (a =? b)%N && starts_with k' s'
  end.

(** [k in s] for two strings. *)
Fixpoint contains (k s : str) : bool :=
  starts_with k s ||
  match s with
  | [] => false
  | _ :: s' => contains k s'
  end.

(** ** The fragment of [re] used by the sources

    A pattern is a sequence of character classes, each taken once, zero or
    more times, or one or more times.  Repetition is greedy and backtracks,
    and a search returns the leftmost match. *)
Module re.

Inductive quant := Once | Star | Plus.

Definition pattern := list ((N -> bool) * quant).

(** Length of the match of [pat] anchored at the head of [s]. *)
Fixpoint match_here (pat : pattern) (s : str) {struct pat} : option nat :=
  match pat with
  | [] => Some O
  | (p, q) :: rest =>
      let greedy :=
        fix greedy (s : str) : option nat :=
          match s with
          | c :: s' =>
              if p c then
                match greedy s' with
                | Some n => Some (S n)
                | None => match_here rest s
                end
              else match_here rest s
          | [] => match_here rest s
          end in
      match q with
      | Once =>
          match s with
          | c :: s' => if p c then option_map S (match_here rest s') else None
          | [] => None
          end
      | Star => greedy s
      | Plus =>
          match s with
          | c :: s' => if p c then option_map S (greedy s') else None
          | [] => None
          end
      end
  end.

(** [re.search(pat, s)]: the span [(match.start(), match.end())] of the
    leftmost match.  It is also the first match of [re.finditer]. *)
Fixpoint search_from (pat : pattern) (s : str) (pos : nat) : option (nat * nat) :=
  match match_here pat s with
  | Some n => Some (pos, (pos + n)%nat)
  | None =>
      match s with
      | [] => None
      | _ :: s' => search_from pat s' (S pos)
      end
  end.

Definition search (pat : pattern) (s : str) : option (nat * nat) :=
  search_from pat s O.

Definition one_of (cs : list N) (c : N) : bool := existsb (N.eqb c) cs.

(** [re.sub(pat, repl, s)] for a pattern that matches no empty string;
    one unit of fuel per character of [s] is enough. *)
Fixpoint sub_fuel (fuel : nat) (pat : pattern) (repl s : str) : str :=
  match fuel with
  | O => s
  | S fuel' =>
      match s with
      | [] => []
      | c :: s' =>
          match match_here pat s with
          | Some (S n) => repl ++ sub_fuel fuel' pat repl (skipn n s')
          | _ => c :: sub_fuel fuel' pat repl s'
          end
      end
  end.

Definition sub (pat : pattern) (repl s : str) : str :=
  sub_fuel (length s) pat repl s.

(** Patterns with groups: [Open] and [Close] stand for the parentheses. *)
Inductive item :=
  | Class (p : N -> bool) (q : quant)
  | Open
  | Close.

Definition gpattern := list item.

(** A literal piece of a pattern. *)
Definition literal (s : str) : gpattern := List.map (fun c => Class (N.eqb c) Once) s.

(** The match of [pat] anchored at position [pos], where [s] is the subject
    from [pos] on: the position where the match ends and the positions of
    the parentheses, in the order of the pattern. *)
Fixpoint gmatch_here (pat : gpattern) (s : str) (pos : nat) {struct pat}
    : option (nat * list nat) :=
  match pat with
  | [] => Some (pos, [])
  | Open :: rest | Close :: rest =>
      match gmatch_here rest s pos with
      | Some (e, marks) => Some (e, pos :: marks)
      | None => None
      end
  | Class p q :: rest =>
      let greedy :=
        fix greedy (s : str) (pos : nat) : option (nat * list nat) :=
          match s with
          | c :: s' =>
              if p c then
                match greedy s' (S pos) with
                | Some r => Some r
                | None => gmatch_here rest s pos
                end
              else gmatch_here rest s pos
          | [] => gmatch_here rest s pos
          end in
      match q with
      | Once =>
          match s with
          | c :: s' => if p c then gmatch_here rest s' (S pos) else None
          | [] => None
          end
      | Star => greedy s pos
      | Plus =>
          match s with
          | c :: s' => if p c then greedy s' (S pos) else None
          | [] => None
          end
      end
  end.

(** [re.search] for a pattern with groups: the leftmost match. *)
Fixpoint gsearch_from (pat : gpattern) (s : str) (pos : nat)
    : option (nat * list nat) :=
  match gmatch_here pat s pos with
  | Some r => Some r
  | None =>
      match s with
      | [] => None
      | _ :: s' => gsearch_from pat s' (S pos)
      end
  end.

Definition gsearch (pat : gpattern) (s : str) : option (nat * list nat) :=
  gsearch_from pat s O.

(** The piece of the subject between two positions: [match.group(k)]. *)
Definition group (s : str) (start end_ : nat) : str :=
  firstn (end_ - start) (skipn start s).

End re.

(** ** [utils/text_utils.py] *)

Module TextChunker.

Record t := { chunk_size : Z; overlap : Z }.

(** [__init__] with its default arguments. *)
Definition default : t := {| chunk_size := 400; overlap := 100 |}.

(** [r'[.!?।॥]\s+'] *)
Definition sentence_pattern : re.pattern :=
  [ (re.one_of [46; 33; 63; 2404; 2405]%N, re.Once); (isspace, re.Plus) ].

(** [r'\n\s*\n'] *)
Definition paragraph_pattern : re.pattern :=
  [ (N.eqb 10, re.Once); (isspace, re.Star); (N.eqb 10, re.Once) ].

(** [r'[,;]\s+'] *)
Definition clause_pattern : re.pattern :=
  [ (re.one_of [44; 59]%N, re.Once); (isspace, re.Plus) ].

Definition _find_sentence_boundary (text : str) (start end_ : Z) : Z :=
  let window := py_slice text start end_ in
  match re.search sentence_pattern window with
  | Some (_, e) => start + Z.of_nat e
  | None =>
      match re.search paragraph_pattern window with
      | Some (_, e) => start + Z.of_nat e
      | None =>
          match re.search clause_pattern window with
          | Some (_, e) => start + Z.of_nat e
          | None => end_
          end
      end
  end.

(** The right edge of the window that starts at [start]. *)
Definition window_end (self : t) (text : str) (start : Z) : Z :=
  let end_ := start + chunk_size self in
  if end_ <? len text then
    let sentence_end :=
      _find_sentence_boundary text (end_ - overlap self) end_ in
    if sentence_end >? start then sentence_end else end_
  else end_.

(** [start = max(start + 1, end - self.overlap)] *)
Definition next_start (self : t) (start end_ : Z) : Z :=
  Z.max (start + 1) (end_ - overlap self).

(** The [while] loop of [chunk_text]; [fuel] bounds the iterations. *)
Fixpoint chunk_loop (fuel : nat) (self : t) (text : str)
    (start : Z) (chunks : list str) : option (list str) :=
  if start <? len text then
    match fuel with
    | O => None
    | S fuel' =>
        let end_ := window_end self text start in
        let chunk := strip (py_slice text start end_) in
        let chunks := if truthy chunk then chunks ++ [chunk] else chunks in
        let start := next_start self start end_ in
        if start >=? len text then Some chunks
        else chunk_loop fuel' self text start chunks
    end
  else Some chunks.

Definition chunk_text_fuel (fuel : nat) (self : t) (text : str)
    : option (list str) :=
  if negb (truthy text) || (len text <? chunk_size self) then
    Some (if truthy text then [text] else [])
  else chunk_loop fuel self text 0 [].

(** [chunk_text]: one unit of fuel per character is enough, since every
    iteration moves [start] forward. *)
Definition chunk_text (self : t) (text : str) : list str :=
  match chunk_text_fuel (length text) self text with
  | Some chunks => chunks
  | None => []
  end.

End TextChunker.


(** ** Results of calls that may raise *)

Inductive exn :=
  | UnicodeEncodeError
  | ValueError
  | KeyError
  | IndexError
  | AssertionError
  | ZeroDivisionError
  | ServiceError.

(** [Diverge] stands for a loop that never exits. *)
Inductive result (A : Type) :=
  | Ok (a : A)
  | Raise (e : exn)
  | Diverge.
Arguments Ok {A} a.
Arguments Raise {A} e.
Arguments Diverge {A}.

Definition bind {A B : Type} (r : result A) (k : A -> result B) : result B :=
  match r with
  | Ok a => k a
  | Raise e => Raise e
  | Diverge => Diverge
  end.

Notation "'let*' x ':=' r 'in' k" := (bind r (fun x => k))
  (at level 10, x name, r at level 100, k at level 200).

(** ** Floating-point numbers

    [float] is the Python float (binary64) and [float32] the numpy scalar
    (binary32); the operations are those of [SpecFloat] at the two formats,
    rounding to nearest, ties to even. *)

Definition float := spec_float.
Definition float32 := spec_float.

Module f64.
Definition prec : Z := 53.
Definition emax : Z := 1024.
(** [float(n)] for an integer [n]. *)
Definition of_Z (n : Z) : float := binary_normalize prec emax n 0 false.
Definition add : float -> float -> float := SFadd prec emax.
Definition div : float -> float -> float := SFdiv prec emax.
(** [float(x)] for a numpy [float32] scalar [x]; the conversion is exact. *)
Definition of_f32 (x : float32) : float :=
  match x with
  | S754_finite s m e => binary_round prec emax s m e
  | _ => x
  end.
End f64.

Module f32.
Definition prec : Z := 24.
Definition emax : Z := 128.
Definition add : float32 -> float32 -> float32 := SFadd prec emax.
Definition mul : float32 -> float32 -> float32 := SFmul prec emax.
Definition div : float32 -> float32 -> float32 := SFdiv prec emax.
Definition sqrt : float32 -> float32 := SFsqrt prec emax.
(** [np.float32(x)] for a Python float [x]: one rounding. *)
Definition of_f64 (x : float) : float32 :=
  match x with
  | S754_finite s m e => binary_round prec emax s m e
  | _ => x
  end.
End f32.

(** [math.isfinite]. *)
Definition is_finite (x : spec_float) : bool :=
  match x with
  | S754_zero _ | S754_finite _ _ _ => true
  | S754_infinity _ | S754_nan => false
  end.

Definition is_nan (x : spec_float) : bool :=
  match x with S754_nan => true | _ => false end.

(** ** [hashlib.md5] and [str.encode] *)

Module hashlib.

Definition bytes := list Z.

Definition mask32 (x : Z) : Z := x mod 2 ^ 32.

Definition rotl32 (x c : Z) : Z :=
  mask32 (Z.lor (Z.shiftl x c) (Z.shiftr x (32 - c))).

Definition not32 (x : Z) : Z := Z.lxor x (2 ^ 32 - 1).

Definition shifts : list Z :=
  [7; 12; 17; 22; 7; 12; 17; 22; 7; 12; 17; 22; 7; 12; 17; 22;
   5; 9; 14; 20; 5; 9; 14; 20; 5; 9; 14; 20; 5; 9; 14; 20;
   4; 11; 16; 23; 4; 11; 16; 23; 4; 11; 16; 23; 4; 11; 16; 23;
   6; 10; 15; 21; 6; 10; 15; 21; 6; 10; 15; 21; 6; 10; 15; 21].

Definition sines : list Z :=
  [3614090360; 3905402710; 606105819; 3250441966;
   4118548399; 1200080426; 2821735955; 4249261313;
   1770035416; 2336552879; 4294925233; 2304563134;
   1804603682; 4254626195; 2792965006; 1236535329;
   4129170786; 3225465664; 643717713; 3921069994;
   3593408605; 38016083; 3634488961; 3889429448;
   568446438; 3275163606; 4107603335; 1163531501;
   2850285829; 4243563512; 1735328473; 2368359562;
   4294588738; 2272392833; 1839030562; 4259657740;
   2763975236; 1272893353; 4139469664; 3200236656;
   681279174; 3936430074; 3572445317; 76029189;
   3654602809; 3873151461; 530742520; 3299628645;
   4096336452; 1126891415; 2878612391; 4237533241;
   1700485571; 2399980690; 4293915773; 2240044497;
   1873313359; 4264355552; 2734768916; 1309151649;
   4149444226; 3174756917; 718787259; 3951481745].

(** Little-endian bytes of a word, and back. *)
Definition le_bytes (n : nat) (x : Z) : bytes :=
  List.map (fun k => Z.shiftr x (8 * Z.of_nat k) mod 256) (seq 0 n).

Fixpoint le_word (bs : bytes) : Z :=
  match bs with
  | [] => 0
  | b :: bs' => b + 256 * le_word bs'
  end.

(** The message followed by the bit 1, zeros up to 56 modulo 64, and the
    bit length on eight bytes. *)
Definition pad (msg : bytes) : bytes :=
  let n := len msg in
  msg ++ [128] ++ repeat 0 (Z.to_nat ((55 - n) mod 64)) ++ le_bytes 8 ((8 * n) mod 2 ^ 64).

Fixpoint words (n : nat) (bs : bytes) : list Z :=
  match n with
  | O => []
  | S n' => le_word (firstn 4 bs) :: words n' (skipn 4 bs)
  end.

Definition state := (Z * Z * Z * Z)%type.

Definition round (M : list Z) (st : state) (i : nat) : state :=
  let '(A, B, C, D) := st in
  let i' := Z.of_nat i in
  let '(F, g) :=
    if i' <? 16 then (Z.lor (Z.land B C) (Z.land (not32 B) D), i')
    else if i' <? 32 then (Z.lor (Z.land D B) (Z.land (not32 D) C), (5 * i' + 1) mod 16)
    else if i' <? 48 then (Z.lxor (Z.lxor B C) D, (3 * i' + 5) mod 16)
    else (Z.lxor C (Z.lor B (not32 D)), (7 * i') mod 16) in
  let F := mask32 (F + A + nth i sines 0 + nth (Z.to_nat g) M 0) in
  (D, mask32 (B + rotl32 F (nth i shifts 0)), B, C).

Definition compress (st : state) (block : bytes) : state :=
  let '(a0, b0, c0, d0) := st in
  let '(A, B, C, D) := fold_left (round (words 16 block)) (seq 0 64) st in
  (mask32 (a0 + A), mask32 (b0 + B), mask32 (c0 + C), mask32 (d0 + D)).

Fixpoint blocks (n : nat) (bs : bytes) : list bytes :=
  match n with
  | O => []
  | S n' => firstn 64 bs :: blocks n' (skipn 64 bs)
  end.

Definition init : state := (1732584193, 4023233417, 2562383102, 271733878).

(** [hashlib.md5(data).digest()] *)
Definition md5_digest (data : bytes) : bytes :=
  let padded := pad data in
  let '(a, b, c, d) :=
    fold_left compress (blocks (length padded / 64) padded) init in
  le_bytes 4 a ++ le_bytes 4 b ++ le_bytes 4 c ++ le_bytes 4 d.

Definition hexdigit (d : Z) : N :=
  Z.to_N (if d <? 10 then 48 + d else 87 + d).

(** [hashlib.md5(data).hexdigest()] *)
Definition md5_hexdigest (data : bytes) : str :=
  flat_map (fun b => [hexdigit (b / 16); hexdigit (b mod 16)]) (md5_digest data).

End hashlib.

(** UTF-8 bytes of one code point; surrogates cannot be encoded. *)
Definition utf8_char (c : N) : option hashlib.bytes :=
  let z := Z.of_N c in
  if z <? 128 then Some [z]
  else if z <? 2048 then Some [192 + z / 64; 128 + z mod 64]
  else if (55296 <=? z) && (z <=? 57343) then None
  else if z <? 65536 then
    Some [224 + z / 4096; 128 + (z / 64) mod 64; 128 + z mod 64]
  else if z <? 1114112 then
    Some [240 + z / 262144; 128 + (z / 4096) mod 64;
          128 + (z / 64) mod 64; 128 + z mod 64]
  else None.

(** [text.encode()] *)
Fixpoint encode (text : str) : result hashlib.bytes :=
  match text with
  | [] => Ok []
  | c :: text' =>
      match utf8_char c with
      | Some bs => let* rest := encode text' in Ok (bs ++ rest)
      | None => Raise UnicodeEncodeError
      end
  end.

(** [int(s, 16)] on a string of hexadecimal digits. *)
Definition hex_value (c : N) : option Z :=
  let z := Z.of_N c in
  if (48 <=? z) && (z <=? 57) then Some (z - 48)
  else if (97 <=? z) && (z <=? 102) then Some (z - 87)
  else if (65 <=? z) && (z <=? 70) then Some (z - 55)
  else None.

Definition int16 (s : str) : result Z :=
  match s with
  | [] => Raise ValueError
  | _ =>
      fold_left
        (fun acc c =>
           let* a := acc in
           match hex_value c with
           | Some d => Ok (16 * a + d)
           | None => Raise ValueError
           end)
        s (Ok 0)
  end.


(** [range(0, stop, step)] for a positive [step]. *)
Definition range_step (stop step : Z) : list Z :=
  List.map (fun k => Z.of_nat k * step) (seq 0 (Z.to_nat ((stop + step - 1) / step))).

(** [l[i]], with a negative index counting from the end. *)
Definition py_index {A : Type} (l : list A) (i : Z) : option A :=
  let j := if i <? 0 then i + len l else i in
  if j <? 0 then None else nth_error l (Z.to_nat j).

(** ** What lies outside the repository

    The Unicode case table of the interpreter and the three remote services
    are not code of the repository; the development is parametric in them. *)

(** [unicode_lower before c after] is the lowercase form of the non-ASCII
    code point [c] standing between [before] and [after]. *)
Class Unicode := { unicode_lower : str -> N -> str -> str }.

Definition ascii_lower (c : N) : N :=
  if ((65 <=? c) && (c <=? 90))%N then (c + 32)%N else c.

Fixpoint lower_from `{Unicode} (before s : str) : str :=
  match s with
  | [] => []
  | c :: s' =>
      (if (c <? 128)%N then [ascii_lower c] else unicode_lower before c s')
        ++ lower_from (before ++ [c]) s'
  end.

(** [s.lower()] *)
Definition lower `{Unicode} (s : str) : str := lower_from [] s.

(** [unicode_decimal c] tells whether the non-ASCII code point [c] is a
    decimal digit: the class [\d] of [re] on [str] patterns is [0-9] and
    the decimal digits of the other scripts. *)
Class Decimals := { unicode_decimal : N -> bool }.

Definition isdecimal `{Decimals} (c : N) : bool :=
  if (c <? 128)%N then ((48 <=? c) && (c <=? 57))%N else unicode_decimal c.

(** ** [config.py] *)

Module Config.
Definition QDRANT_COLLECTION_NAME : str := lit "hindu_texts".
Definition CHUNK_SIZE : Z := 400.
Definition CHUNK_OVERLAP : Z := 100.
(** The literal [0.65]. *)
Definition SIMILARITY_THRESHOLD : float := f64.div (f64.of_Z 65) (f64.of_Z 100).
Definition EMBEDDING_MODEL : str := lit "mistral-embed".
Definition LLM_MODEL : str := lit "mistralai/mixtral-8x7b-instruct".
End Config.

(** ** Documents, stored entries and query results *)

(** A document is a dict; a field is [None] when its key is absent. *)
Module Document.
Record t := {
  text : option str;
  source : option str;
  chapter : option str;
  verse : option str;
  sanskrit : option str;
  translation : option str;
  explanation : option str;
  metadata : option (list (str * str));
  embedding : option (list float)
}.
End Document.

(** The metadata entry (local backend) or payload (managed backend) kept
    with a vector. *)
Module Entry.
Record t := {
  text : str;
  source : str;
  chapter : str;
  verse : str;
  sanskrit : str;
  translation : str;
  explanation : str;
  metadata : list (str * str)
}.

(** The dict built from [doc.get(key, "")] for every key. *)
Definition of_doc (doc : Document.t) : t :=
  {| text := default [] (Document.text doc);
     source := default [] (Document.source doc);
     chapter := default [] (Document.chapter doc);
     verse := default [] (Document.verse doc);
     sanskrit := default [] (Document.sanskrit doc);
     translation := default [] (Document.translation doc);
     explanation := default [] (Document.explanation doc);
     metadata := default [] (Document.metadata doc) |}.
End Entry.

Module QueryResult.
Record t := {
  text : str;
  source : str;
  chapter : str;
  verse : str;
  sanskrit : str;
  translation : str;
  explanation : str;
  score : float;
  metadata : list (str * str)
}.

Definition make (m : Entry.t) (s : float) : t :=
  {| text := Entry.text m;
     source := Entry.source m;
     chapter := Entry.chapter m;
     verse := Entry.verse m;
     sanskrit := Entry.sanskrit m;
     translation := Entry.translation m;
     explanation := Entry.explanation m;
     score := s;
     metadata := Entry.metadata m |}.
End QueryResult.

(** ** [services/api_client.py] *)

Module APIClient.

(** One answer of the embeddings endpoint: HTTP 429, a body with an
    embedding, or anything that raises. *)
Inductive response :=
  | RateLimited
  | Embedding (e : list float)
  | Failure.

(** The two endpoints, as the client sees them. *)
Class Services := {
  mistral_embeddings : str -> nat -> response;
  openrouter_chat : str -> str -> result str
}.

(** [for i in range(0, len(text_hash), 2)]: one component per pair of
    hexadecimal digits. *)
Definition hash_components (text_hash : str) : result (list float) :=
  fold_left
    (fun acc i =>
       let* embedding := acc in
       let hex_val := py_slice text_hash i (i + 2) in
       let* v := int16 hex_val in
       Ok (embedding ++ [f64.div (f64.of_Z v) (f64.of_Z 255)]))
    (range_step (len text_hash) 2) (Ok []).

(** [while len(embedding) < 1024: embedding.extend(...)] *)
Fixpoint pad_loop (fuel : nat) (embedding : list float) : option (list float) :=
  if len embedding <? 1024 then
    match fuel with
    | O => None
    | S fuel' =>
        pad_loop fuel'
          (embedding ++
             py_slice embedding 0 (Z.min (len embedding) (1024 - len embedding)))
    end
  else Some embedding.

Definition _get_embedding_openrouter (text : str) : result (list float) :=
  let* data := encode text in
  let text_hash := hashlib.md5_hexdigest data in
  let* embedding := hash_components text_hash in
  match pad_loop 1024 embedding with
  | Some embedding => Ok (py_slice embedding 0 1024)
  | None => Diverge
  end.

(** The retry loop of [get_embedding], from attempt number [attempt]. *)
Fixpoint retry `{Services} (text : str) (max_retries : Z)
    (remaining : nat) (attempt : nat) : result (list float) :=
  match remaining with
  | O => _get_embedding_openrouter text
  | S remaining' =>
      match mistral_embeddings text attempt with
      | RateLimited => retry text max_retries remaining' (S attempt)
      | Embedding e => Ok e
      | Failure =>
          if Z.of_nat attempt =? max_retries - 1
          then _get_embedding_openrouter text
          else retry text max_retries remaining' (S attempt)
      end
  end.

Definition get_embedding `{Services} (text : str) (use_api : bool)
    (max_retries : Z) : result (list float) :=
  if negb use_api then _get_embedding_openrouter text
  else retry text max_retries (Z.to_nat max_retries) O.

Definition unavailable_message : str :=
  lit "I'm unable to generate an answer right now because the AI service is temporarily unavailable. Please try again in a few moments, or check if there are relevant verses in the database that might help with your question.".

Definition generate_answer `{Services} (question context : str) : str :=
  match openrouter_chat question context with
  | Ok answer => answer
  | _ => unavailable_message
  end.

End APIClient.


(** ** [numpy] on one-dimensional [float32] arrays *)

Module np.

(** [np.array(xs, dtype=np.float32)] *)
Definition array (xs : list float) : list float32 := List.map f32.of_f64 xs.

(** [x.dot(y)], accumulated from left to right.  numpy and faiss leave the
    order of the additions to the platform, so the last bits of a norm or of
    a score may differ from the ones computed here; the sign of a sum of
    terms of one sign, and a sum all of whose terms but one are zero, do not
    depend on the order. *)
Definition dot (x y : list float32) : float32 :=
  fold_left (fun acc '(a, b) => f32.add acc (f32.mul a b))
    (combine x y) (S754_zero false).

(** [np.linalg.norm(x)]: the square root of [x.dot(x)]. *)
Definition norm (x : list float32) : float32 := f32.sqrt (dot x x).

(** [x / s] for a scalar [s].  Division by zero gives an infinity or a
    NaN and a warning, never an exception. *)
Definition divide (x : list float32) (s : float32) : list float32 :=
  List.map (fun a => f32.div a s) x.

End np.

(** ** [faiss.IndexFlatIP]: exact inner-product search *)

Module faiss.

Record IndexFlatIP := { d : Z; xb : list (list float32) }.

Definition new (dim : Z) : IndexFlatIP := {| d := dim; xb := [] |}.

Definition ntotal (index : IndexFlatIP) : Z := len (xb index).

(** [index.add(x)] appends the rows of [x]; the rows must have the
    dimension of the index. *)
Definition add (index : IndexFlatIP) (x : list (list float32))
    : result IndexFlatIP :=
  if forallb (fun row => len row =? d index) x
  then Ok {| d := d index; xb := xb index ++ x |}
  else Raise AssertionError.

Definition insert_desc (h : float32 * Z) : list (float32 * Z) -> list (float32 * Z) :=
  fix go (l : list (float32 * Z)) :=
    match l with
    | [] => [h]
    | h' :: l' =>
        if SFltb (fst h) (fst h') then h' :: go l' else h :: l
    end.

(** Largest score first.  Between equal scores the earlier row comes
    first here; the library leaves that order open, and no statement below
    depends on it. *)
Definition rank (hits : list (float32 * Z)) : list (float32 * Z) :=
  fold_right insert_desc [] hits.

(** The score of a slot of the result that no row has filled: the lowest
    [float32] number, [-FLT_MAX].  The label of such a slot is [-1]. *)
Definition lowest : float32 := S754_finite true 16777215 104.

Definition no_label : Z := -1.

(** A row enters the result only with a score above [lowest]: a row whose
    score is NaN never does. *)
Definition admitted (h : float32 * Z) : bool := SFltb lowest (fst h).

(** [index.search(q, k)] for a single query row: the [k] best
    [(score, row number)] pairs among the admitted rows, and after them as
    many unfilled slots as it takes to return [k] pairs. *)
Definition search (index : IndexFlatIP) (q : list float32) (k : Z)
    : result (list (float32 * Z)) :=
  if negb (len q =? d index) then Raise AssertionError
  else if negb (k >? 0) then Raise AssertionError
  else
    let scores := List.map (np.dot q) (xb index) in
    let rows := List.map Z.of_nat (seq 0 (length (xb index))) in
    let best :=
      firstn (Z.to_nat k) (rank (List.filter admitted (combine scores rows))) in
    Ok (best ++ repeat (lowest, no_label) (Z.to_nat k - length best)).

End faiss.

(** ** [services/faiss_vector_store.py] *)

Module FaissVectorStore.

Record t := {
  embedding_dim : Z;
  index : faiss.IndexFlatIP;
  metadata : list Entry.t
}.

(** [__init__] when no index file exists. *)
Definition new (dim : Z) : t :=
  {| embedding_dim := dim; index := faiss.new dim; metadata := [] |}.

(** [embedding / np.linalg.norm(embedding)] *)
Definition normalize (embedding : list float32) : list float32 :=
  np.divide embedding (np.norm embedding).

(** The [for doc in documents] loop: the normalized embeddings and the
    metadata entries of the documents that carry an embedding. *)
Fixpoint collect (documents : list Document.t)
    : list (list float32) * list Entry.t :=
  match documents with
  | [] => ([], [])
  | doc :: rest =>
      let '(embeddings, metadata_batch) := collect rest in
      match Document.embedding doc with
      | None => (embeddings, metadata_batch)
      | Some e =>
          (normalize (np.array e) :: embeddings,
           Entry.of_doc doc :: metadata_batch)
      end
  end.

(** [np.array(embeddings, dtype=np.float32)] needs rows of one length. *)
Definition array2d (rows : list (list float32)) : result (list (list float32)) :=
  match rows with
  | [] => Ok []
  | r :: _ =>
      if forallb (fun r' => len r' =? len r) rows then Ok rows
      else Raise ValueError
  end.

(** [add_documents] returns the store after the call and the exception
    it re-raised, if any.  Nothing is written before a raise. *)
Definition add_documents (self : t) (documents : list Document.t)
    : t * option exn :=
  let '(embeddings, metadata_batch) := collect documents in
  if truthy embeddings then
    match (let* embeddings_array := array2d embeddings in
           faiss.add (index self) embeddings_array) with
    | Ok index' =>
        ({| embedding_dim := embedding_dim self;
            index := index';
            metadata := metadata self ++ metadata_batch |}, None)
    | Raise e => (self, Some e)
    | Diverge => (self, None)
    end
  else (self, None).

(** [if source_filter and metadata.get("source", "") != source_filter] *)
Definition filtered_out (source_filter : option str) (m : Entry.t) : bool :=
  match source_filter with
  | Some f => truthy f && negb (bool_decide (Entry.source m = f))
  | None => false
  end.

(** The loop over [zip(scores[0], indices[0])], with its [continue] and
    [break]. *)
Fixpoint gather (self : t) (limit : Z) (source_filter : option str)
    (hits : list (float32 * Z)) (results : list QueryResult.t)
    : result (list QueryResult.t) :=
  match hits with
  | [] => Ok results
  | (score, idx) :: rest =>
      if idx <? len (metadata self) then
        match py_index (metadata self) idx with
        | None => Raise IndexError
        | Some m =>
            if filtered_out source_filter m
            then gather self limit source_filter rest results
            else
              let results := results ++ [QueryResult.make m (f64.of_f32 score)] in
              if len results >=? limit then Ok results
              else gather self limit source_filter rest results
        end
      else gather self limit source_filter rest results
  end.

Definition search_body (self : t) (query_embedding : list float)
    (limit : Z) (source_filter : option str) : result (list QueryResult.t) :=
  if faiss.ntotal (index self) =? 0 then Ok []
  else
    let query_vec := np.array query_embedding in
    let query_vec := np.divide query_vec (np.norm query_vec) in
    let* hits :=
      faiss.search (index self) query_vec
        (Z.min (limit * 2) (faiss.ntotal (index self))) in
    gather self limit source_filter hits [].

(** [search]: every exception of the body is caught and gives [[]]. *)
Definition search (self : t) (query_embedding : list float)
    (limit : Z) (source_filter : option str) : list QueryResult.t :=
  match search_body self query_embedding limit source_filter with
  | Ok results => results
  | _ => []
  end.

Definition clear_collection (self : t) : t :=
  {| embedding_dim := embedding_dim self;
     index := faiss.new (embedding_dim self);
     metadata := [] |}.

(** The [points_count] of [get_collection_info]. *)
Definition points_count (self : t) : Z := len (metadata self).

Record CollectionInfo := {
  vectors_count : Z;
  indexed_vectors_count : Z;
  info_points_count : Z;
  status : str
}.

Definition get_collection_info (self : t) : CollectionInfo :=
  {| vectors_count := faiss.ntotal (index self);
     indexed_vectors_count := faiss.ntotal (index self);
     info_points_count := len (metadata self);
     status := lit "available" |}.

End FaissVectorStore.

(** ** The Qdrant collection behind [qdrant_client] *)

Module qdrant.

Record PointStruct := { id : Z; vector : list float; payload : Entry.t }.

Record ScoredPoint := { score : float; hit_payload : Entry.t }.

(** The points of the collection, by id. *)
Definition collection := gmap Z PointStruct.

(** The vector size of [_ensure_collection_exists]. *)
Definition size : Z := 1024.

(** [client.upsert(points=batch)]: a point whose id is already present
    replaces the stored one; a batch with a vector of the wrong size is
    refused as a whole.  The [vector] of a stored point is the vector as it
    was uploaded: the collection is created with cosine distance and keeps
    the vector scaled to unit norm, which changes nothing for a vector of
    norm 1 and which no statement below reads otherwise. *)
Definition put (c : gmap Z PointStruct) (p : PointStruct) : gmap Z PointStruct :=
  <[id p := p]> c.

Definition upsert (c : gmap Z PointStruct) (batch : list PointStruct)
    : result (gmap Z PointStruct) :=
  if forallb (fun p => len (vector p) =? size) batch
  then Ok (fold_left put batch c)
  else Raise ServiceError.

(** [client.search]: the ranking is computed by the service. *)
Class Service := {
  search : gmap Z PointStruct -> list float -> Z -> option str -> float ->
           result (list ScoredPoint)
}.

End qdrant.

(** ** [services/vector_store.py] *)

Module VectorStore.

Record t := { is_available : bool; points : gmap Z qdrant.PointStruct }.

(** The [for i, doc in enumerate(documents)] loop, from index [i]. *)
Fixpoint build_points (i : Z) (documents : list Document.t)
    : result (list qdrant.PointStruct) :=
  match documents with
  | [] => Ok []
  | doc :: rest =>
      match Document.embedding doc, Document.text doc with
      | Some e, Some _ =>
          let* points := build_points (i + 1) rest in
          Ok ({| qdrant.id := i; qdrant.vector := e;
                 qdrant.payload := Entry.of_doc doc |} :: points)
      | _, _ => Raise KeyError
      end
  end.

Definition batch_size : Z := 100.

(** One round of the upload loop: the batch that starts at [i] is sent
    unless an earlier batch was refused. *)
Definition upload_batch (points : list qdrant.PointStruct)
    (state : gmap Z qdrant.PointStruct * option exn) (i : Z)
    : gmap Z qdrant.PointStruct * option exn :=
  let '(c, err) := state in
  match err with
  | Some _ => (c, err)
  | None =>
      match qdrant.upsert c (py_slice points i (i + batch_size)) with
      | Ok c' => (c', None)
      | Raise e => (c, Some e)
      | Diverge => (c, None)
      end
  end.

(** The upload loop over [range(0, len(points), batch_size)]. *)
Definition upload (c : gmap Z qdrant.PointStruct) (points : list qdrant.PointStruct)
    : gmap Z qdrant.PointStruct * option exn :=
  fold_left (upload_batch points) (range_step (len points) batch_size) (c, None).

(** [add_documents] returns the store after the call and the exception
    it re-raised, if any. *)
Definition add_documents (self : t) (documents : list Document.t)
    : t * option exn :=
  if negb (is_available self) then (self, None)
  else
    match build_points 0 documents with
    | Ok points =>
        let '(c, err) := upload (VectorStore.points self) points in
        ({| is_available := true; points := c |}, err)
    | Raise e => (self, Some e)
    | Diverge => (self, None)
    end.

(** [search_filter]: only a non-empty [source_filter] is passed on. *)
Definition search_filter (source_filter : option str) : option str :=
  match source_filter with
  | Some f => if truthy f then Some f else None
  | None => None
  end.

Definition search `{qdrant.Service} (self : t) (query_embedding : list float)
    (limit : Z) (source_filter : option str) : list QueryResult.t :=
  if negb (is_available self) then []
  else
    match qdrant.search (points self) query_embedding limit
            (search_filter source_filter) Config.SIMILARITY_THRESHOLD with
    | Ok search_result =>
        List.map (fun hit => QueryResult.make (qdrant.hit_payload hit) (qdrant.score hit))
          search_result
    | _ => []
    end.

(** [delete_collection] followed by [_ensure_collection_exists]. *)
Definition clear_collection (self : t) : t :=
  if negb (is_available self) then self
  else {| is_available := true; points := ∅ |}.

(** The [points_count] of [get_collection_info]: 0 when the store is
    unavailable, otherwise the number of points the collection holds (the
    client call is taken to succeed). *)
Definition points_count (self : t) : Z :=
  if negb (is_available self) then 0 else Z.of_nat (size (points self)).

End VectorStore.

Module TextNormalizer.

(** [r'\s+'] *)
Definition whitespace_run : re.pattern := [ (isspace, re.Plus) ].

Definition normalize_query `{Unicode} (query : str) : str :=
  if negb (truthy query) then query
  else
    let query := strip (lower query) in
    re.sub whitespace_run (lit " ") query.

(** [s.replace(old, new)] for a one-character [old]. *)
Definition replace_char (old : N) (new s : str) : str :=
  flat_map (fun c => if (c =? old)%N then new else [c]) s.

(** The danda and the double danda are code points 2404 and 2405. *)
Definition normalize_sanskrit (text : str) : str :=
  if negb (truthy text) then text
  else
    let text := strip (re.sub whitespace_run (lit " ") text) in
    let text := replace_char 2404 (lit ".") text in
    replace_char 2405 (lit "||") text.

(** [(\d+)] *)
Definition number `{Decimals} : re.gpattern :=
  [re.Open; re.Class isdecimal re.Plus; re.Close].

(** [r'(\d+)\.(\d+)'] *)
Definition dotted_pattern `{Decimals} : re.gpattern :=
  number ++ [re.Class (N.eqb 46) re.Once] ++ number.

(** [r'chapter\s+(\d+)\s+verse\s+(\d+)'] *)
Definition worded_pattern `{Decimals} : re.gpattern :=
  re.literal (lit "chapter") ++ [re.Class isspace re.Plus] ++ number
  ++ [re.Class isspace re.Plus] ++ re.literal (lit "verse")
  ++ [re.Class isspace re.Plus] ++ number.

(** [r'ch\.\s*(\d+)\s*v\.\s*(\d+)'] *)
Definition short_pattern `{Decimals} : re.gpattern :=
  re.literal (lit "ch.") ++ [re.Class isspace re.Star] ++ number
  ++ [re.Class isspace re.Star] ++ re.literal (lit "v.")
  ++ [re.Class isspace re.Star] ++ number.

(** One round of the loop over the patterns: the reference when the
    pattern matches and has two groups. *)
Definition reference_by (pat : re.gpattern) (text : str) : option str :=
  match re.gsearch pat text with
  | Some (_, [start1; end1; start2; end2]) =>
      Some (re.group text start1 end1 ++ lit "." ++ re.group text start2 end2)
  | _ => None
  end.

Definition extract_verse_reference `{Unicode} `{Decimals} (text : str) : str :=
  let lowered := lower text in
  match reference_by dotted_pattern lowered with
  | Some reference => reference
  | None =>
      match reference_by worded_pattern lowered with
      | Some reference => reference
      | None =>
          match reference_by short_pattern lowered with
          | Some reference => reference
          | None => []
          end
      end
  end.

End TextNormalizer.

(** ** [services/rag_service.py] *)

Module RAGService.

(** [self.vector_store] is one of the two backends. *)
Inductive backend :=
  | Qdrant (store : VectorStore.t)
  | Faiss (store : FaissVectorStore.t).

Record t := { vector_store : backend }.

(** [__init__]: the managed backend when its probe succeeded, the local
    one otherwise. *)
Definition new (managed : VectorStore.t) (local : FaissVectorStore.t) : t :=
  {| vector_store :=
       if VectorStore.is_available managed then Qdrant managed else Faiss local |}.

Record Answer := {
  answer : str;
  confidence : float;
  context_used : option Z;
  error : option exn
}.

Definition hindu_keywords : list str := List.map lit [
  "krishna"; "rama"; "ram"; "sita"; "hanuman"; "arjuna"; "dharma"; "karma"; "yoga"; "meditation";
  "bhagavad"; "gita"; "ramayana"; "mahabharata"; "vedas"; "upanishads"; "sanskrit";
  "moksha"; "nirvana"; "hindu"; "hinduism"; "spiritual"; "soul"; "atman"; "brahman";
  "vishnu"; "shiva"; "ganesha"; "devi"; "goddess"; "god"; "divine"; "sacred"; "holy";
  "temple"; "prayer"; "mantra"; "om"; "aum"; "patanjali"; "sage"; "guru"; "ashram";
  "verse"; "chapter"; "shloka"; "sutra"; "philosophy"; "truth"; "consciousness";
  "devotion"; "worship"; "faith"; "righteous"; "sin"; "virtue"; "ethics"; "duty";
  "life"; "death"; "rebirth"; "purpose"; "peace"; "happiness"; "suffering"; "wisdom";
  "dasharatha"; "pita"; "mata"; "father"; "mother"; "son"; "daughter"; "brother"; "sister";
  "wife"; "husband"; "bharat"; "lakshmana"; "shatrughna"; "kaikeyi"; "kausalya"; "sumitra";
  "ravana"; "lakshman"; "bharata"; "mandodari"; "surpanakha"; "kumbhakarna"; "vibhishana";
  "pandava"; "kaurava"; "draupadi"; "yudhishthira"; "bhima"; "nakula"; "sahadeva";
  "duryodhana"; "dushasana"; "shakuni"; "gandhari"; "kunti"; "madri"; "pandu"; "dhritarashtra"
]%string.

Definition modern_keywords : list str := List.map lit [
  "salman khan"; "akshay kumar"; "shah rukh khan"; "bollywood"; "actor"; "actress"; "movie"; "film";
  "cricket"; "politics"; "politician"; "president"; "prime minister"; "covid"; "coronavirus";
  "technology"; "computer"; "internet"; "facebook"; "instagram"; "whatsapp"; "twitter";
  "stock market"; "cryptocurrency"; "bitcoin"; "business"; "company"; "startup";
  "sports"; "football"; "tennis"; "olympics"; "ipl"; "match"; "score"
]%string.

Definition hindi_patterns : list str := List.map lit [
  "kya naam"; "kaun"; "kahan"; "kaise"; "kyun"; "kya"; "ki"; "ka"; "ke";
  "naam tha"; "naam hai"; "kon tha"; "kon hai"; "kahan tha"; "kahan hai"
]%string.

Definition spiritual_patterns : list str := List.map lit [
  "what is"; "how to"; "meaning"; "significance"; "teaching"; "purpose of";
  "why do"; "how can"; "what does"; "tell me about"; "explain"; "describe";
  "who is"; "who was"; "where is"; "where was"; "when did"
]%string.

(** [any(keyword in s for keyword in keywords)] *)
Definition any_in (keywords : list str) (s : str) : bool :=
  existsb (fun keyword => contains keyword s) keywords.

Definition _is_hindu_text_related `{Unicode} (question : str) : bool :=
  let question_lower := lower question in
  let has_hindu_keywords := any_in hindu_keywords question_lower in
  let has_modern_keywords := any_in modern_keywords question_lower in
  if has_modern_keywords then false
  else
    let has_hindi_patterns := any_in hindi_patterns question_lower in
    let has_spiritual_patterns := any_in spiritual_patterns question_lower in
    has_hindu_keywords
    || (has_hindi_patterns && (len (strip question) >? 5))
    || (has_spiritual_patterns && (len (strip question) >? 10)).

Definition newline : str := [10%N].

Definition _format_context_entry (result : QueryResult.t) : str :=
  let parts :=
    if truthy (QueryResult.chapter result) && truthy (QueryResult.verse result)
    then [lit "Source: " ++ QueryResult.source result ++ lit " - Chapter "
            ++ QueryResult.chapter result ++ lit ", Verse " ++ QueryResult.verse result]
    else [lit "Source: " ++ QueryResult.source result] in
  let parts :=
    if truthy (QueryResult.sanskrit result)
    then parts ++ [lit "Sanskrit: " ++ QueryResult.sanskrit result] else parts in
  let parts :=
    if truthy (QueryResult.translation result)
    then parts ++ [lit "Translation: " ++ QueryResult.translation result] else parts in
  let parts :=
    if truthy (QueryResult.explanation result)
    then parts ++ [lit "Commentary: " ++ QueryResult.explanation result] else parts in
  let parts := parts ++ [lit "Text: " ++ QueryResult.text result] in
  join newline parts.

Definition off_topic_message : str :=
  lit "I can only answer questions about Hindu religious texts including the Bhagavad Gita, Ramayana, Mahabharata, and Yoga Sutras. Please ask questions related to these sacred texts, their teachings, characters, or philosophical concepts.".

Definition no_information_message : str :=
  lit "Based on the available texts, I cannot find relevant information to answer this question. Please try rephrasing your question or asking about specific verses or concepts from the Bhagavad Gita or Yoga Sutras.".

Definition failure_message : str :=
  lit "I encountered an issue while searching for your answer. This might be due to a temporary service interruption. Please try rephrasing your question or try again in a moment.".

(** The separator of the context blocks: a line of three dashes between
    two blank lines. *)
Definition separator : str := newline ++ newline ++ lit "---" ++ newline ++ newline.

(** The literal [0.0]. *)
Definition zero : float := S754_zero false.

Definition canned (message : str) : Answer :=
  {| answer := message; confidence := zero; context_used := None; error := None |}.

(** [self.vector_store.search(...)] on the selected backend. *)
Definition store_search `{qdrant.Service} (self : t)
    (query_embedding : list float) (limit : Z) (source_filter : option str)
    : list QueryResult.t :=
  match vector_store self with
  | Qdrant store => VectorStore.search store query_embedding limit source_filter
  | Faiss store => FaissVectorStore.search store query_embedding limit source_filter
  end.

(** [sum(xs)]: the items are added to the integer 0 from left to right.
    An interpreter from 3.12 on also carries the rounding errors along and
    adds them at the end, which can change the last bits of a sum of several
    items and leaves the sum of one item as it is. *)
Definition sum (xs : list float) : float := fold_left f64.add xs (f64.of_Z 0).

(** [sum(result["score"] for result in top) / len(top)] *)
Definition average_score (top : list QueryResult.t) : float :=
  f64.div (sum (List.map QueryResult.score top)) (f64.of_Z (len top)).

(** [search_and_answer] never raises: the [except] clause turns every
    exception of the body into the failure answer. *)
Definition search_and_answer `{Unicode} `{APIClient.Services} `{qdrant.Service}
    (self : t) (question : str) (source_filter : option str) : result Answer :=
  if negb (_is_hindu_text_related question) then Ok (canned off_topic_message)
  else
    let normalized_question := TextNormalizer.normalize_query question in
    match APIClient.get_embedding normalized_question false 3 with
    | Diverge => Diverge
    | Raise e =>
        Ok {| answer := failure_message; confidence := zero;
              context_used := None; error := Some e |}
    | Ok question_embedding =>
        let search_results := store_search self question_embedding 20 source_filter in
        if negb (truthy search_results) then Ok (canned no_information_message)
        else
          let top := py_slice search_results 0 5 in
          let context_parts := List.map _format_context_entry top in
          let context := join separator context_parts in
          let answer := APIClient.generate_answer question context in
          let avg_confidence := average_score top in
          Ok {| answer := answer; confidence := avg_confidence;
                context_used := Some (len context_parts); error := None |}
    end.

(** [info.get("points_count", 0)] on the selected backend. *)
Definition store_points_count (self : t) : Z :=
  match vector_store self with
  | Qdrant store => VectorStore.points_count store
  | Faiss store => FaissVectorStore.points_count store
  end.

Definition store_clear (self : t) : t :=
  match vector_store self with
  | Qdrant store => {| vector_store := Qdrant (VectorStore.clear_collection store) |}
  | Faiss store => {| vector_store := Faiss (FaissVectorStore.clear_collection store) |}
  end.

Definition store_add (self : t) (documents : list Document.t) : t * option exn :=
  match vector_store self with
  | Qdrant store =>
      let '(store', raised) := VectorStore.add_documents store documents in
      ({| vector_store := Qdrant store' |}, raised)
  | Faiss store =>
      let '(store', raised) := FaissVectorStore.add_documents store documents in
      ({| vector_store := Faiss store' |}, raised)
  end.

(** [doc["embedding"] = embedding] *)
Definition set_embedding (doc : Document.t) (embedding : list float) : Document.t :=
  {| Document.text := Document.text doc;
     Document.source := Document.source doc;
     Document.chapter := Document.chapter doc;
     Document.verse := Document.verse doc;
     Document.sanskrit := Document.sanskrit doc;
     Document.translation := Document.translation doc;
     Document.explanation := Document.explanation doc;
     Document.metadata := Document.metadata doc;
     Document.embedding := Some embedding |}.

(** One round of the embedding loop of [initialize_database]: a missing
    ["text"] key and an exception of [get_embedding] are caught, and the
    document is left as it is. *)
Definition embed_document `{APIClient.Services} (doc : Document.t) : result Document.t :=
  match Document.text doc with
  | None => Ok doc
  | Some text =>
      match APIClient.get_embedding text false 3 with
      | Ok embedding => Ok (set_embedding doc embedding)
      | Raise _ => Ok doc
      | Diverge => Diverge
      end
  end.

Fixpoint embed_documents `{APIClient.Services} (documents : list Document.t)
    : result (list Document.t) :=
  match documents with
  | [] => Ok []
  | doc :: rest =>
      let* doc' := embed_document doc in
      let* rest' := embed_documents rest in
      Ok (doc' :: rest')
  end.

(** ["embedding" in doc] *)
Definition has_embedding (doc : Document.t) : bool :=
  match Document.embedding doc with Some _ => true | None => false end.

(** [initialize_database], with [documents] standing for what
    [self.doc_processor.process_all_files()] returns.  The result is the
    service after the call and the exception the call raised, if any. *)
Definition initialize_database `{APIClient.Services} (self : t)
    (documents : list Document.t) (force_reload : bool) : result (t * option exn) :=
  if (store_points_count self >? 0) && negb force_reload then Ok (self, None)
  else
    let self := if force_reload then store_clear self else self in
    if negb (truthy documents) then Ok (self, None)
    else
      let* documents := embed_documents documents in
      let valid_documents := List.filter has_embedding documents in
      if truthy valid_documents then Ok (store_add self valid_documents)
      else Ok (self, None).

(** [d.get(key)] on a metadata mapping. *)
Fixpoint metadata_get (key : str) (metadata : list (str * str)) : option str :=
  match metadata with
  | [] => None
  | (k, v) :: rest => if bool_decide (k = key) then Some v else metadata_get key rest
  end.

(** The dict returned by [search_by_verse]: when [found] is true,
    [verse_fields] is the search result whose sanskrit, translation,
    explanation, source, chapter and verse are returned. *)
Record VerseAnswer := {
  found : bool;
  verse_fields : option QueryResult.t;
  verse_error : option exn
}.

Definition search_by_verse `{APIClient.Services} `{qdrant.Service}
    (self : t) (chapter verse : str) : result VerseAnswer :=
  let verse_id := chapter ++ lit "." ++ verse in
  match APIClient.get_embedding
          (lit "chapter " ++ chapter ++ lit " verse " ++ verse) false 3 with
  | Diverge => Diverge
  | Raise e => Ok {| found := false; verse_fields := None; verse_error := Some e |}
  | Ok query_embedding =>
      let search_results := store_search self query_embedding 50 None in
      let exact_matches :=
        List.filter
          (fun result =>
             bool_decide (metadata_get (lit "verse_id") (QueryResult.metadata result)
                          = Some verse_id))
          search_results in
      match exact_matches with
      | result :: _ => Ok {| found := true; verse_fields := Some result; verse_error := None |}
      | [] => Ok {| found := false; verse_fields := None; verse_error := None |}
      end
  end.

End RAGService.


(** * Predicates of the statements *)

(** Position [i] of [text] lies inside an occurrence of one of the chunks. *)
Definition covered (text : str) (chunks : list str) (i : nat) : Prop :=
  exists chunk off,
    In chunk chunks
    /\ (off <= i < off + length chunk)%nat
    /\ firstn (length chunk) (skipn off text) = chunk.

Definition is_byte (b : Z) : Prop := 0 <= b < 256.

(** ASCII strings without capital letters, such as the keywords of the
    gate, are their own lowercase form. *)
Definition lowercase_ascii (k : str) : bool :=
  forallb (fun c => (c <? 128)%N && (ascii_lower c =? c)%N) k.

(** The embeddings of the documents that carry one, in order. *)
Definition embeddings_of (documents : list Document.t) : list (list float) :=
  flat_map
    (fun doc => match Document.embedding doc with Some e => [e] | None => [] end)
    documents.

(** The entries of the documents that carry an embedding, in order. *)
Definition entries_of (documents : list Document.t) : list Entry.t :=
  flat_map
    (fun doc => match Document.embedding doc with
                | Some _ => [Entry.of_doc doc]
                | None => []
                end)
    documents.

(** [score >= SIMILARITY_THRESHOLD] *)
Definition meets_floor (score : float) : Prop :=
  SFleb Config.SIMILARITY_THRESHOLD score = true.

Definition is_zero (x : spec_float) : bool :=
  match x with S754_zero _ => true | _ => false end.

(** The value of a float lies between 0 and the integer [V]: the float is a
    zero, or a positive [m * 2 ^ e] with [m <= V * 2 ^ (- e)].  The exponent
    of a binary64 number below [2 ^ 53] is never positive. *)
Definition within (V : Z) (x : float) : Prop :=
  match x with
  | S754_zero _ => True
  | S754_finite false m e => e <= 0 /\ Zpos m <= V * 2 ^ (- e)
  | _ => False
  end.

(** 1 when something was shifted out, 0 otherwise. *)
Definition residue (x : shr_record) : Z :=
  if shr_r x || shr_s x then 1 else 0.

(** 1 for an inexact location, 0 for the exact one. *)
Definition slack (l : location) : Z :=
  match l with loc_Exact => 0 | loc_Inexact _ => 1 end.

(** Every whitespace character of [q] is a U+0020 that is followed by a
    character that is not whitespace, or by nothing. *)
Fixpoint single_spaced (q : str) : bool :=
  match q with
  | [] => true
  | c :: q' =>
      (negb (isspace c)
       || ((c =? 32)%N && match q' with d :: _ => negb (isspace d) | [] => true end))
      && single_spaced q'
  end.

(** The first (last) character of [s], if any, is not whitespace. *)
Definition head_ok (s : str) : bool :=
  match s with c :: _ => negb (isspace c) | [] => true end.

Fixpoint last_ok (s : str) : bool :=
  match s with
  | [] => true
  | [c] => negb (isspace c)
  | _ :: s' => last_ok s'
  end.

(** [within 1], as a test. *)
Definition in_unit_interval (x : float) : bool :=
  match x with
  | S754_zero _ => true
  | S754_finite false m e => (e <=? 0) && (Zpos m <=? 2 ^ (- e))
  | _ => false
  end.

(** The component that [_get_embedding_openrouter] makes of one byte of the
    digest. *)
Definition component (b : Z) : float := f64.div (f64.of_Z b) (f64.of_Z 255).

(** The index and the metadata of a local store describe the same rows,
    and every row has the dimension of the index. *)
Definition consistent (self : FaissVectorStore.t) : Prop :=
  faiss.ntotal (FaissVectorStore.index self) = len (FaissVectorStore.metadata self)
  /\ Forall (fun row => len row = faiss.d (FaissVectorStore.index self))
       (faiss.xb (FaissVectorStore.index self)).

(** The states of a local store that starts empty. *)
Inductive reachable (dim : Z) : FaissVectorStore.t -> Prop :=
  | reachable_new : reachable dim (FaissVectorStore.new dim)
  | reachable_add (self : FaissVectorStore.t) (documents : list Document.t) :
      reachable dim self ->
      reachable dim (fst (FaissVectorStore.add_documents self documents))
  | reachable_clear (self : FaissVectorStore.t) :
      reachable dim self ->
      reachable dim (FaissVectorStore.clear_collection self).

(** The query vector that [search] hands to the index. *)
Definition query_vector (query_embedding : list float) : list float32 :=
  np.divide (np.array query_embedding) (np.norm (np.array query_embedding)).

(** A document that the managed backend can store: it has a text and an
    embedding of the size of the collection. *)
Definition storable (doc : Document.t) : Prop :=
  Document.text doc <> None
  /\ exists e, Document.embedding doc = Some e /\ len e = qdrant.size.

(** A code point that [encode] accepts: any but a surrogate. *)
Definition scalar (c : N) : Prop := (c < 55296 \/ 57343 < c < 1114112)%N.

(** The [verse_id] of the metadata of an entry. *)
Definition verse_id_of (m : Entry.t) : option str :=
  RAGService.metadata_get (lit "verse_id") (Entry.metadata m).

(** A document whose text [encode] accepts. *)
Definition has_text (doc : Document.t) : Prop :=
  exists text, Document.text doc = Some text /\ Forall scalar text.

(** [pat] matches [text] from position [pos] to position [e], with its
    parentheses at [marks]. *)
Inductive spans (text : str) : re.gpattern -> nat -> nat -> list nat -> Prop :=
  | spans_nil (pos : nat) : spans text [] pos pos []
  | spans_open (rest : re.gpattern) (pos e : nat) (marks : list nat) :
      spans text rest pos e marks ->
      spans text (re.Open :: rest) pos e (pos :: marks)
  | spans_close (rest : re.gpattern) (pos e : nat) (marks : list nat) :
      spans text rest pos e marks ->
      spans text (re.Close :: rest) pos e (pos :: marks)
  | spans_class (p : N -> bool) (q : re.quant) (rest : re.gpattern)
      (pos k e : nat) (marks : list nat) :
      (pos <= k <= length text)%nat ->
      Forall (fun c => p c = true) (re.group text pos k) ->
      match q with
      | re.Once => k = S pos
      | re.Plus => (pos < k)%nat
      | re.Star => True
      end ->
      spans text rest k e marks ->
      spans text (re.Class p q :: rest) pos e marks.

(** A verse reference: two numbers with a dot between them. *)
Definition is_reference `{Decimals} (reference : str) : Prop :=
  exists chapter verse,
    reference = chapter ++ lit "." ++ verse
    /\ chapter <> [] /\ verse <> []
    /\ Forall (fun c => isdecimal c = true) chapter
    /\ Forall (fun c => isdecimal c = true) verse.

(** One of the characters [0] to [9]. *)
Definition ascii_digit (c : N) : Prop := (48 <= c <= 57)%N.

(** * Fixtures of the examples *)

Definition small_chunker : TextChunker.t :=
  {| TextChunker.chunk_size := 8; TextChunker.overlap := 2 |}.

(** A case table that leaves every non-ASCII code point as it is. *)
Definition caseless : Unicode := {| unicode_lower := fun _ c _ => [c] |}.

(** Both endpoints out of reach. *)
Definition offline : APIClient.Services :=
  {| APIClient.mistral_embeddings := fun _ _ => APIClient.Failure;
     APIClient.openrouter_chat := fun _ _ => Raise ServiceError |}.

(** A service that finds nothing. *)
Definition silent : qdrant.Service :=
  {| qdrant.search := fun _ _ _ _ _ => Ok [] |}.

(** A document with the given text fields and embedding. *)
Definition document (text source chapter verse : string) (embedding : list float)
    : Document.t :=
  {| Document.text := Some (lit text);
     Document.source := Some (lit source);
     Document.chapter := Some (lit chapter);
     Document.verse := Some (lit verse);
     Document.sanskrit := None;
     Document.translation := None;
     Document.explanation := None;
     Document.metadata := None;
     Document.embedding := Some embedding |}.

(** The vector of dimension 1024 with [x] at position [i] and 0.0 elsewhere. *)
Definition spike (i : nat) (x : Z) : list float :=
  repeat (S754_zero false) i ++ [f64.of_Z x] ++ repeat (S754_zero false) (1023 - i).

(** A local store holding one document, along the first axis. *)
Definition axis_store : FaissVectorStore.t :=
  fst (FaissVectorStore.add_documents (FaissVectorStore.new 1024)
         [document "dharma is duty" "gita" "2" "47" (spike 0 1)]).

(** A local store holding one document whose embedding has only negative
    components. *)
Definition opposite_store : FaissVectorStore.t :=
  fst (FaissVectorStore.add_documents (FaissVectorStore.new 1024)
         [document "dharma is duty" "gita" "2" "47"
            (repeat (SFopp (f64.of_Z 1)) 1024)]).

(** The managed store when the probe failed, and when it succeeded on an
    empty collection. *)
Definition unavailable : VectorStore.t :=
  {| VectorStore.is_available := false; VectorStore.points := ∅ |}.

Definition available : VectorStore.t :=
  {| VectorStore.is_available := true; VectorStore.points := ∅ |}.

(** A service that answers with one hit, scored at the threshold. *)
Definition steady : qdrant.Service :=
  {| qdrant.search := fun _ _ limit _ threshold =>
       Ok (firstn (Z.to_nat limit)
             [{| qdrant.score := threshold;
                 qdrant.hit_payload :=
                   Entry.of_doc (document "dharma is duty" "gita" "2" "47" []) |}]) |}.

(** The binary32 values 1.0 and 5.0. *)
Definition one32 : float32 := f32.of_f64 (f64.of_Z 1).

Definition five32 : float32 := f32.of_f64 (f64.of_Z 5).

(** An embeddings endpoint that is rate limited, then fails, then serves. *)
Definition flaky : APIClient.Services :=
  {| APIClient.mistral_embeddings := fun _ attempt =>
       match attempt with
       | O => APIClient.RateLimited
       | S O => APIClient.Failure
       | _ => APIClient.Embedding [f64.of_Z 1]
       end;
     APIClient.openrouter_chat := fun _ _ => Raise ServiceError |}.

(** The result of searching [axis_store] along its axis. *)
Definition axis_result : QueryResult.t :=
  QueryResult.make
    (Entry.of_doc (document "dharma is duty" "gita" "2" "47" (spike 0 1)))
    (f64.of_Z 1).

(** A document with a text and no embedding. *)
Definition unembedded : Document.t :=
  {| Document.text := Some (lit "dharma is duty");
     Document.source := Some (lit "gita");
     Document.chapter := None;
     Document.verse := None;
     Document.sanskrit := None;
     Document.translation := None;
     Document.explanation := None;
     Document.metadata := None;
     Document.embedding := None |}.

(** A full batch of storable documents followed by one whose embedding has
    no component. *)
Definition overfull_batch : list Document.t :=
  repeat (document "dharma is duty" "gita" "2" "47" (spike 0 3)) 100
  ++ [document "the self is eternal" "gita" "2" "20" []].

(** A local store holding one verse with its [verse_id]. *)
Definition verse_store : FaissVectorStore.t :=
  fst (FaissVectorStore.add_documents (FaissVectorStore.new 1024)
         [{| Document.text := Some (lit "karmany evadhikaras te");
             Document.source := Some (lit "gita");
             Document.chapter := Some (lit "2");
             Document.verse := Some (lit "47");
             Document.sanskrit := None;
             Document.translation := Some (lit "You have a right to action alone");
             Document.explanation := None;
             Document.metadata := Some [(lit "verse_id", lit "2.47")];
             Document.embedding := Some (spike 0 1) |}]).

(** Only [0-9] are decimal digits. *)
Definition ascii_decimals : Decimals := {| unicode_decimal := fun _ => false |}.

(** * Properties *)

(** ** Sequences and slices *)

Lemma len_nonneg {A : Type} (l : list A) : 0 <= len l.
Proof. unfold len. lia. Qed.

Lemma py_slice_window {A : Type} (l : list A) (s e : Z) :
  0 <= s -> s <= e ->
  py_slice l s e = firstn (Z.to_nat (e - s)) (skipn (Z.to_nat s) l).
Proof.
  intros Hs He. unfold py_slice, adjust_index.
  destruct (Z.ltb_spec s 0); [lia|].
  destruct (Z.ltb_spec e 0); [lia|].
  pose proof (len_nonneg l) as Hn. unfold len in *.
  destruct (Z_le_gt_dec s (Z.of_nat (length l))) as [Hle|Hgt].
  - rewrite (Z.min_l s) by lia.
    destruct (Z_le_gt_dec e (Z.of_nat (length l))).
    + rewrite (Z.min_l e) by lia. reflexivity.
    + rewrite (Z.min_r e) by lia.
      rewrite !firstn_all2; try reflexivity; rewrite length_skipn; lia.
  - rewrite !(skipn_all2 l) by lia. now rewrite !firstn_nil.
Qed.

Lemma lstrip_split (s : str) :
  exists a, s = a ++ lstrip s /\ Forall (fun c => isspace c = true) a.
Proof.
  induction s as [|c s [a [Hs Ha]]]; simpl.
  - exists []. split; [reflexivity | constructor].
  - destruct (isspace c) eqn:Hc.
    + exists (c :: a). split; [simpl; congruence | constructor; assumption].
    + exists []. split; [reflexivity | constructor].
Qed.

Lemma strip_split (s : str) :
  exists a b, s = a ++ strip s ++ b
    /\ Forall (fun c => isspace c = true) a
    /\ Forall (fun c => isspace c = true) b.
Proof.
  destruct (lstrip_split s) as [a [Hs Ha]].
  destruct (lstrip_split (rev (lstrip s))) as [b [Hr Hb]].
  exists a, (rev b). repeat split.
  - unfold strip, rstrip. rewrite <- rev_app_distr, <- Hr, rev_involutive. exact Hs.
  - exact Ha.
  - apply List.Forall_forall. intros x Hx. apply in_rev in Hx.
    rewrite List.Forall_forall in Hb. now apply Hb.
Qed.

(** A character that is not whitespace survives [strip], at the position
    shifted by the stripped prefix. *)
Lemma strip_keeps (w : str) (j : nat) (c : N) :
  nth_error w j = Some c -> isspace c = false ->
  exists a b, w = a ++ strip w ++ b
    /\ (length a <= j < length a + length (strip w))%nat.
Proof.
  intros Hj Hc. destruct (strip_split w) as [a [b [Hw [Ha Hb]]]].
  exists a, b. split; [exact Hw|].
  rewrite List.Forall_forall in Ha, Hb.
  assert (Hnot : forall l, (forall x, In x l -> isspace x = true) -> ~ In c l).
  { intros l Hl Hin. specialize (Hl _ Hin). congruence. }
  rewrite Hw in Hj. split.
  - destruct (le_lt_dec (length a) j) as [|Hlt]; [assumption|].
    rewrite nth_error_app1 in Hj by assumption.
    apply nth_error_In in Hj. now apply Hnot in Hj.
  - destruct (le_lt_dec (length a + length (strip w)) j) as [Hge|]; [|assumption].
    rewrite nth_error_app2 in Hj by lia.
    rewrite nth_error_app2 in Hj by lia.
    apply nth_error_In in Hj. now apply Hnot in Hj.
Qed.

(** ** The chunker *)

Lemma next_start_gt (self : TextChunker.t) (start end_ : Z) :
  start < TextChunker.next_start self start end_.
Proof. unfold TextChunker.next_start. lia. Qed.

Lemma window_end_gt (self : TextChunker.t) (text : str) (start : Z) :
  0 < TextChunker.chunk_size self ->
  start < TextChunker.window_end self text start.
Proof.
  intros Hsize. unfold TextChunker.window_end.
  destruct (_ <? _); [|lia].
  destruct (Z.gtb_spec
    (TextChunker._find_sentence_boundary text
       (start + TextChunker.chunk_size self - TextChunker.overlap self)
       (start + TextChunker.chunk_size self)) start); lia.
Qed.

Lemma window_covers (text : str) (start end_ : Z) (i : nat) (c : N) :
  0 <= start -> start <= Z.of_nat i < end_ ->
  nth_error text i = Some c -> isspace c = false ->
  let chunk := strip (py_slice text start end_) in
  truthy chunk = true /\
  exists off, (off <= i < off + length chunk)%nat
    /\ firstn (length chunk) (skipn off text) = chunk.
Proof.
  intros Hs Hi Hc Hsp chunk. subst chunk.
  rewrite py_slice_window by lia.
  set (s := Z.to_nat start). set (n := Z.to_nat (end_ - start)).
  set (w := firstn n (skipn s text)).
  assert (Hw : nth_error w (i - s) = Some c).
  { subst w. rewrite nth_error_firstn.
    destruct (Nat.ltb_spec (i - s) n); [|lia].
    rewrite nth_error_skipn. replace (s + (i - s))%nat with i by lia. exact Hc. }
  destruct (strip_keeps w (i - s) c Hw Hsp) as [a [b [Hsplit Hrange]]].
  split.
  - destruct (strip w); [simpl in Hrange; lia | reflexivity].
  - exists (length a + s)%nat. split; [lia|].
    assert (Hsk : skipn s text = a ++ strip w ++ b ++ skipn n (skipn s text)).
    { rewrite <- (firstn_skipn n (skipn s text)) at 1. fold w.
      rewrite Hsplit at 1. now rewrite <- !app_assoc. }
    rewrite <- skipn_skipn, Hsk.
    rewrite skipn_app, skipn_all, Nat.sub_diag, skipn_O. simpl.
    rewrite firstn_app, firstn_all, Nat.sub_diag, firstn_O. apply app_nil_r.
Qed.

Lemma nth_error_lt {A : Type} (l : list A) (i : nat) (x : A) :
  nth_error l i = Some x -> Z.of_nat i < len l.
Proof.
  intros H. assert (i < length l)%nat by (apply nth_error_Some; congruence).
  unfold len. lia.
Qed.

Lemma chunk_loop_covers (self : TextChunker.t) (text : str) :
  0 < TextChunker.chunk_size self -> 0 <= TextChunker.overlap self ->
  forall fuel start chunks r,
    0 <= start ->
    TextChunker.chunk_loop fuel self text start chunks = Some r ->
    (forall ch, In ch chunks -> In ch r) /\
    (forall i c, start <= Z.of_nat i -> nth_error text i = Some c ->
                 isspace c = false -> covered text r i).
Proof.
  intros Hsize Hover. induction fuel as [|fuel IH]; intros start chunks r Hstart Hrun.
  - simpl in Hrun. destruct (Z.ltb_spec start (len text)); [discriminate|].
    injection Hrun as <-. split; [auto|].
    intros i c Hi Hc _. apply nth_error_lt in Hc. lia.
  - simpl in Hrun. destruct (Z.ltb_spec start (len text)) as [Hlt|Hge].
    2:{ injection Hrun as <-. split; [auto|].
        intros i c Hi Hc _. apply nth_error_lt in Hc. lia. }
    pose proof (window_end_gt self text start Hsize) as Hend.
    set (end_ := TextChunker.window_end self text start) in *.
    set (chunk := strip (py_slice text start end_)) in *.
    set (chunks' := if truthy chunk then chunks ++ [chunk] else chunks) in *.
    pose proof (next_start_gt self start end_) as Hnext.
    assert (Hle : TextChunker.next_start self start end_ <= end_)
      by (unfold TextChunker.next_start; lia).
    set (start' := TextChunker.next_start self start end_) in *.
    assert (Hkeep : forall ch, In ch chunks -> In ch chunks').
    { intros ch Hch. subst chunks'. destruct (truthy chunk); [apply in_or_app|]; auto. }
    assert (Hwin : forall i c, start <= Z.of_nat i < end_ -> nth_error text i = Some c ->
                     isspace c = false -> covered text chunks' i).
    { intros i c Hi Hc Hsp.
      destruct (window_covers text start end_ i c Hstart Hi Hc Hsp) as [Htr [off [Hoff Hocc]]].
      fold chunk in Htr, Hoff, Hocc. exists chunk, off. repeat split; try lia; [|exact Hocc].
      subst chunks'. rewrite Htr. apply in_or_app. right. now left. }
    destruct (Z.geb_spec start' (len text)) as [Hdone|Hmore].
    + injection Hrun as <-. split; [exact Hkeep|].
      intros i c Hi Hc Hsp. apply (Hwin i c); auto.
      pose proof (nth_error_lt _ _ _ Hc). lia.
    + destruct (IH start' chunks' r ltac:(lia) Hrun) as [Hin Hcov]. split.
      * intros ch Hch. auto.
      * intros i c Hi Hc Hsp.
        destruct (Z_lt_ge_dec (Z.of_nat i) start') as [Hbefore|Hafter].
        -- destruct (Hwin i c ltac:(lia) Hc Hsp) as [ch [off [Hch Hrest]]].
           exists ch, off. split; auto.
        -- apply (Hcov i c); auto. lia.
Qed.

Lemma chunk_loop_enough (self : TextChunker.t) (text : str) :
  forall fuel start chunks,
    (Z.to_nat (len text - start) <= fuel)%nat ->
    exists r, TextChunker.chunk_loop fuel self text start chunks = Some r.
Proof.
  induction fuel as [|fuel IH]; intros start chunks Hfuel; simpl.
  - destruct (Z.ltb_spec start (len text)); [lia | eauto].
  - destruct (Z.ltb_spec start (len text)); [|eauto].
    set (end_ := TextChunker.window_end self text start).
    pose proof (next_start_gt self start end_).
    destruct (_ >=? _); [eauto|]. apply IH. lia.
Qed.

Lemma chunk_loop_more_fuel (self : TextChunker.t) (text : str) :
  forall fuel k start chunks r,
    TextChunker.chunk_loop fuel self text start chunks = Some r ->
    TextChunker.chunk_loop (fuel + k) self text start chunks = Some r.
Proof.
  induction fuel as [|fuel IH]; intros k start chunks r Hrun.
  - simpl in Hrun. destruct (start <? len text) eqn:Hlt; [discriminate|].
    destruct (0 + k)%nat; simpl; now rewrite Hlt.
  - simpl in *. destruct (start <? len text); [|assumption].
    destruct (_ >=? _); [assumption|]. now apply IH.
Qed.

Example chunk_text_small :
  TextChunker.chunk_text small_chunker (lit "karma yoga, dharma.")
  = [lit "karma yo"; lit "yoga, dh"; lit "dharma."; lit "."].
Proof. reflexivity. Qed.

Example sentence_boundary_found :
  TextChunker._find_sentence_boundary (lit "one. two, three") 0 15 = 5.
Proof. reflexivity. Qed.

(** C8. [chunk_text] terminates on every input and for every configuration:
    in each iteration of the loop the next window start is strictly greater
    than the current one, whatever the boundary search returned, and with one
    unit of fuel per character (or more) the loop exits with the chunks. *)
Theorem chunk_text_terminates (self : TextChunker.t) (text : str) :
  (forall start,
      start < TextChunker.next_start self start (TextChunker.window_end self text start))
  /\ (forall k,
      TextChunker.chunk_text_fuel (length text + k) self text
      = Some (TextChunker.chunk_text self text)).
Proof.
  split.
  - intros start. apply next_start_gt.
  - intros k. unfold TextChunker.chunk_text, TextChunker.chunk_text_fuel.
    destruct (negb (truthy text) || (len text <? TextChunker.chunk_size self));
      [reflexivity|].
    destruct (chunk_loop_enough self text (length text) 0 []) as [r Hr].
    { unfold len. lia. }
    rewrite Hr. now apply chunk_loop_more_fuel.
Qed.

(** C7, as the code has it.  A text shorter than [chunk_size] is returned
    whole, as the only chunk, unless it is empty: the empty text gives the
    empty sequence. *)
Theorem chunk_text_short (self : TextChunker.t) (text : str) :
  len text < TextChunker.chunk_size self ->
  TextChunker.chunk_text self text = match text with [] => [] | _ :: _ => [text] end.
Proof.
  intros Hshort. unfold TextChunker.chunk_text, TextChunker.chunk_text_fuel.
  destruct (Z.ltb_spec (len text) (TextChunker.chunk_size self)); [|lia].
  rewrite orb_true_r. now destruct text.
Qed.

Lemma chunk_text_short_witness :
  len (lit "dharma is duty") < TextChunker.chunk_size TextChunker.default
  /\ TextChunker.chunk_text TextChunker.default (lit "dharma is duty")
     = [lit "dharma is duty"].
Proof.
  split; [reflexivity|].
  apply (chunk_text_short TextChunker.default (lit "dharma is duty")). reflexivity.
Defined.

(** C7 fails on the empty text: it is shorter than [chunk_size], and the
    result is the empty sequence, not the one-element sequence. *)
Lemma chunk_text_short_counterexample :
  len (@nil N) < TextChunker.chunk_size TextChunker.default
  /\ TextChunker.chunk_text TextChunker.default [] = []
  /\ TextChunker.chunk_text TextChunker.default [] <> [[]].
Proof. split; [reflexivity|]. split; [reflexivity | discriminate]. Qed.

(** C1, as the code has it.  With a positive [chunk_size] and a
    non-negative [overlap], every position of the text that holds a
    character other than whitespace lies inside one of the chunks, and that
    chunk is the text read from some offset.  Whitespace at the edges of a
    window is stripped. *)
Theorem chunk_text_covers (self : TextChunker.t) (text : str) (i : nat) (c : N) :
  0 < TextChunker.chunk_size self ->
  0 <= TextChunker.overlap self ->
  nth_error text i = Some c ->
  isspace c = false ->
  covered text (TextChunker.chunk_text self text) i.
Proof.
  intros Hsize Hover Hc Hsp.
  unfold TextChunker.chunk_text, TextChunker.chunk_text_fuel.
  destruct (negb (truthy text) || (len text <? TextChunker.chunk_size self)).
  - destruct text as [|c0 text']; [destruct i; discriminate|]. simpl truthy. cbv iota.
    exists (c0 :: text'), O. split; [now left|]. split.
    + pose proof (nth_error_lt _ _ _ Hc). unfold len in *. lia.
    + rewrite skipn_O. apply firstn_all.
  - destruct (chunk_loop_enough self text (length text) 0 []) as [r Hr].
    { unfold len. lia. }
    rewrite Hr.
    destruct (chunk_loop_covers self text Hsize Hover _ _ _ _ (Z.le_refl 0) Hr) as [_ Hcov].
    apply (Hcov i c); auto. lia.
Qed.

Lemma chunk_text_covers_witness :
  0 < TextChunker.chunk_size small_chunker
  /\ 0 <= TextChunker.overlap small_chunker
  /\ covered (lit "karma yoga, dharma.")
       (TextChunker.chunk_text small_chunker (lit "karma yoga, dharma.")) 12.
Proof.
  split; [reflexivity|]. split; [discriminate|].
  apply (chunk_text_covers small_chunker (lit "karma yoga, dharma.") 12 100%N);
    [reflexivity | discriminate | reflexivity | reflexivity].
Defined.

(** C1 fails on whitespace: a text of 400 spaces yields no chunk at all, so
    its characters appear in none. *)
Lemma chunk_text_covers_counterexample :
  let text := repeat 32%N 400 in
  In 32%N text
  /\ TextChunker.chunk_text TextChunker.default text = []
  /\ ~ (exists chunk, In chunk (TextChunker.chunk_text TextChunker.default text)
                      /\ In 32%N chunk).
Proof.
  assert (H : TextChunker.chunk_text TextChunker.default (repeat 32%N 400) = [])
    by (vm_compute; reflexivity).
  cbv zeta. split; [now left|]. split; [exact H|].
  rewrite H. intros [chunk [[] _]].
Qed.

(** A negative [overlap] leaves gaps between the windows: coverage needs
    an overlap that is not negative. *)
Example chunk_text_negative_overlap :
  TextChunker.chunk_text {| TextChunker.chunk_size := 3; TextChunker.overlap := -2 |}
    (lit "abcdefgh") = [lit "abc"; lit "fgh"].
Proof. reflexivity. Qed.

(** ** The hash-based embedding *)

Example md5_empty :
  hashlib.md5_hexdigest [] = lit "d41d8cd98f00b204e9800998ecf8427e".
Proof. vm_compute. reflexivity. Qed.

Example md5_two_blocks :
  bind (encode (repeat 97%N 70)) (fun data => Ok (hashlib.md5_hexdigest data))
  = Ok (lit "0f5c6c4e740bfcc08c3c26ccb2673d46").
Proof. vm_compute. reflexivity. Qed.

Example md5_devanagari :
  bind (encode [2343; 2352; 2381; 2350]%N) (fun data => Ok (hashlib.md5_hexdigest data))
  = Ok (lit "d8f161aa771187657a3440720d32ae36").
Proof. vm_compute. reflexivity. Qed.

Lemma le_bytes_4 (x : Z) :
  exists b0 b1 b2 b3,
    hashlib.le_bytes 4 x = [b0; b1; b2; b3]
    /\ is_byte b0 /\ is_byte b1 /\ is_byte b2 /\ is_byte b3.
Proof.
  unfold hashlib.le_bytes, is_byte. simpl.
  do 4 eexists. split; [reflexivity|].
  repeat split; apply Z.mod_pos_bound; lia.
Qed.

Lemma md5_digest_shape (data : hashlib.bytes) :
  Forall is_byte (hashlib.md5_digest data) /\ length (hashlib.md5_digest data) = 16%nat.
Proof.
  unfold hashlib.md5_digest.
  destruct (fold_left hashlib.compress _ _) as [[[a b] c] d].
  destruct (le_bytes_4 a) as (a0 & a1 & a2 & a3 & -> & ? & ? & ? & ?).
  destruct (le_bytes_4 b) as (b0 & b1 & b2 & b3 & -> & ? & ? & ? & ?).
  destruct (le_bytes_4 c) as (c0 & c1 & c2 & c3 & -> & ? & ? & ? & ?).
  destruct (le_bytes_4 d) as (d0 & d1 & d2 & d3 & -> & ? & ? & ? & ?).
  split; [|reflexivity]. simpl.
  repeat (constructor; [assumption|]). constructor.
Qed.

Lemma hex_value_hexdigit (d : Z) :
  0 <= d < 16 -> hex_value (hashlib.hexdigit d) = Some d.
Proof.
  intros Hd. unfold hex_value, hashlib.hexdigit.
  destruct (Z.ltb_spec d 10).
  - rewrite Z2N.id by lia.
    destruct (Z.leb_spec 48 (48 + d)); [|lia].
    destruct (Z.leb_spec (48 + d) 57); [|lia]. simpl. f_equal. lia.
  - rewrite Z2N.id by lia.
    destruct (Z.leb_spec 48 (87 + d)); [|lia].
    destruct (Z.leb_spec (87 + d) 57); [lia|]. simpl.
    destruct (Z.leb_spec 97 (87 + d)); [|lia].
    destruct (Z.leb_spec (87 + d) 102); [|lia]. simpl. f_equal. lia.
Qed.

(** Reading back the two digits of a byte gives the byte. *)
Lemma int16_hexdigits (b : Z) :
  is_byte b -> int16 [hashlib.hexdigit (b / 16); hashlib.hexdigit (b mod 16)] = Ok b.
Proof.
  intros Hb. unfold is_byte in Hb. unfold int16. simpl.
  rewrite hex_value_hexdigit by (split; [apply Z.div_pos | apply Z.div_lt_upper_bound]; lia).
  simpl. rewrite hex_value_hexdigit by (apply Z.mod_pos_bound; lia).
  f_equal. pose proof (Z.div_mod b 16). lia.
Qed.

(** The [for] loop over the digest: one component per byte. *)
Lemma hash_components_digest (data : hashlib.bytes) :
  APIClient.hash_components (hashlib.md5_hexdigest data)
  = Ok (List.map (fun b => f64.div (f64.of_Z b) (f64.of_Z 255)) (hashlib.md5_digest data)).
Proof.
  unfold hashlib.md5_hexdigest.
  destruct (md5_digest_shape data) as [Hbytes Hlen].
  destruct (hashlib.md5_digest data) as [|b0 [|b1 [|b2 [|b3 [|b4 [|b5 [|b6 [|b7
    [|b8 [|b9 [|b10 [|b11 [|b12 [|b13 [|b14 [|b15 [|]]]]]]]]]]]]]]]]];
    try discriminate Hlen.
  repeat match goal with
         | H : Forall _ (_ :: _) |- _ => inversion H; clear H; subst
         end.
  unfold APIClient.hash_components.
  change (range_step _ 2) with
    [0; 2; 4; 6; 8; 10; 12; 14; 16; 18; 20; 22; 24; 26; 28; 30].
  cbn [fold_left flat_map app].
  repeat match goal with
         | |- context [py_slice ?l ?i ?j] =>
             let s := eval cbv [py_slice adjust_index len length firstn skipn
                                Z.of_nat Z.to_nat Z.ltb Z.compare Z.min Z.max Z.sub Z.add Z.opp
                                Z.pos_sub Z.succ_double Z.pred_double Z.double
                                Pos.compare Pos.compare_cont Pos.of_succ_nat Pos.succ
                                Pos.to_nat Pos.iter_op Pos.add Pos.pred_double Nat.add]
                      in (py_slice l i j) in
             change (py_slice l i j) with s
         end.
  repeat (rewrite int16_hexdigits by assumption; cbn [bind app]).
  reflexivity.
Qed.

Lemma pad_loop_fills :
  forall fuel (embedding : list float),
    (0 < length embedding)%nat ->
    (1024 - length embedding <= fuel)%nat ->
    exists padded,
      APIClient.pad_loop fuel embedding = Some padded /\ (1024 <= length padded)%nat.
Proof.
  induction fuel as [|fuel IH]; intros embedding Hpos Hfuel; simpl.
  - destruct (Z.ltb_spec (len embedding) 1024); unfold len in *; [lia|].
    exists embedding. split; [reflexivity | lia].
  - destruct (Z.ltb_spec (len embedding) 1024) as [Hlt|Hge]; unfold len in *.
    2:{ exists embedding. split; [reflexivity | lia]. }
    apply IH; rewrite length_app, py_slice_window by lia;
      rewrite length_firstn, skipn_O; lia.
Qed.

Lemma py_slice_head_length {A : Type} (l : list A) (n : nat) :
  (n <= length l)%nat -> length (py_slice l 0 (Z.of_nat n)) = n.
Proof.
  intros Hn. rewrite py_slice_window by lia.
  rewrite length_firstn, skipn_O. lia.
Qed.

(** The fallback path never loops, and its only exception is the one of
    [text.encode()]. *)
Lemma hash_embedding_cases (text : str) :
  match APIClient._get_embedding_openrouter text with
  | Ok embedding => length embedding = 1024%nat
  | Raise e => encode text = Raise e
  | Diverge => False
  end.
Proof.
  unfold APIClient._get_embedding_openrouter.
  destruct (encode text) as [data|e|] eqn:Henc; cbn [bind]; [|reflexivity|].
  - rewrite hash_components_digest. cbn [bind].
    destruct (md5_digest_shape data) as [_ Hlen].
    destruct (pad_loop_fills 1024
                (List.map (fun b => f64.div (f64.of_Z b) (f64.of_Z 255))
                   (hashlib.md5_digest data))) as [padded [-> Hpad]];
      try (rewrite length_map, Hlen; lia).
    now apply (py_slice_head_length padded 1024).
  - clear -Henc. induction text as [|c text IH]; cbn [encode] in Henc; [discriminate|].
    destruct (utf8_char c); [|discriminate].
    destruct (encode text); cbn [bind] in Henc; try discriminate. now apply IH.
Qed.

Lemma encode_total (text : str) :
  Forall (fun c => utf8_char c <> None) text -> exists data, encode text = Ok data.
Proof.
  induction 1 as [|c text Hc _ [data IH]]; simpl; [eauto|].
  destruct (utf8_char c); [|congruence]. rewrite IH. simpl. eauto.
Qed.

(** Every code point outside the surrogate range can be encoded. *)
Lemma utf8_char_scalar (c : N) :
  (c < 55296 \/ 57343 < c < 1114112)%N -> utf8_char c <> None.
Proof.
  intros Hc. unfold utf8_char.
  repeat match goal with
         | |- context [?a <? ?b] => destruct (Z.ltb_spec a b)
         | |- context [?a <=? ?b] => destruct (Z.leb_spec a b)
         end; simpl; try discriminate; lia.
Qed.

(** C9. On the hash-based path ([use_api=False]) every embedding returned by
    [get_embedding] has exactly 1024 components; the call never loops, and it
    returns for every text that [encode] accepts, that is, every text without
    surrogate code points. *)
Theorem get_embedding_hash_length `{APIClient.Services} (text : str) (max_retries : Z) :
  (forall embedding,
      APIClient.get_embedding text false max_retries = Ok embedding ->
      length embedding = 1024%nat)
  /\ APIClient.get_embedding text false max_retries <> Diverge
  /\ (Forall (fun c => (c < 55296 \/ 57343 < c < 1114112)%N) text ->
      exists embedding,
        APIClient.get_embedding text false max_retries = Ok embedding
        /\ length embedding = 1024%nat).
Proof.
  unfold APIClient.get_embedding. cbn [negb].
  pose proof (hash_embedding_cases text) as Hcases.
  split; [|split].
  - intros embedding Heq. rewrite Heq in Hcases. exact Hcases.
  - intros Heq. rewrite Heq in Hcases. exact Hcases.
  - intros Htext.
    destruct (encode_total text) as [data Hdata].
    { eapply List.Forall_impl; [|exact Htext]. intros c. apply utf8_char_scalar. }
    destruct (APIClient._get_embedding_openrouter text) as [embedding|e|].
    + exists embedding. split; [reflexivity | exact Hcases].
    + rewrite Hdata in Hcases. discriminate Hcases.
    + destruct Hcases.
Qed.

Lemma get_embedding_hash_length_witness :
  exists embedding,
    @APIClient.get_embedding offline (lit "what is dharma") false 3 = Ok embedding
    /\ length embedding = 1024%nat.
Proof.
  destruct (@get_embedding_hash_length offline (lit "what is dharma") 3)
    as (_ & _ & Hreturns).
  apply Hreturns.
  repeat (constructor; [left; reflexivity|]). constructor.
Defined.

(** ** The relevance gate *)

Lemma starts_with_spec (k s : str) :
  starts_with k s = true <-> exists post, s = k ++ post.
Proof.
  revert s. induction k as [|a k IH]; intros s; simpl.
  - split; eauto.
  - destruct s as [|b s]; [split; [discriminate | intros [post Hs]; discriminate]|].
    rewrite andb_true_iff, N.eqb_eq, IH. split.
    + intros [-> [post ->]]. eauto.
    + intros [post Hs]. injection Hs as -> ->. eauto.
Qed.

Lemma contains_spec (k s : str) :
  contains k s = true <-> exists pre post, s = pre ++ k ++ post.
Proof.
  induction s as [|b s IH].
  - simpl. rewrite orb_false_r, starts_with_spec. split.
    + intros [post Hs]. exists [], post. exact Hs.
    + intros [pre [post Hs]]. destruct pre; [eauto|discriminate].
  - cbn [contains]. rewrite orb_true_iff, starts_with_spec, IH. split.
    + intros [[post Hs] | [pre [post Hs]]].
      * exists [], post. exact Hs.
      * exists (b :: pre), post. simpl. congruence.
    + intros [[|b' pre] [post Hs]].
      * left. eauto.
      * right. injection Hs as -> ->. eauto.
Qed.

Lemma lower_from_lowercase `{Unicode} (k post before : str) :
  lowercase_ascii k = true ->
  lower_from before (k ++ post) = k ++ lower_from (before ++ k) post.
Proof.
  revert before. induction k as [|c k IH]; intros before Hk; simpl in *.
  - now rewrite app_nil_r.
  - apply andb_true_iff in Hk as [Hc Hk]. apply andb_true_iff in Hc as [Hascii Hfix].
    rewrite Hascii. apply N.eqb_eq in Hfix. simpl.
    rewrite Hfix, IH, <- app_assoc by assumption. reflexivity.
Qed.

(** Lowering the text around an occurrence of such a string leaves the
    occurrence in place. *)
Lemma lower_from_keeps `{Unicode} (k pre post before : str) :
  lowercase_ascii k = true ->
  exists x y, lower_from before (pre ++ k ++ post) = x ++ k ++ y.
Proof.
  intros Hk. revert before. induction pre as [|c pre IH]; intros before.
  - exists [], (lower_from (before ++ k) post). cbn [app].
    now apply lower_from_lowercase.
  - destruct (IH (before ++ [c])) as [x [y Hxy]]. cbn [app lower_from].
    rewrite Hxy.
    exists ((if (c <? 128)%N then [ascii_lower c]
             else unicode_lower before c (pre ++ k ++ post)) ++ x), y.
    now rewrite <- app_assoc.
Qed.

Lemma contains_lower `{Unicode} (k s : str) :
  lowercase_ascii k = true -> contains k s = true -> contains k (lower s) = true.
Proof.
  intros Hk Hin. apply contains_spec in Hin as [pre [post ->]].
  apply contains_spec. unfold lower. now apply lower_from_keeps.
Qed.

Lemma modern_keywords_lowercase :
  forallb lowercase_ascii RAGService.modern_keywords = true.
Proof. vm_compute. reflexivity. Qed.

Lemma gate_rejects `{Unicode} (question keyword : str) :
  In keyword RAGService.modern_keywords ->
  contains keyword question = true \/ contains keyword (lower question) = true ->
  RAGService._is_hindu_text_related question = false.
Proof.
  intros Hkw Hin. unfold RAGService._is_hindu_text_related.
  assert (Hlow : contains keyword (lower question) = true).
  { destruct Hin as [Hin|]; [|assumption]. apply contains_lower; [|assumption].
    pose proof modern_keywords_lowercase as Hall.
    rewrite forallb_forall in Hall. now apply Hall. }
  assert (Hany : RAGService.any_in RAGService.modern_keywords (lower question) = true).
  { unfold RAGService.any_in. apply existsb_exists. eauto. }
  now rewrite Hany.
Qed.

(** C6. A question that contains one of the off-topic keywords, as written
    or in any capitalisation, gets the canned off-topic answer with
    confidence 0.0, whatever the backend holds and whatever else the question
    contains. *)
Theorem off_topic_short_circuits `{Unicode} `{APIClient.Services} `{qdrant.Service}
    (self : RAGService.t) (question keyword : str) (source_filter : option str) :
  In keyword RAGService.modern_keywords ->
  contains keyword question = true \/ contains keyword (lower question) = true ->
  RAGService.search_and_answer self question source_filter
  = Ok {| RAGService.answer := RAGService.off_topic_message;
          RAGService.confidence := S754_zero false;
          RAGService.context_used := None;
          RAGService.error := None |}.
Proof.
  intros Hkw Hin. unfold RAGService.search_and_answer.
  now rewrite (gate_rejects question keyword Hkw Hin).
Qed.

Lemma off_topic_short_circuits_witness :
  In (lit "cricket") RAGService.modern_keywords
  /\ contains (lit "cricket") (lit "Does Krishna play cricket?") = true
  /\ @RAGService.search_and_answer caseless offline silent
       (RAGService.new unavailable opposite_store)
       (lit "Does Krishna play cricket?") None
     = Ok {| RAGService.answer := RAGService.off_topic_message;
             RAGService.confidence := S754_zero false;
             RAGService.context_used := None;
             RAGService.error := None |}.
Proof.
  assert (Hkw : In (lit "cricket") RAGService.modern_keywords)
    by (do 8 right; left; reflexivity).
  assert (Hin : contains (lit "cricket") (lit "Does Krishna play cricket?") = true)
    by (vm_compute; reflexivity).
  split; [exact Hkw|]. split; [exact Hin|].
  apply (@off_topic_short_circuits caseless offline silent
           (RAGService.new unavailable opposite_store)
           (lit "Does Krishna play cricket?") (lit "cricket") None Hkw).
  left. exact Hin.
Defined.

(** ** Bounds on sums and quotients of floats *)

Lemma pow2_succ (k : Z) : 0 <= k -> 2 ^ (k + 1) = 2 * 2 ^ k.
Proof. intros. rewrite Z.pow_add_r by lia. lia. Qed.

Lemma shr_1_within (V e : Z) (x : shr_record) :
  0 <= shr_m x -> e + 1 <= 0 ->
  shr_m x + residue x <= V * 2 ^ (- e) ->
  0 <= shr_m (shr_1 x) /\ shr_m (shr_1 x) + residue (shr_1 x) <= V * 2 ^ (- (e + 1)).
Proof.
  intros Hm He Hle.
  replace (- e) with (- (e + 1) + 1) in Hle by lia.
  rewrite pow2_succ in Hle by lia.
  set (W := V * 2 ^ (- (e + 1))) in *.
  assert (HW : shr_m x + residue x <= 2 * W) by lia. clear Hle.
  destruct x as [m r s]. unfold residue in *. cbn [shr_m shr_r shr_s] in *.
  destruct m as [|[p|p|]|p]; cbn [shr_1 shr_m shr_r shr_s orb]; try lia;
    destruct r, s; cbn [orb] in *; lia.
Qed.

Lemma iter_shr_1_within (V : Z) (p : positive) :
  forall (e : Z) (x : shr_record),
    0 <= shr_m x -> e + Zpos p <= 0 ->
    shr_m x + residue x <= V * 2 ^ (- e) ->
    0 <= shr_m (SpecFloat.iter_pos shr_1 p x)
    /\ shr_m (SpecFloat.iter_pos shr_1 p x) + residue (SpecFloat.iter_pos shr_1 p x)
       <= V * 2 ^ (- (e + Zpos p)).
Proof.
  induction p as [p IH|p IH|]; intros e x Hm He Hle; cbn [SpecFloat.iter_pos].
  - destruct (shr_1_within V e x Hm ltac:(lia) Hle) as [Hm1 Hle1].
    destruct (IH (e + 1) _ Hm1 ltac:(lia) Hle1) as [Hm2 Hle2].
    destruct (IH (e + 1 + Zpos p) _ Hm2 ltac:(lia) Hle2) as [Hm3 Hle3].
    split; [exact Hm3|]. replace (e + Zpos p~1) with (e + 1 + Zpos p + Zpos p) by lia.
    exact Hle3.
  - destruct (IH e _ Hm ltac:(lia) Hle) as [Hm2 Hle2].
    destruct (IH (e + Zpos p) _ Hm2 ltac:(lia) Hle2) as [Hm3 Hle3].
    split; [exact Hm3|]. replace (e + Zpos p~0) with (e + Zpos p + Zpos p) by lia.
    exact Hle3.
  - now apply shr_1_within.
Qed.

Lemma residue_of_loc (m : Z) (l : location) :
  shr_m (shr_record_of_loc m l) = m /\ residue (shr_record_of_loc m l) = slack l.
Proof. destruct l as [|[| |]]; split; reflexivity. Qed.

Lemma digits2_pos_lower (p : positive) : 2 ^ (Zpos (digits2_pos p) - 1) <= Zpos p.
Proof.
  induction p as [p IH|p IH|]; cbn [digits2_pos]; [| |simpl; lia];
    rewrite Pos2Z.inj_succ;
    replace (Z.succ (Zpos (digits2_pos p)) - 1) with (Zpos (digits2_pos p) - 1 + 1) by lia;
    rewrite pow2_succ by lia; lia.
Qed.

Lemma Zdigits2_le (m k : Z) : 0 <= m -> 0 <= k -> m < 2 ^ k -> Zdigits2 m <= k.
Proof.
  intros Hm Hk Hlt. destruct m as [|p|p]; cbn [Zdigits2]; try lia.
  pose proof (digits2_pos_lower p) as Hlow.
  destruct (Z_le_gt_dec (Zpos (digits2_pos p)) k) as [|Hgt]; [assumption|exfalso].
  assert (2 ^ k <= 2 ^ (Zpos (digits2_pos p) - 1)) by (apply Z.pow_le_mono_r; lia).
  lia.
Qed.

Lemma fexp_nonpos (k : Z) : k <= 53 -> fexp f64.prec f64.emax k <= 0.
Proof. unfold fexp, emin, f64.prec, f64.emax. lia. Qed.

Lemma shr_fexp_within (V m e : Z) (l : location) :
  0 <= V <= 2 ^ 52 -> 0 <= m -> e <= 0 ->
  m + slack l <= V * 2 ^ (- e) ->
  let '(x, e') := shr_fexp f64.prec f64.emax m e l in
  0 <= shr_m x /\ e' <= 0 /\ shr_m x + residue x <= V * 2 ^ (- e').
Proof.
  intros HV Hm He Hle. unfold shr_fexp, shr.
  destruct (residue_of_loc m l) as [Hrm Hrr].
  assert (Hdig : Zdigits2 m + e <= 53).
  { assert (Zdigits2 m <= 53 - e); [|lia]. apply Zdigits2_le; try lia.
    assert (V * 2 ^ (- e) <= 2 ^ 52 * 2 ^ (- e))
      by (apply Z.mul_le_mono_nonneg_r; [apply Z.pow_nonneg|]; lia).
    replace (53 - e) with (- e + 52 + 1) by lia.
    rewrite pow2_succ, Z.pow_add_r by lia.
    assert (0 < 2 ^ (- e)) by (apply Z.pow_pos_nonneg; lia).
    destruct l; cbn [slack] in Hle; nia. }
  pose proof (fexp_nonpos _ Hdig) as Hfexp.
  destruct (fexp f64.prec f64.emax (Zdigits2 m + e) - e) as [|p|p] eqn:Hn.
  - rewrite Hrm, Hrr. repeat split; assumption.
  - destruct (iter_shr_1_within V p e (shr_record_of_loc m l)) as [H1 H2];
      rewrite ?Hrm, ?Hrr; try assumption; lia.
  - rewrite Hrm, Hrr. repeat split; assumption.
Qed.

Lemma round_nearest_even_le (x : shr_record) :
  0 <= shr_m x ->
  0 <= round_nearest_even (shr_m x) (loc_of_shr_record x)
       <= shr_m x + residue x.
Proof.
  intros Hm. destruct x as [m [|] [|]]; unfold residue; cbn [shr_m] in Hm;
    cbn [loc_of_shr_record round_nearest_even shr_m shr_r shr_s orb];
    try destruct (Z.even m); lia.
Qed.

(** Rounding does not go above an integer bound, nor within zero. *)
Lemma binary_round_aux_within (V m e : Z) (l : location) :
  0 <= V <= 2 ^ 52 -> 0 <= m -> e <= 0 ->
  m + slack l <= V * 2 ^ (- e) ->
  within V (binary_round_aux f64.prec f64.emax false m e l).
Proof.
  intros HV Hm He Hle. unfold binary_round_aux.
  pose proof (shr_fexp_within V m e l HV Hm He Hle) as H1.
  destruct (shr_fexp f64.prec f64.emax m e l) as [x e'].
  destruct H1 as (Hx & He' & Hxle).
  pose proof (round_nearest_even_le x Hx) as Hr.
  set (m2 := round_nearest_even (shr_m x) (loc_of_shr_record x)) in *.
  pose proof (shr_fexp_within V m2 e' loc_Exact HV ltac:(lia) He' ltac:(cbn [slack]; lia)) as H2.
  destruct (shr_fexp f64.prec f64.emax m2 e' loc_Exact) as [y e''].
  destruct H2 as (Hy & He'' & Hyle).
  assert (0 <= residue y) by (unfold residue; destruct (_ || _); lia).
  destruct (shr_m y) as [|p|p] eqn:Hmy; cbn [within]; [exact I| |lia].
  unfold f64.emax, f64.prec. destruct (Z.leb_spec e'' (1024 - 53)); [|lia].
  cbn [within]. split; [assumption | lia].
Qed.

Lemma iter_xO (d m : positive) : Zpos (Pos.iter xO m d) = Zpos m * 2 ^ Zpos d.
Proof.
  induction d as [|d IH] using Pos.peano_ind.
  - cbn [Pos.iter]. lia.
  - rewrite Pos.iter_succ, Pos2Z.inj_xO, IH, Pos2Z.inj_succ, Z.pow_succ_r by lia. lia.
Qed.

(** Alignment to a smaller exponent keeps the value. *)
Lemma shl_align_spec (m : positive) (e e' : Z) :
  snd (shl_align m e e') = Z.min e e'
  /\ Zpos (fst (shl_align m e e')) = Zpos m * 2 ^ (e - Z.min e e').
Proof.
  unfold shl_align. destruct (e' - e) as [|d|d] eqn:Hd; cbn [fst snd].
  - rewrite Z.min_l by lia. now rewrite Z.sub_diag, Z.mul_1_r.
  - rewrite Z.min_l by lia. now rewrite Z.sub_diag, Z.mul_1_r.
  - rewrite Z.min_r by lia. split; [reflexivity|].
    rewrite iter_xO. f_equal. f_equal. lia.
Qed.

Lemma within_scale (V m e e' : Z) :
  e' <= e -> e <= 0 -> m <= V * 2 ^ (- e) -> m * 2 ^ (e - e') <= V * 2 ^ (- e').
Proof.
  intros He' He Hle. replace (- e') with (- e + (e - e')) by lia.
  rewrite Z.pow_add_r by lia.
  assert (0 <= 2 ^ (e - e')) by (apply Z.pow_nonneg; lia). nia.
Qed.

Lemma binary_round_within (V : Z) (m : positive) (e : Z) :
  0 <= V <= 2 ^ 52 -> e <= 0 -> Zpos m <= V * 2 ^ (- e) ->
  within V (binary_round f64.prec f64.emax false m e).
Proof.
  intros HV He Hle. unfold binary_round.
  destruct (shl_align_spec m e (fexp f64.prec f64.emax (Zpos (digits2_pos m) + e)))
    as [Hexp Hman].
  destruct (shl_align m e _) as [mz ez]. cbn [fst snd] in *.
  apply binary_round_aux_within; try lia.
  cbn [slack]. rewrite Z.add_0_r, Hman, Hexp. apply within_scale; lia.
Qed.

Lemma within_weaken (V V' : Z) (x : float) : V <= V' -> within V x -> within V' x.
Proof.
  intros HV. destruct x as [| | |[|] m e]; cbn [within]; try tauto.
  intros [He Hle]. split; [assumption|].
  assert (0 <= 2 ^ (- e)) by (apply Z.pow_nonneg; lia). nia.
Qed.

(** The sum of two floats within [0, Vx] and [0, Vy] is within [0, Vx + Vy]. *)
Lemma add_within (Vx Vy : Z) (x y : float) :
  0 <= Vx -> 0 <= Vy -> Vx + Vy <= 2 ^ 52 ->
  within Vx x -> within Vy y -> within (Vx + Vy) (f64.add x y).
Proof.
  intros HVx HVy HV Hx Hy. unfold f64.add.
  destruct x as [sx| | |[|] mx ex], y as [sy| | |[|] my ey];
    cbn [within] in Hx, Hy; try contradiction.
  - destruct sx, sy; exact I.
  - cbn [SFadd]. apply (within_weaken Vy); [lia | exact Hy].
  - cbn [SFadd]. apply (within_weaken Vx); [lia | exact Hx].
  - destruct Hx as [Hex Hmx], Hy as [Hey Hmy]. cbn [SFadd cond_Zopp].
    destruct (shl_align_spec mx ex (Z.min ex ey)) as [_ Hx'].
    destruct (shl_align_spec my ey (Z.min ex ey)) as [_ Hy'].
    rewrite (Z.min_r ex (Z.min ex ey)) in Hx' by lia.
    rewrite (Z.min_r ey (Z.min ex ey)) in Hy' by lia.
    set (ez := Z.min ex ey) in *.
    pose proof (within_scale Vx (Zpos mx) ex ez ltac:(lia) Hex Hmx).
    pose proof (within_scale Vy (Zpos my) ey ez ltac:(lia) Hey Hmy).
    destruct (Zpos (fst (shl_align mx ex ez)) + Zpos (fst (shl_align my ey ez)))
      as [|m|m] eqn:Hsum; try lia.
    cbn [binary_normalize]. apply binary_round_within; lia.
Qed.

(** Python's [sum] of at most [2 ^ 52 - k] floats of [0, 1], started in
    [0, k]. *)
Lemma sum_within (xs : list float) :
  forall (k : Z) (acc : float),
    0 <= k -> k + len xs <= 2 ^ 52 ->
    within k acc -> Forall (within 1) xs ->
    within (k + len xs) (fold_left f64.add xs acc).
Proof.
  induction xs as [|x xs IH]; intros k acc Hk Hlen Hacc Hxs; cbn [fold_left].
  - unfold len. simpl. now rewrite Z.add_0_r.
  - inversion Hxs as [|? ? Hx Hrest]; subst.
    assert (Hl : len (x :: xs) = 1 + len xs) by (unfold len; cbn [length]; lia).
    rewrite Hl in *. replace (k + (1 + len xs)) with (k + 1 + len xs) by lia.
    pose proof (len_nonneg xs).
    apply IH; try lia; [|assumption].
    apply add_within; try lia; assumption.
Qed.

(** A float within [0, V] is not below 0.0 in the order of the floats. *)
Lemma within_nonnegative (V : Z) (x : float) :
  within V x -> SFleb (S754_zero false) x = true /\ is_finite x = true.
Proof. destruct x as [| | |[|] m e]; cbn [within]; try tauto; now split. Qed.

Lemma slack_new_location (m r : Z) :
  slack (new_location m r) = if r =? 0 then 0 else 1.
Proof.
  unfold new_location, new_location_even, new_location_odd.
  destruct (Z.even m), (r =? 0); reflexivity.
Qed.

(** A float within [0, n] divided by the float [n] is within [0, 1]. *)
Lemma div_within (n : Z) (x : float) (my : positive) (ey : Z) :
  1 <= n <= 2 ^ 52 -> ey <= 0 -> Zpos my = n * 2 ^ (- ey) ->
  0 <= Zpos (digits2_pos my) + ey ->
  within n x ->
  within 1 (f64.div x (S754_finite false my ey)).
Proof.
  intros Hn Hey Hmy Hdy Hx. unfold f64.div.
  destruct x as [sx| | |[|] mx ex]; cbn [within] in Hx; try contradiction.
  { destruct sx; exact I. }
  destruct Hx as [Hex Hmx]. cbn [SFdiv xorb]. unfold SFdiv_core_binary.
  cbn [Zdigits2].
  set (e' := Z.min (fexp f64.prec f64.emax
                      (Zpos (digits2_pos mx) + ex - (Zpos (digits2_pos my) + ey)))
                   (ex - ey)).
  set (s := ex - ey - e').
  assert (Hdx : Zpos (digits2_pos mx) + ex <= 53).
  { assert (Zdigits2 (Zpos mx) <= 53 - ex) as Hd; [|cbn [Zdigits2] in Hd; lia].
    apply Zdigits2_le; try lia.
    assert (n * 2 ^ (- ex) <= 2 ^ 52 * 2 ^ (- ex))
      by (apply Z.mul_le_mono_nonneg_r; [apply Z.pow_nonneg|]; lia).
    replace (53 - ex) with (- ex + 52 + 1) by lia.
    rewrite pow2_succ, Z.pow_add_r by lia.
    assert (0 < 2 ^ (- ex)) by (apply Z.pow_pos_nonneg; lia). nia. }
  assert (He' : e' <= 0).
  { pose proof (fexp_nonpos (Zpos (digits2_pos mx) + ex - (Zpos (digits2_pos my) + ey))
                  ltac:(lia)). subst e'. lia. }
  assert (Hs : 0 <= s) by (subst s e'; lia).
  set (m' := match s with
             | 0 => Zpos mx
             | Zpos _ => Z.shiftl (Zpos mx) s
             | Zneg _ => 0
             end).
  assert (Hm' : m' = Zpos mx * 2 ^ s).
  { subst m'. destruct s as [|p|p] eqn:Hp; [lia | |lia].
    apply Z.shiftl_mul_pow2. lia. }
  assert (Hbound : m' <= Zpos my * 2 ^ (- e')).
  { rewrite Hm', Hmy, <- Z.mul_assoc, <- Z.pow_add_r by lia.
    replace (- ey + - e') with (- ex + s) by (subst s; lia).
    rewrite Z.pow_add_r by lia.
    assert (0 <= 2 ^ s) by (apply Z.pow_nonneg; lia). nia. }
  pose proof (Z_div_mod m' (Zpos my) ltac:(lia)) as Hdm.
  destruct (Z.div_eucl m' (Zpos my)) as [q r]. destruct Hdm as [Hdm Hr].
  assert (0 <= m') by (rewrite Hm'; apply Z.mul_nonneg_nonneg; [|apply Z.pow_nonneg]; lia).
  assert (0 < 2 ^ (- e')) by (apply Z.pow_pos_nonneg; lia).
  apply binary_round_aux_within; try lia.
  - nia.
  - rewrite slack_new_location, Z.mul_1_l. destruct (Z.eqb_spec r 0); nia.
Qed.

Ltac by_computation :=
  first [ lia | vm_compute; discriminate | split; vm_compute; discriminate ].

Lemma average_within (scores : list float) :
  scores <> [] -> (length scores <= 5)%nat ->
  Forall (within 1) scores ->
  within 1 (f64.div (fold_left f64.add scores (S754_zero false)) (f64.of_Z (len scores))).
Proof.
  intros Hne Hlen Hall.
  pose proof (sum_within scores 0 (S754_zero false)) as Hsum.
  rewrite Z.add_0_l in Hsum.
  assert (Hs : within (len scores) (fold_left f64.add scores (S754_zero false))).
  { apply Hsum; try lia; [unfold len; lia | exact I | assumption]. }
  clear Hsum.
  assert (Hcases : len scores = 1 \/ len scores = 2 \/ len scores = 3
                   \/ len scores = 4 \/ len scores = 5).
  { destruct scores; [congruence|]. unfold len in *. cbn [length] in *. lia. }
  destruct Hcases as [H|[H|[H|[H|H]]]]; rewrite H in *.
  - change (f64.of_Z 1) with (S754_finite false 4503599627370496 (-52)).
    apply (div_within 1); first [assumption | reflexivity | by_computation].
  - change (f64.of_Z 2) with (S754_finite false 4503599627370496 (-51)).
    apply (div_within 2); first [assumption | reflexivity | by_computation].
  - change (f64.of_Z 3) with (S754_finite false 6755399441055744 (-51)).
    apply (div_within 3); first [assumption | reflexivity | by_computation].
  - change (f64.of_Z 4) with (S754_finite false 4503599627370496 (-50)).
    apply (div_within 4); first [assumption | reflexivity | by_computation].
  - change (f64.of_Z 5) with (S754_finite false 5629499534213120 (-50)).
    apply (div_within 5); first [assumption | reflexivity | by_computation].
Qed.

(** ** The confidence of an answer *)

(** C3.  The local backend applies no similarity floor and returns raw inner
    products: with a stored vector that points away from the query, the only
    score, and so the confidence, is negative.  (The managed backend passes
    the floor of 0.65 to its service.) *)
Lemma confidence_counterexample :
  exists a,
    @RAGService.search_and_answer caseless offline silent
      (RAGService.new unavailable opposite_store) (lit "What is dharma?") None = Ok a
    /\ RAGService.context_used a = Some 1
    /\ SFltb (RAGService.confidence a) (S754_zero false) = true
    /\ ~ within 1 (RAGService.confidence a).
Proof.
  eexists. split; [vm_compute; reflexivity|].
  split; [reflexivity|]. split; [reflexivity|]. intros Hin. exact Hin.
Qed.

Lemma py_slice_head {A : Type} (l : list A) (n : nat) :
  py_slice l 0 (Z.of_nat n) = firstn n l.
Proof. rewrite py_slice_window by lia. now rewrite skipn_O, Z.sub_0_r, Nat2Z.id. Qed.

(** The exits of [search_and_answer], one by one.  A question that the gate
    rejects gets the off-topic answer, an exception the failure answer with
    its error, an empty search the no-information answer, each with
    confidence 0.0 and no [context_used].  Otherwise the confidence is the sum
    of the scores of the first five results, or of all of them when there are
    fewer, divided by their number; it lies between 0 and 1 whenever those
    scores do. *)
Theorem search_and_answer_confidence `{Unicode} `{APIClient.Services} `{qdrant.Service}
    (self : RAGService.t) (question : str) (source_filter : option str) :
  exists a,
    RAGService.search_and_answer self question source_filter = Ok a
    /\ (RAGService._is_hindu_text_related question = false ->
        a = RAGService.canned RAGService.off_topic_message)
    /\ (RAGService._is_hindu_text_related question = true ->
        (forall e,
            APIClient.get_embedding (TextNormalizer.normalize_query question) false 3
              = Raise e ->
            a = {| RAGService.answer := RAGService.failure_message;
                   RAGService.confidence := RAGService.zero;
                   RAGService.context_used := None;
                   RAGService.error := Some e |})
        /\ (forall question_embedding,
              APIClient.get_embedding (TextNormalizer.normalize_query question) false 3
                = Ok question_embedding ->
              let results :=
                RAGService.store_search self question_embedding 20 source_filter in
              (results = [] -> a = RAGService.canned RAGService.no_information_message)
              /\ (results <> [] ->
                  RAGService.context_used a
                    = Some (Z.of_nat (Nat.min 5 (length results)))
                  /\ RAGService.error a = None
                  /\ RAGService.confidence a
                     = f64.div
                         (RAGService.sum (List.map QueryResult.score (firstn 5 results)))
                         (f64.of_Z (Z.of_nat (Nat.min 5 (length results))))
                  /\ (Forall (fun r => within 1 (QueryResult.score r))
                        (firstn 5 results) ->
                      within 1 (RAGService.confidence a))))).
Proof.
  unfold RAGService.search_and_answer.
  destruct (RAGService._is_hindu_text_related question); cbn [negb].
  2:{ eexists. split; [reflexivity|]. split; [reflexivity | discriminate]. }
  pose proof (hash_embedding_cases (TextNormalizer.normalize_query question)) as Hloop.
  unfold APIClient.get_embedding. cbn [negb].
  destruct (APIClient._get_embedding_openrouter _) as [question_embedding|e|] eqn:Hemb.
  - destruct (RAGService.store_search self question_embedding 20 source_filter)
      as [|r results] eqn:Hres; cbn [truthy negb].
    + eexists. split; [reflexivity|]. split; [discriminate|]. intros _.
      split; [discriminate|]. intros qe Hqe. injection Hqe as <-. cbv zeta.
      rewrite Hres. split; [reflexivity | congruence].
    + eexists. split; [reflexivity|]. split; [discriminate|]. intros _.
      split; [discriminate|]. intros qe Hqe. injection Hqe as <-. cbv zeta.
      rewrite Hres. split; [discriminate|]. intros _.
      cbn [RAGService.context_used RAGService.confidence RAGService.error].
      unfold RAGService.average_score.
      change 5 with (Z.of_nat 5). rewrite py_slice_head.
      split; [unfold len; now rewrite !length_map, length_firstn|].
      split; [reflexivity|].
      assert (Hlen : len (firstn 5 (r :: results))
                     = Z.of_nat (Nat.min 5 (length (r :: results))))
        by (unfold len; now rewrite length_firstn).
      split; [now rewrite Hlen|].
      intros Hscores. unfold RAGService.sum.
      replace (len (firstn 5 (r :: results)))
        with (len (List.map QueryResult.score (firstn 5 (r :: results))))
        by (unfold len; now rewrite length_map).
      apply average_within.
      * discriminate.
      * rewrite length_map, length_firstn. lia.
      * apply List.Forall_forall. intros s Hs.
        apply in_map_iff in Hs as [r' [<- Hr']].
        rewrite List.Forall_forall in Hscores. now apply Hscores.
  - eexists. split; [reflexivity|]. split; [discriminate|]. intros _.
    split; [|discriminate]. intros e' He'. now injection He' as <-.
  - now destruct Hloop.
Qed.

(** ** The local backend *)

Lemma collect_spec (documents : list Document.t) :
  FaissVectorStore.collect documents
  = (List.map (fun e => FaissVectorStore.normalize (np.array e)) (embeddings_of documents),
     entries_of documents).
Proof.
  induction documents as [|doc rest IH]; [reflexivity|].
  cbn [FaissVectorStore.collect embeddings_of entries_of flat_map].
  fold (embeddings_of rest). fold (entries_of rest). rewrite IH.
  destruct (Document.embedding doc); reflexivity.
Qed.

Lemma entries_of_nil (documents : list Document.t) :
  embeddings_of documents = [] -> entries_of documents = [].
Proof.
  induction documents as [|doc rest IH]; [reflexivity|].
  cbn [embeddings_of entries_of flat_map].
  destruct (Document.embedding doc); [discriminate|]. exact IH.
Qed.

(** [add_documents] either raises and leaves the store as it was, or
    appends the normalized embeddings and the entries and raises nothing. *)
Lemma faiss_add_documents_spec (self : FaissVectorStore.t) (documents : list Document.t) :
  let after := FaissVectorStore.add_documents self documents in
  (exists e, snd after = Some e /\ fst after = self)
  \/ (snd after = None
      /\ FaissVectorStore.embedding_dim (fst after) = FaissVectorStore.embedding_dim self
      /\ faiss.d (FaissVectorStore.index (fst after)) = faiss.d (FaissVectorStore.index self)
      /\ faiss.xb (FaissVectorStore.index (fst after))
         = faiss.xb (FaissVectorStore.index self)
           ++ List.map (fun e => FaissVectorStore.normalize (np.array e))
                (embeddings_of documents)
      /\ FaissVectorStore.metadata (fst after)
         = FaissVectorStore.metadata self ++ entries_of documents).
Proof.
  unfold FaissVectorStore.add_documents. rewrite collect_spec.
  destruct (embeddings_of documents) as [|e es] eqn:Hembs.
  - right. cbn. rewrite entries_of_nil by assumption. now rewrite !app_nil_r.
  - cbn [List.map truthy]. unfold FaissVectorStore.array2d.
    destruct (forallb _ _); cbn [bind]; [|left; eexists; split; reflexivity].
    unfold faiss.add. destruct (forallb _ _).
    + right. cbn. repeat split; reflexivity.
    + left. eexists. split; reflexivity.
Qed.

(** On the local backend [add_documents] is append-only: the vectors and
    entries present before the call are a prefix of those present after. *)
Lemma faiss_add_documents_appends (self : FaissVectorStore.t) (documents : list Document.t) :
  exists rows entries,
    faiss.xb (FaissVectorStore.index (fst (FaissVectorStore.add_documents self documents)))
    = faiss.xb (FaissVectorStore.index self) ++ rows
    /\ FaissVectorStore.metadata (fst (FaissVectorStore.add_documents self documents))
       = FaissVectorStore.metadata self ++ entries.
Proof.
  destruct (faiss_add_documents_spec self documents) as [[e [_ ->]]|(_ & _ & _ & -> & ->)].
  - exists [], []. now rewrite !app_nil_r.
  - eauto.
Qed.

Lemma gather_bounded (self : FaissVectorStore.t) (limit : Z) (source_filter : option str) :
  forall hits results found,
    len results < limit ->
    FaissVectorStore.gather self limit source_filter hits results = Ok found ->
    len found <= limit.
Proof.
  induction hits as [|[score idx] hits IH]; intros results found Hlen Hrun;
    cbn [FaissVectorStore.gather] in Hrun.
  - injection Hrun as <-. lia.
  - destruct (idx <? len (FaissVectorStore.metadata self)); [|eauto].
    destruct (py_index _ idx) as [m|]; [|discriminate].
    destruct (FaissVectorStore.filtered_out source_filter m); [eauto|].
    assert (Hgrow : len (results ++ [QueryResult.make m (f64.of_f32 score)]) = len results + 1).
    { unfold len. rewrite length_app. simpl. lia. }
    destruct (Z.geb_spec (len (results ++ [QueryResult.make m (f64.of_f32 score)])) limit).
    + injection Hrun as <-. lia.
    + eapply IH; [|exact Hrun]. lia.
Qed.

Lemma faiss_search_bounded (self : FaissVectorStore.t) (query_embedding : list float)
    (limit : Z) (source_filter : option str) :
  0 <= limit ->
  len (FaissVectorStore.search self query_embedding limit source_filter) <= limit.
Proof.
  intros Hlimit. unfold FaissVectorStore.search, FaissVectorStore.search_body.
  destruct (_ =? 0); [exact Hlimit|].
  unfold faiss.search.
  destruct (negb (_ =? _)); [exact Hlimit|].
  destruct (Z.gtb_spec (Z.min (limit * 2) (faiss.ntotal (FaissVectorStore.index self))) 0)
    as [Hk|Hk]; cbn [negb bind]; [|exact Hlimit].
  destruct (FaissVectorStore.gather _ _ _ _ _) as [found| |] eqn:Hrun; try exact Hlimit.
  eapply gather_bounded; [|exact Hrun]. unfold len. simpl. lia.
Qed.

Lemma faiss_search_empty (self : FaissVectorStore.t) (query_embedding : list float)
    (limit : Z) (source_filter : option str) :
  faiss.ntotal (FaissVectorStore.index self) = 0 ->
  FaissVectorStore.search self query_embedding limit source_filter = [].
Proof.
  intros Hempty. unfold FaissVectorStore.search, FaissVectorStore.search_body.
  now rewrite Hempty.
Qed.

(** ** The managed backend *)

Lemma build_points_spec (documents : list Document.t) :
  forall i points,
    VectorStore.build_points i documents = Ok points ->
    length points = length documents
    /\ forall j doc,
         nth_error documents j = Some doc ->
         exists p,
           nth_error points j = Some p
           /\ qdrant.id p = i + Z.of_nat j
           /\ Document.embedding doc = Some (qdrant.vector p)
           /\ qdrant.payload p = Entry.of_doc doc.
Proof.
  induction documents as [|doc rest IH]; intros i points Hbuild;
    cbn [VectorStore.build_points] in Hbuild.
  - injection Hbuild as <-. split; [reflexivity|]. intros [|j] d Hd; discriminate.
  - destruct (Document.embedding doc) as [e|] eqn:He; [|discriminate].
    destruct (Document.text doc); [|discriminate].
    destruct (VectorStore.build_points (i + 1) rest) as [ps| |] eqn:Hrest;
      cbn [bind] in Hbuild; try discriminate.
    injection Hbuild as <-. destruct (IH _ _ Hrest) as [Hlen Hnth].
    split; [simpl; congruence|].
    intros [|j] d Hd; cbn [nth_error] in *.
    + injection Hd as <-. eexists. split; [reflexivity|]. cbn.
      repeat split; [lia | assumption].
    + destruct (Hnth j d Hd) as (p & Hp & Hid & Hrest').
      exists p. split; [exact Hp|]. split; [lia | exact Hrest'].
Qed.

(** Points numbered from [i] on, written one after the other: what is
    stored under a number of the range is the point of that number. *)
Lemma fold_put_lookup :
  forall (points : list qdrant.PointStruct) (i : Z) (c : gmap Z qdrant.PointStruct) (k : Z),
    (forall j p, nth_error points j = Some p -> qdrant.id p = i + Z.of_nat j) ->
    fold_left qdrant.put points c !! k
    = if (i <=? k) && (k <? i + len points)
      then nth_error points (Z.to_nat (k - i))
      else c !! k.
Proof.
  induction points as [|p points IH]; intros i c k Hids; cbn [fold_left].
  - unfold len. cbn [length Z.of_nat]. rewrite Z.add_0_r.
    destruct (Z.leb_spec i k), (Z.ltb_spec k i); cbn [andb]; try reflexivity. lia.
  - rewrite (IH (i + 1)).
    2:{ intros j q Hq. rewrite (Hids (S j) q Hq). lia. }
    pose proof (Hids O p eq_refl) as Hp. rewrite Z.add_0_r in Hp.
    unfold len. cbn [length]. unfold qdrant.put. rewrite Hp.
    destruct (Z.leb_spec (i + 1) k), (Z.ltb_spec k (i + 1 + Z.of_nat (length points))),
      (Z.leb_spec i k), (Z.ltb_spec k (i + Z.of_nat (S (length points))));
      cbn [andb]; try lia.
    + replace (Z.to_nat (k - i)) with (S (Z.to_nat (k - (i + 1)))) by lia. reflexivity.
    + rewrite lookup_insert_ne by lia. reflexivity.
    + assert (k = i) as -> by lia. rewrite lookup_insert_eq, Z.sub_diag. reflexivity.
    + rewrite lookup_insert_ne by lia. reflexivity.
Qed.

Lemma upload_error_sticks (points : list qdrant.PointStruct) :
  forall starts c e,
    fold_left (VectorStore.upload_batch points) starts (c, Some e) = (c, Some e).
Proof. induction starts as [|i starts IH]; intros c e; [reflexivity | apply IH]. Qed.

(** When no batch is refused, the batches together write every point once,
    in order. *)
Lemma upload_batches (points : list qdrant.PointStruct) :
  forall m j c c',
    fold_left (VectorStore.upload_batch points)
      (List.map (fun k => Z.of_nat k * VectorStore.batch_size) (seq j m)) (c, None)
    = (c', None) ->
    (length points <= 100 * (j + m))%nat ->
    c' = fold_left qdrant.put (skipn (100 * j) points) c.
Proof.
  induction m as [|m IH]; intros j c c' Hrun Hall; cbn [seq List.map fold_left] in Hrun.
  - injection Hrun as <-. rewrite skipn_all2 by lia. reflexivity.
  - unfold VectorStore.upload_batch at 2 in Hrun. unfold qdrant.upsert in Hrun.
    destruct (forallb _ _).
    2:{ rewrite upload_error_sticks in Hrun. discriminate. }
    apply IH in Hrun; [|lia]. rewrite Hrun.
    unfold VectorStore.batch_size. rewrite py_slice_window by lia.
    replace (Z.to_nat (Z.of_nat j * 100 + 100 - Z.of_nat j * 100)) with 100%nat by lia.
    replace (Z.to_nat (Z.of_nat j * 100)) with (100 * j)%nat by lia.
    rewrite <- (firstn_skipn 100 (skipn (100 * j) points)) at 2.
    rewrite fold_left_app, skipn_skipn. f_equal. f_equal. lia.
Qed.

Lemma build_points_returns (documents : list Document.t) :
  forall i, VectorStore.build_points i documents <> Diverge.
Proof.
  induction documents as [|doc rest IH]; intros i; cbn [VectorStore.build_points];
    [discriminate|].
  destruct (Document.embedding doc); [|discriminate].
  destruct (Document.text doc); [|discriminate].
  specialize (IH (i + 1)).
  destruct (VectorStore.build_points (i + 1) rest); cbn [bind]; congruence.
Qed.

Lemma upload_spec (c : gmap Z qdrant.PointStruct) (points : list qdrant.PointStruct)
    (c' : gmap Z qdrant.PointStruct) :
  VectorStore.upload c points = (c', None) -> c' = fold_left qdrant.put points c.
Proof.
  unfold VectorStore.upload, range_step. intros Hrun.
  apply upload_batches in Hrun; [now rewrite skipn_O in Hrun|].
  unfold VectorStore.batch_size, len.
  pose proof (Z.div_mod (Z.of_nat (length points) + 100 - 1) 100 ltac:(lia)).
  pose proof (Z.mod_pos_bound (Z.of_nat (length points) + 100 - 1) 100 ltac:(lia)).
  lia.
Qed.

(** A successful [add_documents] on an available store writes document
    number [i] of the batch under the id [i], with its payload, whatever was
    stored under that id before. *)
Lemma qdrant_add_documents_stores (self : VectorStore.t) (documents : list Document.t)
    (i : nat) (doc : Document.t) :
  VectorStore.is_available self = true ->
  snd (VectorStore.add_documents self documents) = None ->
  nth_error documents i = Some doc ->
  exists p,
    VectorStore.points (fst (VectorStore.add_documents self documents)) !! Z.of_nat i = Some p
    /\ qdrant.id p = Z.of_nat i
    /\ qdrant.payload p = Entry.of_doc doc.
Proof.
  intros Havail Hok Hdoc. unfold VectorStore.add_documents in *. rewrite Havail in *.
  cbn [negb] in *.
  pose proof (build_points_returns documents 0) as Hret.
  destruct (VectorStore.build_points 0 documents) as [points| |] eqn:Hbuild;
    cbn [snd fst] in *; try discriminate; [|congruence].
  destruct (VectorStore.upload (VectorStore.points self) points) as [c err] eqn:Hup.
  cbn [snd fst VectorStore.points] in *. subst err.
  apply upload_spec in Hup. subst c.
  destruct (build_points_spec documents 0 points Hbuild) as [Hlen Hnth].
  destruct (Hnth i doc Hdoc) as (p & Hp & Hid & Hemb & Hpay).
  exists p. split; [|split; [lia | assumption]].
  rewrite (fold_put_lookup points 0).
  2:{ intros j q Hq.
      assert (j < length documents)%nat as Hj
        by (rewrite <- Hlen; apply nth_error_Some; congruence).
      destruct (nth_error documents j) as [d|] eqn:Hd;
        [|apply nth_error_None in Hd; lia].
      destruct (Hnth j d Hd) as (q' & Hq' & Hid' & _). congruence. }
  pose proof (nth_error_lt _ _ _ Hp).
  destruct (Z.leb_spec 0 (Z.of_nat i)); [|lia].
  destruct (Z.ltb_spec (Z.of_nat i) (0 + len points)); [|lia].
  cbn [andb]. now rewrite Z.sub_0_r, Nat2Z.id.
Qed.

(** ** Search *)

(** C2.  The local backend applies no similarity floor, which the managed
    backend passes to its service: the stored vector is orthogonal to the
    query, the score is 0.0, below the floor of 0.65, and the result is
    returned. *)
Lemma search_floor_counterexample :
  exists r,
    FaissVectorStore.search axis_store (spike 1 1) 1 None = [r]
    /\ QueryResult.score r = S754_zero false
    /\ SFltb (QueryResult.score r) Config.SIMILARITY_THRESHOLD = true
    /\ ~ meets_floor (QueryResult.score r).
Proof.
  eexists. split; [vm_compute; reflexivity|].
  split; [reflexivity|]. split; [reflexivity | discriminate].
Qed.

(** A negative limit gives no result at all: the bound on the number of
    results needs a limit that is not negative. *)
Example faiss_search_negative_limit :
  FaissVectorStore.search axis_store (spike 0 1) (-1) None = [].
Proof. vm_compute. reflexivity. Qed.

(** The bound on the number of results, on both backends.  For a limit
    that is not negative the local
    backend returns at most [limit] results, and none from an empty index.
    The managed backend returns nothing when it is unavailable or when the
    call fails; otherwise it returns one result per hit of the service, with
    the score of the hit, having passed [limit] and the floor to the service:
    its results are within [limit] and above the floor whenever the hits
    are. *)
Theorem search_at_most_limit `{qdrant.Service}
    (query_embedding : list float) (limit : Z) (source_filter : option str) :
  0 <= limit ->
  (forall store : FaissVectorStore.t,
      len (FaissVectorStore.search store query_embedding limit source_filter) <= limit
      /\ (faiss.ntotal (FaissVectorStore.index store) = 0 ->
          FaissVectorStore.search store query_embedding limit source_filter = []))
  /\ (forall store : VectorStore.t,
      let found := VectorStore.search store query_embedding limit source_filter in
      let answer :=
        qdrant.search (VectorStore.points store) query_embedding limit
          (VectorStore.search_filter source_filter) Config.SIMILARITY_THRESHOLD in
      (VectorStore.is_available store = false -> found = [])
      /\ (forall hits,
             VectorStore.is_available store = true -> answer = Ok hits ->
             found = List.map (fun hit => QueryResult.make (qdrant.hit_payload hit)
                                             (qdrant.score hit)) hits
             /\ (len hits <= limit -> len found <= limit)
             /\ (Forall (fun hit => meets_floor (qdrant.score hit)) hits ->
                 Forall (fun r => meets_floor (QueryResult.score r)) found))
      /\ (VectorStore.is_available store = true ->
          (forall hits, answer <> Ok hits) -> found = [])).
Proof.
  intros Hlimit. split.
  - intros store. split; [now apply faiss_search_bounded | apply faiss_search_empty].
  - intros store found answer. subst found answer. unfold VectorStore.search.
    split; [|split].
    + now intros ->.
    + intros hits -> ->. cbn [negb]. split; [reflexivity|]. split.
      * unfold len. now rewrite length_map.
      * intros Hhits. apply List.Forall_forall. intros r Hr.
        apply in_map_iff in Hr as [hit [<- Hhit]].
        rewrite List.Forall_forall in Hhits. now apply Hhits.
    + intros -> Hfail. cbn [negb].
      destruct (qdrant.search _ _ _ _ _) as [hits| |]; [|reflexivity|reflexivity].
      now destruct (Hfail hits).
Qed.

Lemma search_at_most_limit_witness :
  0 <= 1
  /\ len (FaissVectorStore.search axis_store (spike 1 1) 1 None) <= 1
  /\ (let found := @VectorStore.search steady available (spike 1 1) 1 None in
      len found <= 1 /\ Forall (fun r => meets_floor (QueryResult.score r)) found).
Proof.
  assert (Hlimit : 0 <= 1) by lia.
  destruct (@search_at_most_limit steady (spike 1 1) 1 None Hlimit) as [Hlocal Hmanaged].
  split; [exact Hlimit|]. split; [apply (Hlocal axis_store)|].
  destruct (Hmanaged available) as (_ & Hhits & _).
  destruct (Hhits _ eq_refl eq_refl) as (_ & Hlen & Hfloor).
  split.
  - apply Hlen. vm_compute. discriminate.
  - apply Hfloor. constructor; [vm_compute; reflexivity | constructor].
Defined.

(** ** Normalization *)

(** C4.  The division by the norm has no guard: a document whose embedding
    is the zero vector is stored on the local backend as a row of NaN, which
    has no norm, and nothing is raised. *)
Theorem zero_embedding_not_normalized :
  let doc := document "dharma is duty" "gita" "2" "47" (repeat (S754_zero false) 1024) in
  let after := FaissVectorStore.add_documents (FaissVectorStore.new 1024) [doc] in
  snd after = None
  /\ faiss.xb (FaissVectorStore.index (fst after)) = [repeat S754_nan 1024]
  /\ FaissVectorStore.metadata (fst after) = [Entry.of_doc doc]
  /\ np.norm (repeat S754_nan 1024) = S754_nan
  /\ np.norm (repeat S754_nan 1024) <> one32.
Proof.
  cbv zeta. repeat split; try (vm_compute; reflexivity). vm_compute. discriminate.
Qed.

(** ** Zero norm *)

Lemma divide_by_zero_not_finite (a s : float32) :
  is_zero s = true -> is_finite (f32.div a s) = false.
Proof. destruct s; try discriminate. intros _. now destruct a. Qed.

Lemma zero_over_zero_nan (a s : float32) :
  is_zero a = true -> is_zero s = true -> f32.div a s = S754_nan.
Proof. destruct a, s; try discriminate. reflexivity. Qed.

Lemma length_normalize (x : list float) :
  len (FaissVectorStore.normalize (np.array x)) = len x.
Proof.
  unfold FaissVectorStore.normalize, np.divide, np.array, len.
  now rewrite !length_map.
Qed.

(** C10.  The division by the norm is not guarded.  When the norm computed
    for an embedding is zero, [add_documents] raises nothing and stores a
    vector none of whose components is finite; for the zero vector every
    component is NaN. *)
Theorem zero_norm_not_guarded (self : FaissVectorStore.t) (doc : Document.t)
    (e : list float) :
  Document.embedding doc = Some e ->
  is_zero (np.norm (np.array e)) = true ->
  len e = faiss.d (FaissVectorStore.index self) ->
  let after := FaissVectorStore.add_documents self [doc] in
  let stored := List.map (fun a => f32.div a (np.norm (np.array e))) (np.array e) in
  snd after = None
  /\ faiss.xb (FaissVectorStore.index (fst after))
     = faiss.xb (FaissVectorStore.index self) ++ [stored]
  /\ Forall (fun a => is_finite a = false) stored
  /\ (Forall (fun a => is_zero a = true) e -> Forall (fun a => is_nan a = true) stored).
Proof.
  intros Hemb Hnorm Hdim after stored. subst after stored.
  split; [|split; [|split]].
  - unfold FaissVectorStore.add_documents. rewrite collect_spec.
    unfold embeddings_of. cbn [flat_map]. rewrite Hemb. cbn [app List.map truthy].
    unfold FaissVectorStore.array2d. cbn [forallb]. rewrite Z.eqb_refl. cbn [andb bind].
    unfold faiss.add. cbn [forallb]. rewrite length_normalize, Hdim, Z.eqb_refl.
    reflexivity.
  - destruct (faiss_add_documents_spec self [doc]) as [[x [Hx _]]|(_ & _ & _ & -> & _)].
    + exfalso. revert Hx.
      unfold FaissVectorStore.add_documents. rewrite collect_spec.
      unfold embeddings_of. cbn [flat_map]. rewrite Hemb. cbn [app List.map truthy].
      unfold FaissVectorStore.array2d. cbn [forallb]. rewrite Z.eqb_refl. cbn [andb bind].
      unfold faiss.add. cbn [forallb]. rewrite length_normalize, Hdim, Z.eqb_refl.
      discriminate.
    + unfold embeddings_of. cbn [flat_map]. rewrite Hemb. reflexivity.
  - apply List.Forall_forall. intros b Hb. apply in_map_iff in Hb as [a [<- _]].
    now apply divide_by_zero_not_finite.
  - intros Hzero. apply List.Forall_forall. intros b Hb.
    apply in_map_iff in Hb as [a [<- Ha]]. unfold np.array in Ha.
    apply in_map_iff in Ha as [a0 [<- Ha0]].
    rewrite List.Forall_forall in Hzero. specialize (Hzero a0 Ha0).
    rewrite zero_over_zero_nan; [reflexivity| |assumption].
    now destruct a0.
Qed.

Lemma zero_norm_not_guarded_witness :
  let doc := document "dharma is duty" "gita" "2" "47" (repeat (S754_zero false) 1024) in
  let after := FaissVectorStore.add_documents (FaissVectorStore.new 1024) [doc] in
  snd after = None
  /\ faiss.xb (FaissVectorStore.index (fst after)) = [repeat S754_nan 1024].
Proof.
  cbv zeta.
  destruct (zero_norm_not_guarded (FaissVectorStore.new 1024)
              (document "dharma is duty" "gita" "2" "47" (repeat (S754_zero false) 1024))
              (repeat (S754_zero false) 1024) eq_refl)
    as (Hraise & Hstored & _).
  - vm_compute. reflexivity.
  - vm_compute. reflexivity.
  - split; [exact Hraise|]. rewrite Hstored. vm_compute. reflexivity.
Defined.

(** ** Append-only *)

(** C5 fails on the managed backend.  The point ids restart at 0 in every
    call, so a second batch replaces the first: after the two calls the
    collection holds one point, the second document, and the first document
    is gone. *)
Theorem qdrant_add_documents_overwrites :
  let first := document "dharma is duty" "gita" "2" "47" (spike 0 1) in
  let second := document "the self is eternal" "gita" "2" "20" (spike 1 1) in
  let before := VectorStore.add_documents available [first] in
  let after := VectorStore.add_documents (fst before) [second] in
  snd before = None
  /\ VectorStore.points (fst before) !! 0
     = Some {| qdrant.id := 0; qdrant.vector := spike 0 1;
               qdrant.payload := Entry.of_doc first |}
  /\ snd after = None
  /\ VectorStore.points (fst after) !! 0
     = Some {| qdrant.id := 0; qdrant.vector := spike 1 1;
               qdrant.payload := Entry.of_doc second |}
  /\ size (VectorStore.points (fst after)) = 1%nat.
Proof.
  cbv zeta. repeat split; vm_compute; reflexivity.
Qed.

(** * Further properties *)

(** ** Further properties of the chunker *)

(** A match anchored at the head of [s] ends inside [s]. *)
Lemma match_here_le (pat : re.pattern) :
  forall s n, re.match_here pat s = Some n -> (n <= length s)%nat.
Proof.
  induction pat as [|[p q] rest IH]; intros s n Hm; cbn [re.match_here] in Hm.
  - injection Hm as <-. lia.
  - assert (Hg : forall s n,
      (fix greedy (s : str) : option nat :=
         match s with
         | c :: s' =>
             if p c then
               match greedy s' with
               | Some n => Some (S n)
               | None => re.match_here rest s
               end
             else re.match_here rest s
         | [] => re.match_here rest s
         end) s = Some n -> (n <= length s)%nat).
    { clear s n Hm. induction s as [|c s IHs]; intros n Hn; [now apply IH|].
      destruct (p c); [|now apply IH].
      match type of Hn with
      | match ?g with _ => _ end = _ => destruct g as [k|] eqn:Hk
      end; [|now apply IH].
      injection Hn as <-. specialize (IHs k eq_refl). simpl. lia. }
    destruct q.
    + destruct s as [|c s]; [discriminate|]. destruct (p c); [|discriminate].
      destruct (re.match_here rest s) as [k|] eqn:Hk; [|discriminate].
      injection Hm as <-. apply IH in Hk. simpl. lia.
    + now apply Hg.
    + destruct s as [|c s]; [discriminate|]. destruct (p c); [|discriminate].
      match type of Hm with
      | option_map S ?g = _ => destruct g as [k|] eqn:Hk
      end; [|discriminate].
      injection Hm as <-. apply Hg in Hk. simpl. lia.
Qed.

Lemma search_from_span (pat : re.pattern) :
  forall s pos b e,
    re.search_from pat s pos = Some (b, e) ->
    (pos <= b <= e /\ e <= pos + length s)%nat.
Proof.
  induction s as [|c s IH]; intros pos b e Hs; cbn [re.search_from] in Hs.
  - destruct (re.match_here pat []) as [n|] eqn:Hn; [|discriminate].
    injection Hs as <- <-. apply match_here_le in Hn. lia.
  - destruct (re.match_here pat (c :: s)) as [n|] eqn:Hn.
    + injection Hs as <- <-. apply match_here_le in Hn. lia.
    + apply IH in Hs. simpl. lia.
Qed.

Lemma search_end (pat : re.pattern) (s : str) (b e : nat) :
  re.search pat s = Some (b, e) -> (e <= length s)%nat.
Proof. intros H. apply search_from_span in H. lia. Qed.

Lemma py_slice_length {A : Type} (l : list A) (s e : Z) :
  0 <= s -> s <= e -> len (py_slice l s e) <= e - s.
Proof.
  intros Hs He. rewrite py_slice_window by assumption.
  unfold len. rewrite length_firstn. lia.
Qed.

Lemma find_sentence_boundary_bounds (text : str) (start end_ : Z) :
  0 <= start -> start <= end_ ->
  start <= TextChunker._find_sentence_boundary text start end_ <= end_.
Proof.
  intros Hs He. unfold TextChunker._find_sentence_boundary.
  pose proof (py_slice_length text start end_ Hs He) as Hlen. unfold len in Hlen.
  destruct (re.search TextChunker.sentence_pattern _) as [[b e]|] eqn:H1.
  { apply search_end in H1. lia. }
  destruct (re.search TextChunker.paragraph_pattern _) as [[b e]|] eqn:H2.
  { apply search_end in H2. lia. }
  destruct (re.search TextChunker.clause_pattern _) as [[b e]|] eqn:H3.
  { apply search_end in H3. lia. }
  lia.
Qed.

(** A match of a pattern in two parts is a match of the first part followed
    by a match of the second. *)
Lemma match_here_split (front back : re.pattern) :
  forall s n, re.match_here (front ++ back) s = Some n ->
    exists j n',
      n = (j + n')%nat /\ (j <= length s)%nat
      /\ re.match_here back (skipn j s) = Some n'.
Proof.
  induction front as [|[p q] front IH]; intros s n Hm.
  - exists O, n. repeat split; [lia | exact Hm].
  - cbn [app re.match_here] in Hm.
    assert (Hg : forall s n,
      (fix greedy (s : str) : option nat :=
         match s with
         | c :: s' =>
             if p c then
               match greedy s' with
               | Some n => Some (S n)
               | None => re.match_here (front ++ back) s
               end
             else re.match_here (front ++ back) s
         | [] => re.match_here (front ++ back) s
         end) s = Some n ->
      exists j n',
        n = (j + n')%nat /\ (j <= length s)%nat
        /\ re.match_here back (skipn j s) = Some n').
    { clear s n Hm. induction s as [|c s IHs]; intros n Hn; [now apply IH|].
      destruct (p c); [|now apply IH].
      match type of Hn with
      | match ?g with _ => _ end = _ => destruct g as [k|] eqn:Hk
      end; [|now apply IH].
      injection Hn as <-. destruct (IHs k eq_refl) as (j & n' & -> & Hj & Hback).
      exists (S j), n'. repeat split; [simpl; lia | exact Hback]. }
    destruct q.
    + destruct s as [|c s]; [discriminate|]. destruct (p c); [|discriminate].
      destruct (re.match_here (front ++ back) s) as [k|] eqn:Hk; [|discriminate].
      injection Hm as <-. destruct (IH s k Hk) as (j & n' & -> & Hj & Hback).
      exists (S j), n'. repeat split; [simpl; lia | exact Hback].
    + now apply Hg.
    + destruct s as [|c s]; [discriminate|]. destruct (p c); [|discriminate].
      match type of Hm with
      | option_map S ?g = _ => destruct g as [k|] eqn:Hk
      end; [|discriminate].
      injection Hm as <-. destruct (Hg s k Hk) as (j & n' & -> & Hj & Hback).
      exists (S j), n'. repeat split; [simpl; lia | exact Hback].
Qed.

(** A match of one class, taken once or more, ends with a character of the
    class. *)
Lemma match_here_class (p : N -> bool) (q : re.quant) (s : str) (n : nat) :
  q <> re.Star -> re.match_here [(p, q)] s = Some n ->
  exists c, (1 <= n)%nat /\ nth_error s (n - 1) = Some c /\ p c = true.
Proof.
  intros Hq Hm. cbn [re.match_here] in Hm.
  destruct q; [| congruence |].
  - destruct s as [|c s]; [discriminate|]. destruct (p c) eqn:Hc; [|discriminate].
    injection Hm as <-. exists c. repeat split; [lia | exact Hc].
  - destruct s as [|c s]; [discriminate|]. destruct (p c) eqn:Hc; [|discriminate].
    match type of Hm with
    | option_map S ?g = _ => destruct g as [k|] eqn:Hk
    end; [|discriminate].
    injection Hm as <-. cbn [Nat.sub]. rewrite Nat.sub_0_r.
    revert c Hc k Hk. induction s as [|d s IHs]; intros c Hc k Hk.
    + injection Hk as <-. exists c. repeat split; [lia | exact Hc].
    + destruct (p d) eqn:Hd.
      * match type of Hk with
        | match ?g with _ => _ end = _ => destruct g as [k'|] eqn:Hk'
        end.
        -- injection Hk as <-. destruct (IHs d Hd k' eq_refl) as (c' & _ & Hn & Hc').
           exists c'. repeat split; [lia | exact Hn | exact Hc'].
        -- injection Hk as <-. exists c. repeat split; [lia | exact Hc].
      * injection Hk as <-. exists c. repeat split; [lia | exact Hc].
Qed.

(** A match of a pattern whose last class is taken once or more ends with a
    character of that class. *)
Lemma match_here_ends (front : re.pattern) (p : N -> bool) (q : re.quant)
    (s : str) (n : nat) :
  q <> re.Star -> re.match_here (front ++ [(p, q)]) s = Some n ->
  exists c, (1 <= n)%nat /\ nth_error s (n - 1) = Some c /\ p c = true.
Proof.
  intros Hq Hm. apply match_here_split in Hm as (j & n' & -> & Hj & Hback).
  apply match_here_class in Hback as (c & Hn & Hc & Hp); [|exact Hq].
  exists c. repeat split; [lia | | exact Hp].
  rewrite nth_error_skipn in Hc. now replace (j + n' - 1)%nat with (j + (n' - 1))%nat by lia.
Qed.

Lemma search_from_ends (front : re.pattern) (p : N -> bool) (q : re.quant) :
  q <> re.Star ->
  forall s pos b e,
    re.search_from (front ++ [(p, q)]) s pos = Some (b, e) ->
    exists c, (pos < e)%nat /\ nth_error s (e - 1 - pos) = Some c /\ p c = true.
Proof.
  intros Hq. induction s as [|d s IH]; intros pos b e Hs; cbn [re.search_from] in Hs.
  - destruct (re.match_here _ []) as [n|] eqn:Hn; [|discriminate].
    injection Hs as <- <-. apply match_here_ends in Hn as (c & Hn & Hc & Hp); [|exact Hq].
    exists c. repeat split; [lia | | exact Hp].
    now replace (pos + n - 1 - pos)%nat with (n - 1)%nat by lia.
  - destruct (re.match_here _ (d :: s)) as [n|] eqn:Hn.
    + injection Hs as <- <-.
      apply match_here_ends in Hn as (c & Hn & Hc & Hp); [|exact Hq].
      exists c. repeat split; [lia | | exact Hp].
      now replace (pos + n - 1 - pos)%nat with (n - 1)%nat by lia.
    + apply IH in Hs as (c & He & Hc & Hp). exists c. repeat split; [lia | | exact Hp].
      replace (e - 1 - pos)%nat with (S (e - 1 - S pos)) by lia. exact Hc.
Qed.

(** The three patterns of the boundary end with whitespace. *)
Lemma boundary_search_ends (pat : re.pattern) (s : str) (b e : nat) :
  pat = TextChunker.sentence_pattern \/ pat = TextChunker.paragraph_pattern
  \/ pat = TextChunker.clause_pattern ->
  re.search pat s = Some (b, e) ->
  exists c, (1 <= e)%nat /\ nth_error s (e - 1) = Some c /\ isspace c = true.
Proof.
  unfold re.search. intros [->|[->| ->]] Hs.
  - apply (search_from_ends [(re.one_of [46; 33; 63; 2404; 2405]%N, re.Once)]
             isspace re.Plus ltac:(discriminate)) in Hs as (c & He & Hc & Hp).
    exists c. rewrite Nat.sub_0_r in Hc. repeat split; [lia | exact Hc | exact Hp].
  - apply (search_from_ends [(N.eqb 10, re.Once); (isspace, re.Star)]
             (N.eqb 10) re.Once ltac:(discriminate)) in Hs as (c & He & Hc & Hp).
    exists c. rewrite Nat.sub_0_r in Hc. repeat split; [lia | exact Hc|].
    apply N.eqb_eq in Hp. now subst c.
  - apply (search_from_ends [(re.one_of [44; 59]%N, re.Once)]
             isspace re.Plus ltac:(discriminate)) in Hs as (c & He & Hc & Hp).
    exists c. rewrite Nat.sub_0_r in Hc. repeat split; [lia | exact Hc | exact Hp].
Qed.

(** X1.  [_find_sentence_boundary] on a window [0 <= start <= end] returns a
    position of the window; when it is not [end] itself, it lies after
    [start] and just behind a whitespace character of the text. *)
Theorem find_sentence_boundary_in_window (text : str) (start end_ : Z) :
  0 <= start -> start <= end_ ->
  let boundary := TextChunker._find_sentence_boundary text start end_ in
  start <= boundary <= end_
  /\ (boundary = end_
      \/ (start < boundary
          /\ exists c, nth_error text (Z.to_nat (boundary - 1)) = Some c
                       /\ isspace c = true)).
Proof.
  intros Hs He. cbv zeta. split; [now apply find_sentence_boundary_bounds|].
  unfold TextChunker._find_sentence_boundary.
  assert (Hfound : forall pat b e,
            pat = TextChunker.sentence_pattern \/ pat = TextChunker.paragraph_pattern
            \/ pat = TextChunker.clause_pattern ->
            re.search pat (py_slice text start end_) = Some (b, e) ->
            start < start + Z.of_nat e
            /\ exists c, nth_error text (Z.to_nat (start + Z.of_nat e - 1)) = Some c
                         /\ isspace c = true).
  { intros pat b e Hpat Hsearch.
    destruct (boundary_search_ends pat _ b e Hpat Hsearch) as (c & Hpos & Hc & Hsp).
    split; [lia|]. exists c. split; [|exact Hsp].
    rewrite py_slice_window in Hc by assumption.
    rewrite nth_error_firstn in Hc. destruct (_ <? _)%nat; [|discriminate].
    rewrite nth_error_skipn in Hc.
    now replace (Z.to_nat (start + Z.of_nat e - 1))
      with (Z.to_nat start + (e - 1))%nat by lia. }
  destruct (re.search TextChunker.sentence_pattern _) as [[b e]|] eqn:H1.
  { right. apply (Hfound TextChunker.sentence_pattern b e); auto. }
  destruct (re.search TextChunker.paragraph_pattern _) as [[b e]|] eqn:H2.
  { right. apply (Hfound TextChunker.paragraph_pattern b e); auto. }
  destruct (re.search TextChunker.clause_pattern _) as [[b e]|] eqn:H3.
  { right. apply (Hfound TextChunker.clause_pattern b e); auto. }
  now left.
Qed.

Lemma find_sentence_boundary_in_window_witness :
  let boundary := TextChunker._find_sentence_boundary (lit "Om. Tat sat") 0 8 in
  0 <= boundary <= 8
  /\ (boundary = 8
      \/ (0 < boundary
          /\ exists c, nth_error (lit "Om. Tat sat") (Z.to_nat (boundary - 1)) = Some c
                       /\ isspace c = true)).
Proof. apply find_sentence_boundary_in_window; lia. Defined.

Lemma chunk_loop_invariant (P : str -> Prop) (self : TextChunker.t) (text : str) :
  (forall start, 0 <= start < len text ->
     strip (py_slice text start (TextChunker.window_end self text start)) <> [] ->
     P (strip (py_slice text start (TextChunker.window_end self text start)))) ->
  forall fuel start chunks out,
    0 <= start ->
    Forall P chunks ->
    TextChunker.chunk_loop fuel self text start chunks = Some out ->
    Forall P out.
Proof.
  intros HP. induction fuel as [|fuel IH]; intros start chunks out Hs Hall Hrun;
    cbn [TextChunker.chunk_loop] in Hrun;
    destruct (Z.ltb_spec start (len text)) as [Hlt|Hge];
    try discriminate; try (injection Hrun as <-; exact Hall).
  set (end_ := TextChunker.window_end self text start) in *.
  assert (Hall' : Forall P
            (if truthy (strip (py_slice text start end_))
             then chunks ++ [strip (py_slice text start end_)] else chunks)).
  { destruct (strip (py_slice text start end_)) eqn:Hchunk; cbn [truthy]; [exact Hall|].
    apply Forall_app. split; [exact Hall|]. constructor; [|constructor].
    rewrite <- Hchunk. apply HP; [lia|]. subst end_. rewrite Hchunk. discriminate. }
  pose proof (next_start_gt self start end_).
  destruct (_ >=? _).
  - injection Hrun as <-. exact Hall'.
  - eapply IH; [|exact Hall'|exact Hrun]. lia.
Qed.

Lemma chunk_text_invariant (P : str -> Prop) (self : TextChunker.t) (text : str) :
  (text <> [] -> len text < TextChunker.chunk_size self -> P text) ->
  (forall start, 0 <= start < len text ->
     TextChunker.chunk_size self <= len text ->
     strip (py_slice text start (TextChunker.window_end self text start)) <> [] ->
     P (strip (py_slice text start (TextChunker.window_end self text start)))) ->
  Forall P (TextChunker.chunk_text self text).
Proof.
  intros Hshort Hlong. unfold TextChunker.chunk_text, TextChunker.chunk_text_fuel.
  destruct text as [|c text]; [constructor|]. cbn [truthy negb orb].
  destruct (Z.ltb_spec (len (c :: text)) (TextChunker.chunk_size self)).
  - constructor; [|constructor]. now apply Hshort.
  - destruct (TextChunker.chunk_loop _ _ _ _ _) as [out|] eqn:Hrun; [|constructor].
    eapply (chunk_loop_invariant P); [|reflexivity| |exact Hrun].
    + intros start Hstart. now apply Hlong.
    + constructor.
Qed.

(** X2.  [chunk_text] never returns an empty chunk, whatever the
    configuration. *)
Theorem chunk_text_no_empty_chunk (self : TextChunker.t) (text : str) :
  Forall (fun chunk => chunk <> []) (TextChunker.chunk_text self text).
Proof.
  apply chunk_text_invariant.
  - intros Hne _. exact Hne.
  - intros start _ _ Hne. exact Hne.
Qed.

Lemma lstrip_idempotent (s : str) : lstrip (lstrip s) = lstrip s.
Proof.
  induction s as [|c s IH]; [reflexivity|]. simpl.
  destruct (isspace c) eqn:Hc; [exact IH|]. simpl. now rewrite Hc.
Qed.

Lemma lstrip_head (s : str) :
  match s with c :: _ => isspace c = false | [] => True end -> lstrip s = s.
Proof. destruct s as [|c s]; [reflexivity|]. simpl. now intros ->. Qed.

Lemma lstrip_is_head (s : str) :
  match lstrip s with c :: _ => isspace c = false | [] => True end.
Proof.
  induction s as [|c s IH]; [exact I|]. simpl.
  destruct (isspace c) eqn:Hc; [exact IH | exact Hc].
Qed.

Lemma rstrip_head (s : str) :
  match s with c :: _ => isspace c = false | [] => True end ->
  match rstrip s with c :: _ => isspace c = false | [] => True end.
Proof.
  unfold rstrip. destruct s as [|c s]; [intros _; exact I|]. intros Hc.
  destruct (lstrip_split (rev (c :: s))) as [a [Hsplit Ha]].
  assert (Hrev : c :: s = rev (lstrip (rev (c :: s))) ++ rev a).
  { rewrite <- rev_app_distr, <- Hsplit. now rewrite rev_involutive. }
  destruct (rev (lstrip (rev (c :: s)))) as [|c' r]; [exact I|].
  injection Hrev as <- _. exact Hc.
Qed.

(** Stripping twice is stripping once. *)
Lemma strip_idempotent (s : str) : strip (strip s) = strip s.
Proof.
  unfold strip at 1.
  rewrite (lstrip_head (strip s)).
  - unfold strip, rstrip. now rewrite rev_involutive, lstrip_idempotent.
  - unfold strip. apply rstrip_head, lstrip_is_head.
Qed.

(** X3.  Once the text is as long as [chunk_size], every chunk is stripped:
    it neither starts nor ends with whitespace.  (A shorter text is returned
    as it is.) *)
Theorem chunk_text_chunks_stripped (self : TextChunker.t) (text : str) :
  TextChunker.chunk_size self <= len text ->
  Forall (fun chunk => strip chunk = chunk) (TextChunker.chunk_text self text).
Proof.
  intros Hlong. apply chunk_text_invariant.
  - lia.
  - intros start _ _ _. apply strip_idempotent.
Qed.

Lemma strip_length (s : str) : (length (strip s) <= length s)%nat.
Proof.
  destruct (strip_split s) as [a [b [Hs _]]].
  rewrite Hs at 2. rewrite !length_app. lia.
Qed.

Lemma window_end_le (self : TextChunker.t) (text : str) (start : Z) :
  0 <= start ->
  0 <= TextChunker.overlap self <= TextChunker.chunk_size self ->
  TextChunker.window_end self text start <= start + TextChunker.chunk_size self.
Proof.
  intros Hs Ho. unfold TextChunker.window_end.
  destruct (_ <? _); [|lia].
  pose proof (find_sentence_boundary_bounds text
                (start + TextChunker.chunk_size self - TextChunker.overlap self)
                (start + TextChunker.chunk_size self) ltac:(lia) ltac:(lia)).
  destruct (_ >? _); lia.
Qed.

(** X4.  With [0 <= overlap <= chunk_size] no chunk is longer than
    [chunk_size]. *)
Theorem chunk_text_chunk_length (self : TextChunker.t) (text : str) :
  0 <= TextChunker.overlap self <= TextChunker.chunk_size self ->
  Forall (fun chunk => len chunk <= TextChunker.chunk_size self)
    (TextChunker.chunk_text self text).
Proof.
  intros Ho. apply chunk_text_invariant.
  - lia.
  - intros start Hstart _ _. cbv beta.
    pose proof (window_end_le self text start ltac:(lia) Ho) as Hend.
    pose proof (strip_length
      (py_slice text start (TextChunker.window_end self text start))) as Hstrip.
    assert (Hle : start <= TextChunker.window_end self text start).
    { unfold TextChunker.window_end. destruct (_ <? _); [|lia].
      destruct (Z.gtb_spec
        (TextChunker._find_sentence_boundary text
           (start + TextChunker.chunk_size self - TextChunker.overlap self)
           (start + TextChunker.chunk_size self)) start); lia. }
    pose proof (py_slice_length text start _ ltac:(lia) Hle). unfold len in *. lia.
Qed.

Lemma chunk_text_chunks_stripped_witness :
  Forall (fun chunk => strip chunk = chunk)
    (TextChunker.chunk_text small_chunker (lit "Om.  Tat sat. ")).
Proof. apply chunk_text_chunks_stripped. vm_compute. discriminate. Defined.

Lemma chunk_text_chunk_length_witness :
  Forall (fun chunk => len chunk <= 8)
    (TextChunker.chunk_text small_chunker (lit "Om.  Tat sat. ")).
Proof. apply (chunk_text_chunk_length small_chunker). simpl. lia. Defined.

Lemma py_slice_of_list {A : Type} (l : list A) (i j : Z) :
  exists pre post, l = pre ++ py_slice l i j ++ post.
Proof.
  unfold py_slice.
  exists (firstn (Z.to_nat (adjust_index (len l) i)) l),
         (skipn (Z.to_nat (adjust_index (len l) j - adjust_index (len l) i))
            (skipn (Z.to_nat (adjust_index (len l) i)) l)).
  now rewrite !firstn_skipn.
Qed.

(** X5.  Every chunk is a contiguous piece of the text. *)
Theorem chunk_text_chunks_of_text (self : TextChunker.t) (text : str) :
  Forall (fun chunk => exists pre post, text = pre ++ chunk ++ post)
    (TextChunker.chunk_text self text).
Proof.
  apply chunk_text_invariant.
  - intros _ _. exists [], []. now rewrite app_nil_r.
  - intros start _ _ _.
    destruct (py_slice_of_list text start (TextChunker.window_end self text start))
      as (pre & post & Htext).
    destruct (strip_split (py_slice text start (TextChunker.window_end self text start)))
      as (a & b & Hw & _).
    exists (pre ++ a), (b ++ post).
    rewrite Htext at 1. rewrite Hw at 1. now rewrite <- !app_assoc.
Qed.

(** X6.  A text of exactly [chunk_size] characters is not returned alone:
    with [0 < overlap <= chunk_size / 2] the result is the stripped text
    followed by its stripped last [overlap] characters, each when it is not
    empty. *)
Theorem chunk_text_exact_size (self : TextChunker.t) (text : str) :
  len text = TextChunker.chunk_size self ->
  0 < TextChunker.overlap self ->
  2 * TextChunker.overlap self <= TextChunker.chunk_size self ->
  let tail :=
    skipn (Z.to_nat (TextChunker.chunk_size self - TextChunker.overlap self)) text in
  TextChunker.chunk_text self text
  = (if truthy (strip text) then [strip text] else [])
    ++ (if truthy (strip tail) then [strip tail] else []).
Proof.
  intros Hlen Hov Hhalf tail.
  unfold TextChunker.chunk_text, TextChunker.chunk_text_fuel.
  destruct text as [|c0 [|c1 text]]; unfold len in Hlen; cbn [length] in Hlen; try lia.
  set (t := c0 :: c1 :: text) in *.
  assert (Ht : len t = TextChunker.chunk_size self)
    by (subst t; unfold len; cbn [length]; lia).
  change (truthy t) with true. cbn [negb orb].
  destruct (Z.ltb_spec (len t) (TextChunker.chunk_size self)); [lia|].
  change (length t) with (S (S (length text))).
  assert (Hw0 : TextChunker.window_end self t 0 = TextChunker.chunk_size self).
  { unfold TextChunker.window_end.
    destruct (Z.ltb_spec (0 + TextChunker.chunk_size self) (len t)); lia. }
  assert (Hn0 : TextChunker.next_start self 0 (TextChunker.chunk_size self)
                = TextChunker.chunk_size self - TextChunker.overlap self).
  { unfold TextChunker.next_start. lia. }
  set (s1 := TextChunker.chunk_size self - TextChunker.overlap self) in *.
  assert (Hw1 : TextChunker.window_end self t s1 = s1 + TextChunker.chunk_size self).
  { unfold TextChunker.window_end.
    destruct (Z.ltb_spec (s1 + TextChunker.chunk_size self) (len t)); lia. }
  assert (Hslice0 : py_slice t 0 (TextChunker.chunk_size self) = t).
  { rewrite py_slice_window by lia. rewrite skipn_O, firstn_all2; [reflexivity|].
    unfold len in Ht. lia. }
  assert (Hslice1 : py_slice t s1 (s1 + TextChunker.chunk_size self) = tail).
  { rewrite py_slice_window by lia. subst tail. fold t.
    rewrite firstn_all2; [reflexivity|].
    rewrite length_skipn. unfold len in Ht. lia. }
  cbn [TextChunker.chunk_loop].
  destruct (Z.ltb_spec 0 (len t)); [|lia].
  rewrite Hw0, Hn0, Hslice0.
  destruct (Z.geb_spec s1 (len t)); [lia|].
  destruct (Z.ltb_spec s1 (len t)); [|lia].
  rewrite Hw1, Hslice1.
  destruct (Z.geb_spec (TextChunker.next_start self s1 (s1 + TextChunker.chunk_size self))
              (len t)) as [_|Hlt].
  2:{ unfold TextChunker.next_start in Hlt. lia. }
  destruct (strip t), (strip tail); reflexivity.
Qed.

Lemma chunk_text_exact_size_witness :
  TextChunker.chunk_text small_chunker (lit "Om namah")
  = [lit "Om namah"; lit "ah"].
Proof.
  apply (chunk_text_exact_size small_chunker (lit "Om namah"));
    [reflexivity | reflexivity | vm_compute; discriminate].
Defined.

(** ** The normalizers *)

Lemma whitespace_run_match (s : str) :
  re.match_here TextNormalizer.whitespace_run s
  = match s with
    | c :: s' =>
        if isspace c then Some (S (length s' - length (lstrip s'))) else None
    | [] => None
    end.
Proof.
  unfold TextNormalizer.whitespace_run. cbn [re.match_here].
  assert (Hg : forall s,
    (fix greedy (s : str) : option nat :=
       match s with
       | c :: s' =>
           if isspace c then
             match greedy s' with
             | Some n => Some (S n)
             | None => Some O
             end
           else Some O
       | [] => Some O
       end) s = Some (length s - length (lstrip s))%nat).
  { clear s. induction s as [|d s IH]; [reflexivity|]. cbn [lstrip].
    destruct (isspace d) eqn:Hd.
    - rewrite IH. cbn [length]. f_equal.
      destruct (lstrip_split s) as [a [Hs _]].
      assert (length (lstrip s) <= length s)%nat
        by (rewrite Hs at 2; rewrite length_app; lia).
      lia.
    - cbn [length]. f_equal. lia. }
  destruct s as [|c s]; [reflexivity|]. destruct (isspace c); [|reflexivity].
  now rewrite Hg.
Qed.

Lemma skipn_lstrip (s : str) : skipn (length s - length (lstrip s)) s = lstrip s.
Proof.
  destruct (lstrip_split s) as [a [Hs _]].
  rewrite Hs at 1 3. rewrite length_app.
  replace (length a + length (lstrip s) - length (lstrip s))%nat with (length a) by lia.
  rewrite skipn_app, skipn_all, Nat.sub_diag. reflexivity.
Qed.

(** One step of [re.sub(r'\s+', ' ', s)]. *)
Lemma sub_whitespace_step (fuel : nat) (c : N) (s : str) :
  re.sub_fuel (S fuel) TextNormalizer.whitespace_run (lit " ") (c :: s)
  = if isspace c
    then 32%N :: re.sub_fuel fuel TextNormalizer.whitespace_run (lit " ") (lstrip s)
    else c :: re.sub_fuel fuel TextNormalizer.whitespace_run (lit " ") s.
Proof.
  cbn [re.sub_fuel]. rewrite whitespace_run_match.
  destruct (isspace c); [|reflexivity]. now rewrite skipn_lstrip.
Qed.

Lemma lstrip_length (s : str) : (length (lstrip s) <= length s)%nat.
Proof.
  destruct (lstrip_split s) as [a [Hs _]]. rewrite Hs at 2. rewrite length_app. lia.
Qed.

Lemma head_ok_lstrip (s : str) : head_ok (lstrip s) = true.
Proof.
  pose proof (lstrip_is_head s) as H. unfold head_ok.
  destruct (lstrip s); [reflexivity|]. now rewrite H.
Qed.

Lemma last_ok_cons (c : N) (s : str) :
  s <> [] -> last_ok (c :: s) = last_ok s.
Proof. destruct s; [congruence | reflexivity]. Qed.

Lemma last_ok_lstrip (s : str) : last_ok s = true -> last_ok (lstrip s) = true.
Proof.
  induction s as [|c s IH]; [reflexivity|]. intros Hlast. cbn [lstrip].
  destruct (isspace c) eqn:Hc; [|exact Hlast].
  destruct s as [|d s]; [reflexivity|]. apply IH. exact Hlast.
Qed.

(** What [re.sub(r'\s+', ' ', s)] returns, given fuel for every character. *)
Lemma sub_whitespace_spec (fuel : nat) :
  forall s, (length s <= fuel)%nat ->
    let r := re.sub_fuel fuel TextNormalizer.whitespace_run (lit " ") s in
    single_spaced r = true
    /\ (head_ok s = true -> head_ok r = true)
    /\ (last_ok s = true -> last_ok r = true)
    /\ (s = [] -> r = [])
    /\ (s <> [] -> r <> []).
Proof.
  induction fuel as [|fuel IH]; intros s Hlen.
  - destruct s; [|simpl in Hlen; lia]. cbn. repeat split; congruence.
  - destruct s as [|c s]; [cbn; repeat split; congruence|].
    cbn zeta. rewrite sub_whitespace_step. cbn [length] in Hlen.
    destruct (isspace c) eqn:Hc.
    + pose proof (lstrip_length s).
      destruct (IH (lstrip s) ltac:(lia)) as (Hss & Hhead & Hlast & Hnil & Hcons).
      pose proof (Hhead (head_ok_lstrip s)) as Hh.
      set (r := re.sub_fuel fuel _ _ (lstrip s)) in *.
      repeat split; try congruence.
      * cbn [single_spaced]. rewrite Hss, andb_true_r.
        change (isspace 32) with true. cbn [negb orb]. rewrite N.eqb_refl.
        exact Hh.
      * cbn [head_ok]. now rewrite Hc.
      * intros Hl. destruct s as [|d s]; [cbn in Hl; now rewrite Hc in Hl|].
        assert (Hl' : last_ok (lstrip (d :: s)) = true) by now apply last_ok_lstrip.
        assert (lstrip (d :: s) <> []).
        { intros Hempty. clear -Hl Hempty.
          revert d Hl Hempty. induction s as [|e s IHs]; intros d Hl Hempty;
            cbn [lstrip] in Hempty; destruct (isspace d) eqn:Hd; try discriminate.
          - cbn in Hl. now rewrite Hd in Hl.
          - apply (IHs e); assumption. }
        rewrite last_ok_cons by auto. auto.
    + destruct (IH s ltac:(lia)) as (Hss & Hhead & Hlast & Hnil & Hcons).
      set (r := re.sub_fuel fuel _ _ s) in *.
      repeat split; try congruence.
      * cbn [single_spaced]. now rewrite Hc, Hss.
      * intros _. cbn [head_ok]. now rewrite Hc.
      * intros Hl. destruct s as [|d s].
        -- rewrite (Hnil eq_refl). exact Hl.
        -- rewrite last_ok_cons by (apply Hcons; discriminate). apply Hlast. exact Hl.
Qed.

Lemma last_ok_snoc (s : str) (c : N) : last_ok (s ++ [c]) = negb (isspace c).
Proof.
  induction s as [|d s IH]; [reflexivity|].
  change ((d :: s) ++ [c]) with (d :: (s ++ [c])).
  rewrite last_ok_cons; [exact IH|]. now destruct s.
Qed.

Lemma last_ok_rev (s : str) : last_ok (rev s) = head_ok s.
Proof. destruct s as [|c s]; [reflexivity|]. cbn [rev]. apply last_ok_snoc. Qed.

Lemma head_ok_rev (s : str) : head_ok (rev s) = last_ok s.
Proof. rewrite <- (rev_involutive s) at 2. now rewrite last_ok_rev. Qed.

Lemma head_ok_strip (s : str) : head_ok (strip s) = true.
Proof.
  pose proof (rstrip_head (lstrip s) (lstrip_is_head s)) as H.
  unfold strip, head_ok. destruct (rstrip (lstrip s)); [reflexivity|]. now rewrite H.
Qed.

Lemma last_ok_strip (s : str) : last_ok (strip s) = true.
Proof. unfold strip, rstrip. rewrite last_ok_rev. apply head_ok_lstrip. Qed.

(** A string with clean ends is its own [strip]. *)
Lemma strip_clean (s : str) : head_ok s = true -> last_ok s = true -> strip s = s.
Proof.
  intros Hh Hl. unfold strip. rewrite (lstrip_head s).
  - unfold rstrip. rewrite lstrip_head; [apply rev_involutive|].
    rewrite <- head_ok_rev in Hl. unfold head_ok in Hl.
    destruct (rev s); [exact I|]. now apply negb_true_iff.
  - unfold head_ok in Hh. destruct s; [exact I|]. now apply negb_true_iff.
Qed.

(** X7.  In a normalized query every whitespace character is a single
    U+0020 between two other characters: no run of spaces, no tab or
    newline, and no whitespace at either end. *)
Theorem normalize_query_single_spaced `{Unicode} (query : str) :
  single_spaced (TextNormalizer.normalize_query query) = true
  /\ strip (TextNormalizer.normalize_query query) = TextNormalizer.normalize_query query.
Proof.
  unfold TextNormalizer.normalize_query.
  destruct query as [|c query]; [split; reflexivity|]. cbn [truthy negb].
  unfold re.sub.
  destruct (sub_whitespace_spec (length (strip (lower (c :: query))))
              (strip (lower (c :: query))) ltac:(lia))
    as (Hss & Hhead & Hlast & _).
  split; [exact Hss|].
  apply strip_clean; [apply Hhead, head_ok_strip | apply Hlast, last_ok_strip].
Qed.

Lemma single_spaced_app (a b : str) :
  single_spaced (a ++ b) = true -> single_spaced a = true /\ single_spaced b = true.
Proof.
  induction a as [|c a IH]; [now split|].
  change ((c :: a) ++ b) with (c :: (a ++ b)). cbn [single_spaced].
  intros Hab. apply andb_true_iff in Hab as [Hc Hrest].
  destruct (IH Hrest) as [Ha Hb]. split; [|exact Hb].
  rewrite Ha, andb_true_r.
  destruct (isspace c); [|reflexivity]. cbn [negb orb] in *.
  apply andb_true_iff in Hc as [-> Hnext].
  destruct a; [reflexivity | exact Hnext].
Qed.

Lemma single_spaced_strip (s : str) :
  single_spaced s = true -> single_spaced (strip s) = true.
Proof.
  intros Hs. destruct (strip_split s) as (a & b & Hsplit & _).
  rewrite Hsplit in Hs.
  apply single_spaced_app in Hs as [_ Hs]. now apply single_spaced_app in Hs as [Hs _].
Qed.

(** On a single-spaced string the substitution changes nothing. *)
Lemma sub_whitespace_single_spaced (fuel : nat) :
  forall s, single_spaced s = true ->
    re.sub_fuel fuel TextNormalizer.whitespace_run (lit " ") s = s.
Proof.
  induction fuel as [|fuel IH]; intros s Hs; [reflexivity|].
  destruct s as [|c s]; [reflexivity|].
  rewrite sub_whitespace_step. cbn [single_spaced] in Hs.
  apply andb_true_iff in Hs as [Hc Hrest].
  destruct (isspace c); cbn [negb orb] in Hc.
  - apply andb_true_iff in Hc as [Hc Hnext]. apply N.eqb_eq in Hc. subst c.
    rewrite lstrip_head.
    + now rewrite IH.
    + destruct s; [exact I|]. now apply negb_true_iff.
  - now rewrite IH.
Qed.

Section Replace.

Variables (old : N) (new : str).
Hypothesis old_visible : isspace old = false.
Hypothesis new_visible : Forall (fun c => isspace c = false) new.
Hypothesis new_nonempty : new <> [].

Lemma single_spaced_visible (a b : str) :
  Forall (fun c => isspace c = false) a ->
  single_spaced b = true -> single_spaced (a ++ b) = true.
Proof.
  induction 1 as [|c a Hc _ IH]; intros Hb; [exact Hb|].
  change ((c :: a) ++ b) with (c :: (a ++ b)). cbn [single_spaced].
  now rewrite Hc, IH.
Qed.

Lemma head_ok_replace (s : str) :
  head_ok (TextNormalizer.replace_char old new s) = head_ok s.
Proof.
  destruct s as [|c s]; [reflexivity|].
  unfold TextNormalizer.replace_char. cbn [flat_map head_ok].
  destruct (N.eqb_spec c old) as [->|_]; [|reflexivity].
  rewrite old_visible. destruct new_visible as [|d ? Hd _]; [congruence|].
  cbn. now rewrite Hd.
Qed.

Lemma replace_nil (s : str) :
  TextNormalizer.replace_char old new s = [] -> s = [].
Proof.
  destruct s as [|c s]; [reflexivity|].
  unfold TextNormalizer.replace_char. cbn [flat_map].
  destruct (c =? old)%N; [|discriminate].
  destruct new; [congruence | discriminate].
Qed.

Lemma last_ok_app (a b : str) : b <> [] -> last_ok (a ++ b) = last_ok b.
Proof.
  intros Hb. induction a as [|c a IH]; [reflexivity|].
  change ((c :: a) ++ b) with (c :: (a ++ b)).
  rewrite last_ok_cons; [exact IH|]. destruct a, b; try discriminate; congruence.
Qed.

Lemma last_ok_visible (a : str) :
  Forall (fun c => isspace c = false) a -> last_ok a = true.
Proof.
  induction 1 as [|c a Hc Ha IH]; [reflexivity|].
  destruct a; [cbn; now rewrite Hc | exact IH].
Qed.

Lemma last_ok_replace (s : str) :
  last_ok s = true -> last_ok (TextNormalizer.replace_char old new s) = true.
Proof.
  induction s as [|c s IH]; [reflexivity|]. intros Hl.
  unfold TextNormalizer.replace_char. cbn [flat_map].
  fold (TextNormalizer.replace_char old new s).
  destruct s as [|d s].
  - cbn [TextNormalizer.replace_char flat_map]. rewrite app_nil_r.
    destruct (c =? old)%N; [now apply last_ok_visible | exact Hl].
  - rewrite last_ok_app.
    + apply IH. exact Hl.
    + intros Hempty. apply replace_nil in Hempty. discriminate.
Qed.

Lemma single_spaced_replace (s : str) :
  single_spaced s = true ->
  single_spaced (TextNormalizer.replace_char old new s) = true.
Proof.
  induction s as [|c s IH]; [reflexivity|]. intros Hs.
  cbn [single_spaced] in Hs. apply andb_true_iff in Hs as [Hc Hrest].
  unfold TextNormalizer.replace_char. cbn [flat_map].
  fold (TextNormalizer.replace_char old new s).
  destruct (N.eqb_spec c old) as [->|Hne].
  - apply single_spaced_visible; auto.
  - cbn [app single_spaced]. rewrite (IH Hrest), andb_true_r.
    destruct (isspace c); [|reflexivity]. cbn [negb orb] in *.
    apply andb_true_iff in Hc as [-> Hnext]. cbn [andb].
    pose proof (head_ok_replace s) as Hh. unfold head_ok in Hh.
    destruct (TextNormalizer.replace_char old new s) eqn:Hr.
    + reflexivity.
    + rewrite Hh. destruct s; [discriminate Hr | exact Hnext].
Qed.

(** Nothing is left to replace when [new] does not contain [old]. *)
Lemma replace_removes (s : str) :
  ~ In old new -> ~ In old (TextNormalizer.replace_char old new s).
Proof.
  intros Hnew. induction s as [|c s IH]; [intros []|].
  unfold TextNormalizer.replace_char. cbn [flat_map].
  fold (TextNormalizer.replace_char old new s).
  intros Hin. apply in_app_or in Hin as [Hin|Hin]; [|now apply IH].
  destruct (N.eqb_spec c old) as [->|Hne]; [now apply Hnew|].
  destruct Hin as [->|[]]. congruence.
Qed.

Lemma replace_absent (s : str) :
  ~ In old s -> TextNormalizer.replace_char old new s = s.
Proof.
  induction s as [|c s IH]; [reflexivity|]. intros Hin.
  unfold TextNormalizer.replace_char. cbn [flat_map].
  fold (TextNormalizer.replace_char old new s).
  destruct (N.eqb_spec c old) as [->|_]; [exfalso; apply Hin; now left|].
  rewrite IH; [reflexivity|]. intros H. apply Hin. now right.
Qed.

(** A replacement keeps every character it does not introduce away. *)
Lemma replace_keeps_out (x : N) (s : str) :
  ~ In x new -> ~ In x s -> ~ In x (TextNormalizer.replace_char old new s).
Proof.
  intros Hnew. induction s as [|c s IH]; [auto|]. intros Hs.
  unfold TextNormalizer.replace_char. cbn [flat_map].
  fold (TextNormalizer.replace_char old new s).
  intros Hin. apply in_app_or in Hin as [Hin|Hin].
  - destruct (c =? old)%N; [now apply Hnew|].
    destruct Hin as [->|[]]. apply Hs. now left.
  - apply IH; [|exact Hin]. intros H. apply Hs. now right.
Qed.

End Replace.

(** The shape of every result of [normalize_sanskrit] on a non-empty text. *)
Lemma normalize_sanskrit_shape (text : str) :
  text <> [] ->
  let r := TextNormalizer.normalize_sanskrit text in
  single_spaced r = true /\ head_ok r = true /\ last_ok r = true
  /\ ~ In 2404%N r /\ ~ In 2405%N r.
Proof.
  intros Hne. unfold TextNormalizer.normalize_sanskrit.
  destruct text as [|c text]; [congruence|]. cbn [truthy negb]. cbv zeta.
  set (s := strip (re.sub TextNormalizer.whitespace_run (lit " ") (c :: text))).
  assert (Hs : single_spaced s = true).
  { subst s. apply single_spaced_strip. unfold re.sub.
    now destruct (sub_whitespace_spec (length (c :: text)) (c :: text) ltac:(lia)). }
  assert (Hv1 : Forall (fun c => isspace c = false) (lit "."))
    by (repeat constructor).
  assert (Hv2 : Forall (fun c => isspace c = false) (lit "||"))
    by (repeat constructor).
  assert (Hn1 : lit "." <> []) by discriminate.
  assert (Hn2 : lit "||" <> []) by discriminate.
  repeat split.
  - apply single_spaced_replace; try assumption; try reflexivity.
    apply single_spaced_replace; try assumption; reflexivity.
  - rewrite !head_ok_replace; try assumption; try reflexivity.
    apply head_ok_strip.
  - apply last_ok_replace; try assumption; try reflexivity.
    apply last_ok_replace; try assumption; try reflexivity.
    apply last_ok_strip.
  - apply replace_keeps_out.
    + cbn. intros [H|[H|[]]]; discriminate H.
    + apply replace_removes. cbn. intros [H|[]]; discriminate H.
  - apply replace_removes. cbn. intros [H|[H|[]]]; discriminate H.
Qed.

(** X8.  [normalize_sanskrit] leaves no danda and no double danda. *)
Theorem normalize_sanskrit_no_danda (text : str) :
  Forall (fun c => c <> 2404%N /\ c <> 2405%N) (TextNormalizer.normalize_sanskrit text).
Proof.
  destruct text as [|c text]; [constructor|].
  destruct (normalize_sanskrit_shape (c :: text) ltac:(discriminate))
    as (_ & _ & _ & H1 & H2).
  apply List.Forall_forall. intros x Hx. split; intros ->; contradiction.
Qed.

(** X9.  [normalize_sanskrit] is idempotent. *)
Theorem normalize_sanskrit_idempotent (text : str) :
  TextNormalizer.normalize_sanskrit (TextNormalizer.normalize_sanskrit text)
  = TextNormalizer.normalize_sanskrit text.
Proof.
  destruct text as [|c text]; [reflexivity|].
  destruct (normalize_sanskrit_shape (c :: text) ltac:(discriminate))
    as (Hss & Hh & Hl & H1 & H2).
  set (r := TextNormalizer.normalize_sanskrit (c :: text)) in *.
  unfold TextNormalizer.normalize_sanskrit at 1.
  destruct r as [|d r'] eqn:Hr; [reflexivity|]. cbn [truthy negb]. cbv zeta.
  rewrite <- Hr in *. unfold re.sub.
  rewrite sub_whitespace_single_spaced by assumption.
  rewrite strip_clean by assumption.
  rewrite (replace_absent 2404 (lit ".") r H1).
  apply replace_absent. exact H2.
Qed.

(** ** The shape of the hash-based embedding and the retry loop *)

Lemma pad_loop_double (fuel : nat) (l : list float) :
  (0 < length l <= 512)%nat ->
  APIClient.pad_loop (S fuel) l = APIClient.pad_loop fuel (l ++ l).
Proof.
  intros Hl. cbn [APIClient.pad_loop].
  destruct (Z.ltb_spec (len l) 1024) as [_|Hge]; [|unfold len in Hge; lia].
  rewrite py_slice_window by (unfold len; lia).
  rewrite skipn_O, firstn_all2; [reflexivity|]. unfold len. lia.
Qed.

Lemma pad_loop_done (fuel : nat) (l : list float) :
  (1024 <= length l)%nat -> APIClient.pad_loop fuel l = Some l.
Proof.
  intros Hl. destruct fuel; cbn [APIClient.pad_loop];
    destruct (Z.ltb_spec (len l) 1024) as [Hlt|_]; try reflexivity;
    unfold len in Hlt; lia.
Qed.

Lemma concat_repeat_double {A : Type} (c : list A) (n : nat) :
  concat (repeat c (n + n)) = concat (repeat c n) ++ concat (repeat c n).
Proof. now rewrite repeat_app, concat_app. Qed.

Lemma length_concat_repeat {A : Type} (c : list A) (n : nat) :
  length (concat (repeat c n)) = (n * length c)%nat.
Proof.
  induction n as [|n IH]; [reflexivity|].
  cbn [repeat concat]. rewrite length_app, IH. lia.
Qed.

Lemma pad_loop_repeat (fuel n : nat) (c : list float) :
  length c = 16%nat -> (0 < n <= 32)%nat ->
  APIClient.pad_loop (S fuel) (concat (repeat c n))
  = APIClient.pad_loop fuel (concat (repeat c (n + n))).
Proof.
  intros Hc Hn. rewrite concat_repeat_double. apply pad_loop_double.
  rewrite length_concat_repeat, Hc. lia.
Qed.

(** The padding loop turns 16 components into 64 copies of them. *)
Lemma pad_loop_sixteen (c : list float) :
  length c = 16%nat ->
  APIClient.pad_loop 1024 c = Some (concat (repeat c 64)).
Proof.
  intros Hc.
  replace c with (concat (repeat c 1)) at 1 by (cbn; apply app_nil_r).
  rewrite (pad_loop_repeat _ 1), (pad_loop_repeat _ 2), (pad_loop_repeat _ 4),
    (pad_loop_repeat _ 8), (pad_loop_repeat _ 16), (pad_loop_repeat _ 32)
    by (assumption || lia).
  apply pad_loop_done. rewrite length_concat_repeat, Hc. lia.
Qed.

Lemma hash_embedding_repeats (text : str) (data : hashlib.bytes) :
  encode text = Ok data ->
  APIClient._get_embedding_openrouter text
  = Ok (concat (repeat (List.map component (hashlib.md5_digest data)) 64)).
Proof.
  intros Henc. unfold APIClient._get_embedding_openrouter.
  rewrite Henc. cbn [bind]. rewrite hash_components_digest. cbn [bind].
  fold component.
  destruct (md5_digest_shape data) as [_ Hlen].
  rewrite pad_loop_sixteen by (now rewrite length_map).
  f_equal. rewrite py_slice_window by lia.
  rewrite skipn_O. apply firstn_all2.
  rewrite length_concat_repeat, length_map, Hlen. lia.
Qed.

Lemma nth_error_concat_repeat {A : Type} (c : list A) (n i : nat) :
  (i < n * length c)%nat ->
  nth_error (concat (repeat c n)) i = nth_error c (i mod length c).
Proof.
  revert i. induction n as [|n IH]; intros i Hi; [lia|].
  cbn [repeat concat].
  destruct (Nat.lt_ge_cases i (length c)) as [Hlt|Hge].
  - rewrite nth_error_app1 by assumption. now rewrite Nat.mod_small.
  - rewrite nth_error_app2 by assumption. rewrite IH by lia.
    f_equal. replace i with ((i - length c) + 1 * length c)%nat at 2 by lia.
    now rewrite Nat.Div0.mod_add.
Qed.

(** X10.  The hash-based embedding of a text that [encode] accepts has
    period 16: component [i] is the component made of byte [i mod 16] of the
    MD5 digest. *)
Theorem hash_embedding_cyclic (text : str) (data : hashlib.bytes) :
  encode text = Ok data ->
  exists embedding,
    APIClient._get_embedding_openrouter text = Ok embedding
    /\ forall i, (i < 1024)%nat ->
         nth_error embedding i
         = nth_error (List.map component (hashlib.md5_digest data)) (i mod 16).
Proof.
  intros Henc. eexists. split; [exact (hash_embedding_repeats text data Henc)|].
  intros i Hi. destruct (md5_digest_shape data) as [_ Hlen].
  rewrite nth_error_concat_repeat; rewrite length_map, Hlen; [reflexivity | lia].
Qed.

Lemma hash_embedding_cyclic_witness :
  exists embedding,
    APIClient._get_embedding_openrouter (lit "om") = Ok embedding
    /\ forall i, (i < 1024)%nat ->
         nth_error embedding i
         = nth_error (List.map component (hashlib.md5_digest [111; 109])) (i mod 16).
Proof. apply hash_embedding_cyclic. reflexivity. Defined.

Lemma in_unit_interval_within (x : float) : in_unit_interval x = true -> within 1 x.
Proof.
  destruct x as [| | |[|] m e]; cbn [in_unit_interval within]; try discriminate; auto.
  intros H. apply andb_true_iff in H as [He Hm]. lia.
Qed.

Lemma components_in_unit_interval :
  forallb (fun n => in_unit_interval (component (Z.of_nat n))) (seq 0 256) = true.
Proof. vm_compute. reflexivity. Qed.

Lemma component_within (b : Z) : is_byte b -> within 1 (component b).
Proof.
  intros Hb. unfold is_byte in Hb. apply in_unit_interval_within.
  pose proof components_in_unit_interval as Hall.
  rewrite forallb_forall in Hall.
  specialize (Hall (Z.to_nat b)). rewrite Z2Nat.id in Hall by lia.
  apply Hall. apply in_seq. lia.
Qed.

Lemma Forall_concat_repeat {A : Type} (P : A -> Prop) (c : list A) (n : nat) :
  Forall P c -> Forall P (concat (repeat c n)).
Proof.
  intros Hc. induction n as [|n IH]; [constructor|].
  cbn [repeat concat]. apply Forall_app. now split.
Qed.

(** X11.  Every component of a hash-based embedding is a float between 0
    and 1: never negative, infinite or NaN. *)
Theorem hash_embedding_unit_interval (text : str) (embedding : list float) :
  APIClient._get_embedding_openrouter text = Ok embedding ->
  Forall (within 1) embedding.
Proof.
  intros Hrun.
  destruct (encode text) as [data|e|] eqn:Henc.
  - rewrite (hash_embedding_repeats text data Henc) in Hrun.
    assert (Heq : embedding
                  = concat (repeat (List.map component (hashlib.md5_digest data)) 64))
      by congruence.
    rewrite Heq. apply Forall_concat_repeat.
    destruct (md5_digest_shape data) as [Hbytes _].
    apply List.Forall_forall. intros x Hx.
    apply in_map_iff in Hx as (b & <- & Hb).
    apply component_within. rewrite List.Forall_forall in Hbytes. now apply Hbytes.
  - unfold APIClient._get_embedding_openrouter in Hrun. now rewrite Henc in Hrun.
  - unfold APIClient._get_embedding_openrouter in Hrun. now rewrite Henc in Hrun.
Qed.

Lemma hash_embedding_unit_interval_witness :
  Forall (within 1)
    (concat (repeat (List.map component (hashlib.md5_digest [111; 109])) 64)).
Proof.
  apply (hash_embedding_unit_interval (lit "om")).
  exact (hash_embedding_repeats (lit "om") [111; 109] eq_refl).
Defined.

Lemma retry_served `{APIClient.Services} (text : str) (max_retries : Z)
    (k : nat) (e : list float) :
  APIClient.mistral_embeddings text k = APIClient.Embedding e ->
  forall remaining attempt,
    (attempt <= k < attempt + remaining)%nat ->
    Z.of_nat (attempt + remaining) = max_retries ->
    (forall j e', (attempt <= j < k)%nat ->
       APIClient.mistral_embeddings text j <> APIClient.Embedding e') ->
    APIClient.retry text max_retries remaining attempt = Ok e.
Proof.
  intros Hk. induction remaining as [|remaining IH]; intros attempt Hrange Hmax Hnone;
    [lia|].
  cbn [APIClient.retry].
  destruct (Nat.eq_dec attempt k) as [->|Hne]; [now rewrite Hk|].
  destruct (APIClient.mistral_embeddings text attempt) as [|e'|] eqn:Hr.
  - apply IH; [lia | lia |]. intros j e' Hj. apply Hnone. lia.
  - exfalso. apply (Hnone attempt e'); [lia | exact Hr].
  - destruct (Z.eqb_spec (Z.of_nat attempt) (max_retries - 1)); [lia|].
    apply IH; [lia | lia |]. intros j e' Hj. apply Hnone. lia.
Qed.

Lemma retry_fallback `{APIClient.Services} (text : str) (max_retries : Z) :
  forall remaining attempt,
    (forall j e', (attempt <= j < attempt + remaining)%nat ->
       APIClient.mistral_embeddings text j <> APIClient.Embedding e') ->
    APIClient.retry text max_retries remaining attempt
    = APIClient._get_embedding_openrouter text.
Proof.
  induction remaining as [|remaining IH]; intros attempt Hnone; [reflexivity|].
  cbn [APIClient.retry].
  destruct (APIClient.mistral_embeddings text attempt) as [|e'|] eqn:Hr.
  - apply IH. intros j e' Hj. apply Hnone. lia.
  - exfalso. apply (Hnone attempt e'); [lia | exact Hr].
  - destruct (_ =? _); [reflexivity|].
    apply IH. intros j e' Hj. apply Hnone. lia.
Qed.

(** X12.  With [use_api=True], [get_embedding] returns the embedding of the
    first attempt, among the [max_retries] allowed, that the endpoint
    serves; rate limits and failures before it are retried. *)
Theorem get_embedding_first_served `{APIClient.Services} (text : str)
    (max_retries : Z) (k : nat) (e : list float) :
  Z.of_nat k < max_retries ->
  APIClient.mistral_embeddings text k = APIClient.Embedding e ->
  (forall j e', (j < k)%nat ->
     APIClient.mistral_embeddings text j <> APIClient.Embedding e') ->
  APIClient.get_embedding text true max_retries = Ok e.
Proof.
  intros Hk Hserved Hnone. unfold APIClient.get_embedding. cbn [negb].
  apply (retry_served text max_retries k e Hserved); [lia | lia |].
  intros j e' Hj. apply Hnone. lia.
Qed.

Lemma get_embedding_first_served_witness :
  @APIClient.get_embedding flaky (lit "om") true 3 = Ok [f64.of_Z 1].
Proof.
  apply (@get_embedding_first_served flaky (lit "om") 3 2); [lia | reflexivity |].
  intros [|[|j]] e' Hj; [discriminate | discriminate | lia].
Defined.

(** X13.  With [use_api=True], when none of the [max_retries] attempts is
    served, [get_embedding] returns what the hash-based path returns; in
    particular for [max_retries <= 0], without any attempt. *)
Theorem get_embedding_api_fallback `{APIClient.Services} (text : str)
    (max_retries : Z) :
  (forall j e', Z.of_nat j < max_retries ->
     APIClient.mistral_embeddings text j <> APIClient.Embedding e') ->
  APIClient.get_embedding text true max_retries
  = APIClient._get_embedding_openrouter text.
Proof.
  intros Hnone. unfold APIClient.get_embedding. cbn [negb].
  apply retry_fallback. intros j e' Hj. apply Hnone. lia.
Qed.

Lemma get_embedding_api_fallback_witness :
  @APIClient.get_embedding offline (lit "om") true 3
  = APIClient._get_embedding_openrouter (lit "om").
Proof. apply (@get_embedding_api_fallback offline). discriminate. Defined.

(** ** Invariants and results of the local backend *)

Lemma forallb_len_eq (rows : list (list float32)) (n : Z) :
  forallb (fun row => len row =? n) rows = true <-> Forall (fun row => len row = n) rows.
Proof.
  rewrite forallb_forall, List.Forall_forall.
  split; intros H x Hx; specialize (H x Hx); lia.
Qed.

Lemma normalized_rows_len (embeddings : list (list float)) (n : Z) :
  Forall (fun row => len row = n)
    (List.map (fun e => FaissVectorStore.normalize (np.array e)) embeddings)
  <-> Forall (fun e => len e = n) embeddings.
Proof.
  rewrite !List.Forall_forall. split.
  - intros H e He. rewrite <- length_normalize. apply H.
    apply in_map_iff. eauto.
  - intros H row Hrow. apply in_map_iff in Hrow as (e & <- & He).
    rewrite length_normalize. now apply H.
Qed.

(** [add_documents] raises exactly when an embedding has not the dimension
    of the index. *)
Lemma faiss_add_documents_none (self : FaissVectorStore.t)
    (documents : list Document.t) :
  snd (FaissVectorStore.add_documents self documents) = None
  <-> Forall (fun e => len e = faiss.d (FaissVectorStore.index self))
        (embeddings_of documents).
Proof.
  unfold FaissVectorStore.add_documents. rewrite collect_spec.
  destruct (embeddings_of documents) as [|e es] eqn:Hembs.
  { cbn. split; [constructor | reflexivity]. }
  cbn [List.map truthy]. unfold FaissVectorStore.array2d.
  set (rows := FaissVectorStore.normalize (np.array e)
               :: List.map (fun e => FaissVectorStore.normalize (np.array e)) es).
  pose proof (normalized_rows_len (e :: es) (faiss.d (FaissVectorStore.index self)))
    as Hnorm. cbn [List.map] in Hnorm. fold rows in Hnorm.
  destruct (forallb (fun r' => len r' =? len (FaissVectorStore.normalize (np.array e))) rows)
    eqn:Hsame; cbn [bind].
  - unfold faiss.add.
    destruct (forallb (fun row => len row =? faiss.d (FaissVectorStore.index self)) rows)
      eqn:Hdim; cbn [fst snd].
    + apply forallb_len_eq in Hdim.
      split; [intros _; now apply Hnorm | reflexivity].
    + split; [discriminate|].
      intros Hall. apply Hnorm, forallb_len_eq in Hall. congruence.
  - cbn [fst snd]. split; [discriminate|].
    intros Hall. apply Hnorm in Hall.
    assert (forallb (fun r' => len r' =? len (FaissVectorStore.normalize (np.array e))) rows
            = true); [|congruence].
    apply forallb_len_eq. inversion Hall as [|? ? Hhead _]; subst.
    rewrite Hhead. exact Hall.
Qed.

(** X14.  [FaissVectorStore.add_documents] raises exactly when some
    embedding of the batch has not the dimension of the index, and then the
    store is as it was before the call. *)
Theorem faiss_add_documents_accepts (self : FaissVectorStore.t)
    (documents : list Document.t) :
  let after := FaissVectorStore.add_documents self documents in
  (snd after = None
   <-> Forall (fun e => len e = faiss.d (FaissVectorStore.index self))
         (embeddings_of documents))
  /\ (snd after <> None -> fst after = self).
Proof.
  cbv zeta. split; [apply faiss_add_documents_none|].
  pose proof (faiss_add_documents_spec self documents) as Hspec. cbv zeta in Hspec.
  destruct Hspec as [[e [_ ->]]|[Hnone _]]; [reflexivity | congruence].
Qed.

Lemma consistent_add (self : FaissVectorStore.t) (documents : list Document.t) :
  consistent self -> consistent (fst (FaissVectorStore.add_documents self documents)).
Proof.
  intros [Hcount Hrows].
  pose proof (faiss_add_documents_spec self documents) as Hspec. cbv zeta in Hspec.
  destruct Hspec as [[e [_ ->]]|(Hnone & _ & Hd & Hxb & Hmeta)]; [now split|].
  assert (Hall := proj1 (faiss_add_documents_none self documents) Hnone).
  unfold consistent, faiss.ntotal in *. rewrite Hd, Hxb, Hmeta. split.
  - unfold len in *. rewrite !length_app, length_map.
    assert (length (embeddings_of documents) = length (entries_of documents)).
    { clear. induction documents as [|doc rest IH]; [reflexivity|].
      cbn [embeddings_of entries_of flat_map].
      fold (embeddings_of rest). fold (entries_of rest).
      rewrite !length_app, IH. now destruct (Document.embedding doc). }
    lia.
  - apply Forall_app. split; [exact Hrows|]. now apply normalized_rows_len.
Qed.

(** X15.  In every state that a fresh local store reaches through
    [add_documents] and [clear_collection], the index and the metadata hold
    the same number of rows, every row has the dimension of the index, and
    [get_collection_info] reports as many vectors as points. *)
Theorem reachable_consistent (dim : Z) (self : FaissVectorStore.t) :
  reachable dim self ->
  consistent self
  /\ FaissVectorStore.vectors_count (FaissVectorStore.get_collection_info self)
     = FaissVectorStore.info_points_count (FaissVectorStore.get_collection_info self).
Proof.
  intros Hreach.
  assert (Hc : consistent self).
  { induction Hreach as [|self documents _ IH|self _ _].
    - split; [reflexivity | constructor].
    - now apply consistent_add.
    - split; [reflexivity | constructor]. }
  split; [exact Hc | exact (proj1 Hc)].
Qed.

Lemma reachable_consistent_witness :
  consistent axis_store
  /\ FaissVectorStore.vectors_count (FaissVectorStore.get_collection_info axis_store)
     = FaissVectorStore.info_points_count (FaissVectorStore.get_collection_info axis_store).
Proof.
  apply (reachable_consistent 1024). unfold axis_store.
  apply reachable_add, reachable_new.
Defined.

Lemma insert_desc_In (h x : float32 * Z) (l : list (float32 * Z)) :
  In x (faiss.insert_desc h l) -> x = h \/ In x l.
Proof.
  induction l as [|h' l IH]; cbn [faiss.insert_desc].
  - intros [<-|[]]. now left.
  - destruct (SFltb (fst h) (fst h')).
    + intros [<-|Hin]; [right; now left|].
      destruct (IH Hin) as [->|Hl]; [now left | right; now right].
    + intros [<-|Hin]; [now left | now right].
Qed.

Lemma rank_In (x : float32 * Z) (hits : list (float32 * Z)) :
  In x (faiss.rank hits) -> In x hits.
Proof.
  induction hits as [|h hits IH]; [intros []|].
  unfold faiss.rank. cbn [fold_right]. fold (faiss.rank hits).
  intros Hin. apply insert_desc_In in Hin as [->|Hin]; [now left | right; auto].
Qed.

Lemma insert_desc_length (h : float32 * Z) (l : list (float32 * Z)) :
  length (faiss.insert_desc h l) = S (length l).
Proof.
  induction l as [|h' l IH]; [reflexivity|]. cbn [faiss.insert_desc].
  destruct (SFltb _ _); cbn [length]; [now rewrite IH | reflexivity].
Qed.

Lemma rank_length (hits : list (float32 * Z)) :
  length (faiss.rank hits) = length hits.
Proof.
  induction hits as [|h hits IH]; [reflexivity|].
  unfold faiss.rank. cbn [fold_right]. fold (faiss.rank hits).
  rewrite insert_desc_length. cbn [length]. now rewrite IH.
Qed.

Lemma scored_rows_In (q : list float32) (xb : list (list float32)) :
  forall start score idx,
    In (score, idx)
       (combine (List.map (np.dot q) xb) (List.map Z.of_nat (seq start (length xb)))) ->
    exists i row,
      idx = Z.of_nat (start + i) /\ nth_error xb i = Some row /\ score = np.dot q row.
Proof.
  induction xb as [|row xb IH]; intros start score idx; [intros []|].
  cbn [List.map length seq combine]. intros [Heq|Hin].
  - injection Heq as <- <-. exists O, row. rewrite Nat.add_0_r. now repeat split.
  - destruct (IH _ _ _ Hin) as (i & row' & -> & Hrow & ->).
    exists (S i), row'. repeat split; [f_equal; lia | exact Hrow].
Qed.

Lemma firstn_In {A : Type} (n : nat) (l : list A) (x : A) :
  In x (firstn n l) -> In x l.
Proof.
  intros Hin. rewrite <- (firstn_skipn n l). apply in_or_app. now left.
Qed.

Lemma admitted_number (x y : float32) : SFltb x y = true -> is_nan y = false.
Proof. destruct y; [reflexivity | reflexivity | | reflexivity]. now destruct x. Qed.

Lemma admitted_above (x y : float32) : SFltb x y = true -> SFleb x y = true.
Proof.
  unfold SFltb, SFleb. now destruct (SFcompare x y) as [[| |]|].
Qed.

(** Every hit of the index is a stored row with its inner product, above
    [lowest], or an unfilled slot. *)
Lemma index_search_sound (index : faiss.IndexFlatIP) (q : list float32) (k : Z)
    (hits : list (float32 * Z)) :
  faiss.search index q k = Ok hits ->
  forall score idx, In (score, idx) hits ->
    (exists i row,
        idx = Z.of_nat i /\ nth_error (faiss.xb index) i = Some row
        /\ score = np.dot q row /\ SFltb faiss.lowest score = true)
    \/ (score = faiss.lowest /\ idx = faiss.no_label).
Proof.
  unfold faiss.search. destruct (negb _); [discriminate|].
  destruct (negb _); [discriminate|]. intros Heq score idx Hin.
  injection Heq as <-. apply in_app_or in Hin as [Hin|Hin].
  - left. apply firstn_In, rank_In, filter_In in Hin as [Hin Hadm].
    destruct (scored_rows_In q (faiss.xb index) O score idx Hin) as (i & row & H1 & H2 & H3).
    exists i, row. repeat split; assumption.
  - right. apply repeat_spec in Hin. now injection Hin as -> ->.
Qed.

Lemma index_search_length (index : faiss.IndexFlatIP) (q : list float32) (k : Z)
    (hits : list (float32 * Z)) :
  faiss.search index q k = Ok hits -> length hits = Z.to_nat k.
Proof.
  unfold faiss.search. destruct (negb _); [discriminate|].
  destruct (negb _); [discriminate|]. intros Heq. injection Heq as <-.
  rewrite length_app, repeat_length, length_firstn. lia.
Qed.

Lemma py_index_valid {A : Type} (l : list A) (i : Z) :
  - len l <= i < len l -> exists x, py_index l i = Some x.
Proof.
  intros Hi. unfold py_index.
  set (j := if i <? 0 then i + len l else i).
  assert (Hj : 0 <= j < len l) by (subst j; destruct (Z.ltb_spec i 0); lia).
  destruct (Z.ltb_spec j 0); [lia|].
  destruct (nth_error l (Z.to_nat j)) eqn:Hn; [eauto|].
  apply nth_error_None in Hn. unfold len in *. lia.
Qed.

Lemma py_index_nonneg {A : Type} (l : list A) (i : Z) :
  0 <= i -> py_index l i = nth_error l (Z.to_nat i).
Proof.
  intros Hi. unfold py_index. destruct (Z.ltb_spec i 0); [lia|].
  destruct (Z.ltb_spec i 0); [lia | reflexivity].
Qed.

(** [l[-1]] is the last item. *)
Lemma py_index_last {A : Type} (l : list A) (x : A) :
  py_index l faiss.no_label = Some x ->
  exists i, nth_error l i = Some x /\ S i = length l.
Proof.
  unfold py_index, faiss.no_label, len. cbn [Z.ltb Z.compare].
  destruct (Z.ltb_spec (-1 + Z.of_nat (length l)) 0); [discriminate|]. intros Hx.
  exists (Z.to_nat (-1 + Z.of_nat (length l))). split; [exact Hx | lia].
Qed.

Lemma py_index_stored {A : Type} (l : list A) (i : Z) (x : A) :
  py_index l i = Some x -> exists j, nth_error l j = Some x.
Proof. unfold py_index. destruct (_ <? 0); [discriminate | eauto]. Qed.

(** Every result of the loop was there before or is made of a hit. *)
Lemma gather_sound (self : FaissVectorStore.t) (limit : Z) (source_filter : option str) :
  forall hits results found,
    FaissVectorStore.gather self limit source_filter hits results = Ok found ->
    forall r, In r found ->
      In r results
      \/ exists score idx m,
           In (score, idx) hits
           /\ py_index (FaissVectorStore.metadata self) idx = Some m
           /\ FaissVectorStore.filtered_out source_filter m = false
           /\ r = QueryResult.make m (f64.of_f32 score).
Proof.
  induction hits as [|[score idx] hits IH]; intros results found Hrun r Hr;
    cbn [FaissVectorStore.gather] in Hrun.
  - injection Hrun as <-. now left.
  - assert (Hlater : forall results',
              FaissVectorStore.gather self limit source_filter hits results' = Ok found ->
              (In r results' -> In r results
                 \/ exists score' idx' m,
                      In (score', idx') ((score, idx) :: hits)
                      /\ py_index (FaissVectorStore.metadata self) idx' = Some m
                      /\ FaissVectorStore.filtered_out source_filter m = false
                      /\ r = QueryResult.make m (f64.of_f32 score')) ->
              In r results
              \/ exists score' idx' m,
                   In (score', idx') ((score, idx) :: hits)
                   /\ py_index (FaissVectorStore.metadata self) idx' = Some m
                   /\ FaissVectorStore.filtered_out source_filter m = false
                   /\ r = QueryResult.make m (f64.of_f32 score')).
    { intros results' Hrun' Hold.
      destruct (IH _ _ Hrun' r Hr) as [Hin|(s' & i' & m' & Hin & Hrest)]; [auto|].
      right. exists s', i', m'. split; [now right | exact Hrest]. }
    destruct (idx <? len (FaissVectorStore.metadata self)); [|eapply Hlater; eauto].
    destruct (py_index _ idx) as [m|] eqn:Hm; [|discriminate].
    destruct (FaissVectorStore.filtered_out source_filter m) eqn:Hf;
      [eapply Hlater; eauto|].
    assert (Hnew : In r (results ++ [QueryResult.make m (f64.of_f32 score)]) ->
              In r results
              \/ exists score' idx' m,
                   In (score', idx') ((score, idx) :: hits)
                   /\ py_index (FaissVectorStore.metadata self) idx' = Some m
                   /\ FaissVectorStore.filtered_out source_filter m = false
                   /\ r = QueryResult.make m (f64.of_f32 score')).
    { intros Hin. apply in_app_or in Hin as [Hin|[<-|[]]]; [now left|].
      right. exists score, idx, m. repeat split; auto. now left. }
    destruct (_ >=? _).
    + injection Hrun as <-. auto.
    + eapply Hlater; eauto.
Qed.

Lemma py_index_nth {A : Type} (l : list A) (i : nat) (x : A) :
  py_index l (Z.of_nat i) = Some x -> nth_error l i = Some x.
Proof.
  unfold py_index. destruct (Z.ltb_spec (Z.of_nat i) 0); [lia|].
  destruct (Z.ltb_spec (Z.of_nat i) 0); [lia|]. now rewrite Nat2Z.id.
Qed.

(** X16.  Every result of [FaissVectorStore.search] is made of a stored
    entry.  Either the entry is the one of a stored row, and the score is a
    [float32] number above [-FLT_MAX], or the result fills a slot that no row
    has taken: it is then made of the last entry and of the score [-FLT_MAX],
    which is the inner product of no row.  A score is never NaN: a row whose
    score is NaN is not returned. *)
Theorem faiss_search_sound (self : FaissVectorStore.t) (query_embedding : list float)
    (limit : Z) (source_filter : option str) (r : QueryResult.t) :
  In r (FaissVectorStore.search self query_embedding limit source_filter) ->
  exists i m score,
    nth_error (FaissVectorStore.metadata self) i = Some m
    /\ r = QueryResult.make m (f64.of_f32 score)
    /\ is_nan score = false
    /\ ((i < length (faiss.xb (FaissVectorStore.index self)))%nat
        /\ SFltb faiss.lowest score = true
        \/ S i = length (FaissVectorStore.metadata self) /\ score = faiss.lowest).
Proof.
  unfold FaissVectorStore.search, FaissVectorStore.search_body.
  destruct (_ =? 0); [intros []|].
  destruct (faiss.search _ _ _) as [hits| |] eqn:Hhits; cbn [bind]; try (intros []).
  destruct (FaissVectorStore.gather _ _ _ _ _) as [found| |] eqn:Hrun; try (intros []).
  intros Hr.
  destruct (gather_sound _ _ _ _ _ _ Hrun r Hr) as [[]|(score & idx & m & Hin & Hm & _ & ->)].
  destruct (index_search_sound _ _ _ _ Hhits score idx Hin)
    as [(j & row & -> & Hrow & _ & Habove)|[-> ->]].
  - exists j, m, score. rewrite py_index_nonneg, Nat2Z.id in Hm by lia.
    split; [exact Hm|]. split; [reflexivity|].
    split; [now apply admitted_number in Habove|]. left.
    split; [apply nth_error_Some; congruence | exact Habove].
  - destruct (py_index_last _ _ Hm) as (i & Hi & Hlast).
    exists i, m, faiss.lowest. split; [exact Hi|]. split; [reflexivity|].
    split; [reflexivity|]. right. split; [exact Hlast | reflexivity].
Qed.

(** X17.  With a non-empty [source_filter], every result of
    [FaissVectorStore.search] has that source. *)
Theorem faiss_search_source_filter (self : FaissVectorStore.t)
    (query_embedding : list float) (limit : Z) (source : str) (r : QueryResult.t) :
  source <> [] ->
  In r (FaissVectorStore.search self query_embedding limit (Some source)) ->
  QueryResult.source r = source.
Proof.
  intros Hne. unfold FaissVectorStore.search, FaissVectorStore.search_body.
  destruct (_ =? 0); [intros []|].
  destruct (faiss.search _ _ _) as [hits| |] eqn:Hhits; cbn [bind]; try (intros []).
  destruct (FaissVectorStore.gather _ _ _ _ _) as [found| |] eqn:Hrun; try (intros []).
  intros Hr.
  destruct (gather_sound _ _ _ _ _ _ Hrun r Hr) as [[]|(score & idx & m & _ & _ & Hf & ->)].
  cbn [QueryResult.make QueryResult.source].
  unfold FaissVectorStore.filtered_out in Hf.
  destruct source; [congruence|]. cbn [truthy andb] in Hf.
  apply negb_false_iff in Hf. now apply bool_decide_eq_true in Hf.
Qed.

Lemma gather_count (self : FaissVectorStore.t) (limit : Z) :
  forall hits results,
    Forall (fun h => - len (FaissVectorStore.metadata self) <= snd h
                     < len (FaissVectorStore.metadata self)) hits ->
    len results < limit ->
    exists found,
      FaissVectorStore.gather self limit None hits results = Ok found
      /\ len found = Z.min limit (len results + len hits).
Proof.
  induction hits as [|[score idx] hits IH]; intros results Hhits Hlen;
    cbn [FaissVectorStore.gather].
  - exists results. split; [reflexivity|]. unfold len in *. simpl. lia.
  - inversion Hhits as [|? ? Hidx Hrest]; subst. cbn [snd] in Hidx.
    destruct (Z.ltb_spec idx (len (FaissVectorStore.metadata self))); [|lia].
    destruct (py_index_valid (FaissVectorStore.metadata self) idx Hidx) as [m ->].
    cbn [FaissVectorStore.filtered_out].
    assert (Hgrow : len (results ++ [QueryResult.make m (f64.of_f32 score)])
                    = len results + 1)
      by (unfold len; rewrite length_app; simpl; lia).
    assert (Hcons : len ((score, idx) :: hits) = 1 + len hits)
      by (unfold len; cbn [length]; lia).
    pose proof (len_nonneg hits).
    destruct (Z.geb_spec (len (results ++ [QueryResult.make m (f64.of_f32 score)])) limit).
    + eexists. split; [reflexivity|]. lia.
    + destruct (IH (results ++ [QueryResult.make m (f64.of_f32 score)]) Hrest ltac:(lia))
        as (found & -> & Hfound).
      exists found. split; [reflexivity|]. lia.
Qed.

(** X18.  Without a source filter, for a query of the dimension of the
    index and a limit of at least 1, [FaissVectorStore.search] on a
    consistent store returns exactly [min(limit, ntotal)] results. *)
Theorem faiss_search_count (self : FaissVectorStore.t) (query_embedding : list float)
    (limit : Z) :
  consistent self ->
  len query_embedding = faiss.d (FaissVectorStore.index self) ->
  1 <= limit ->
  len (FaissVectorStore.search self query_embedding limit None)
  = Z.min limit (faiss.ntotal (FaissVectorStore.index self)).
Proof.
  intros [Hcount Hrows] Hq Hlimit.
  unfold FaissVectorStore.search, FaissVectorStore.search_body.
  destruct (Z.eqb_spec (faiss.ntotal (FaissVectorStore.index self)) 0) as [->|Hne].
  { unfold len. simpl. lia. }
  fold (query_vector query_embedding).
  pose proof (len_nonneg (faiss.xb (FaissVectorStore.index self))) as Hn.
  fold (faiss.ntotal (FaissVectorStore.index self)) in Hn.
  set (k := Z.min (limit * 2) (faiss.ntotal (FaissVectorStore.index self))).
  destruct (faiss.search _ _ k) as [hits| |] eqn:Hhits.
  2,3: exfalso; revert Hhits; unfold faiss.search;
       assert (Hlen : len (query_vector query_embedding)
                      = faiss.d (FaissVectorStore.index self))
         by (unfold query_vector, np.divide, np.array, len in *;
             now rewrite !length_map);
       rewrite Hlen, Z.eqb_refl; cbn [negb];
       destruct (Z.gtb_spec k 0); [discriminate | subst k; lia].
  cbn [bind].
  assert (Hhlen : len hits = k).
  { unfold len. rewrite (index_search_length _ _ _ _ Hhits). subst k. lia. }
  assert (Hidx : Forall (fun h => - len (FaissVectorStore.metadata self) <= snd h
                                  < len (FaissVectorStore.metadata self)) hits).
  { apply List.Forall_forall. intros [score idx] Hin. cbn [snd]. rewrite <- Hcount.
    destruct (index_search_sound _ _ _ _ Hhits score idx Hin)
      as [(i & row & -> & Hrow & _)|[_ ->]].
    - assert (i < length (faiss.xb (FaissVectorStore.index self)))%nat
        by (apply nth_error_Some; congruence).
      unfold faiss.ntotal, len. lia.
    - unfold faiss.no_label. lia. }
  destruct (gather_count self limit hits [] Hidx) as (found & -> & Hfound).
  { unfold len. simpl. lia. }
  rewrite Hfound, Hhlen. unfold len at 1. simpl. subst k. lia.
Qed.

Lemma faiss_search_sound_witness :
  exists i m score,
    nth_error (FaissVectorStore.metadata axis_store) i = Some m
    /\ axis_result = QueryResult.make m (f64.of_f32 score)
    /\ is_nan score = false
    /\ ((i < length (faiss.xb (FaissVectorStore.index axis_store)))%nat
        /\ SFltb faiss.lowest score = true
        \/ S i = length (FaissVectorStore.metadata axis_store) /\ score = faiss.lowest).
Proof.
  apply (faiss_search_sound axis_store (spike 0 1) 1 None).
  vm_compute. left. reflexivity.
Defined.

Lemma faiss_search_source_filter_witness :
  QueryResult.source axis_result = lit "gita".
Proof.
  apply (faiss_search_source_filter axis_store (spike 0 1) 1 (lit "gita")).
  - discriminate.
  - vm_compute. left. reflexivity.
Defined.

Lemma consistent_new (dim : Z) : consistent (FaissVectorStore.new dim).
Proof. split; [reflexivity | constructor]. Qed.

Lemma faiss_search_count_witness :
  len (FaissVectorStore.search axis_store (spike 0 1) 3 None)
  = Z.min 3 (faiss.ntotal (FaissVectorStore.index axis_store)).
Proof.
  apply faiss_search_count.
  - apply consistent_add, consistent_new.
  - reflexivity.
  - lia.
Defined.

(** ** Writes of the managed backend *)

Lemma build_points_key_error (documents : list Document.t) :
  Exists (fun doc => Document.embedding doc = None \/ Document.text doc = None) documents ->
  forall i, VectorStore.build_points i documents = Raise KeyError.
Proof.
  induction 1 as [doc rest Hdoc|doc rest _ IH]; intros i; cbn [VectorStore.build_points].
  - destruct Hdoc as [-> | ->]; [reflexivity|].
    now destruct (Document.embedding doc).
  - destruct (Document.embedding doc); [|reflexivity].
    destruct (Document.text doc); [|reflexivity].
    now rewrite IH.
Qed.

(** X19.  On an available managed store, a batch with a document that
    lacks its text or its embedding raises [KeyError] and uploads nothing.
    (The local backend skips such a document.) *)
Theorem qdrant_add_documents_key_error (self : VectorStore.t)
    (documents : list Document.t) :
  VectorStore.is_available self = true ->
  Exists (fun doc => Document.embedding doc = None \/ Document.text doc = None) documents ->
  VectorStore.add_documents self documents = (self, Some KeyError).
Proof.
  intros Havail Hsome. unfold VectorStore.add_documents. rewrite Havail. cbn [negb].
  now rewrite build_points_key_error.
Qed.

Lemma fold_put_outside (batch : list qdrant.PointStruct) (k : Z) :
  forall c, (forall p, In p batch -> qdrant.id p <> k) ->
    fold_left qdrant.put batch c !! k = c !! k.
Proof.
  induction batch as [|p batch IH]; intros c Hids; [reflexivity|].
  cbn [fold_left]. rewrite IH by (intros q Hq; apply Hids; now right).
  unfold qdrant.put. apply lookup_insert_ne. apply Hids. now left.
Qed.

Lemma py_slice_In {A : Type} (l : list A) (i j : Z) (x : A) :
  In x (py_slice l i j) -> In x l.
Proof.
  intros Hin. destruct (py_slice_of_list l i j) as (pre & post & Hl).
  rewrite Hl. apply in_or_app. right. apply in_or_app. now left.
Qed.

Lemma upload_outside (points : list qdrant.PointStruct) (k : Z) :
  (forall p, In p points -> qdrant.id p <> k) ->
  forall starts c err,
    fst (fold_left (VectorStore.upload_batch points) starts (c, err)) !! k = c !! k.
Proof.
  intros Hids. induction starts as [|i starts IH]; intros c err; [reflexivity|].
  cbn [fold_left]. unfold VectorStore.upload_batch at 2.
  destruct err as [e|]; [apply IH|]. unfold qdrant.upsert.
  destruct (forallb _ _); [|apply IH].
  rewrite IH. apply fold_put_outside.
  intros p Hp. apply Hids. eapply py_slice_In. exact Hp.
Qed.

(** X20.  [VectorStore.add_documents] touches only the ids
    [0 .. len(documents) - 1], whether it succeeds or raises. *)
Theorem qdrant_add_documents_frame (self : VectorStore.t)
    (documents : list Document.t) (k : Z) :
  k < 0 \/ len documents <= k ->
  VectorStore.points (fst (VectorStore.add_documents self documents)) !! k
  = VectorStore.points self !! k.
Proof.
  intros Hk. unfold VectorStore.add_documents.
  destruct (negb (VectorStore.is_available self)); [reflexivity|].
  destruct (VectorStore.build_points 0 documents) as [points| |] eqn:Hbuild;
    [|reflexivity|reflexivity].
  destruct (build_points_spec documents 0 points Hbuild) as [Hlen Hnth].
  pose proof (upload_outside points k) as Hout.
  unfold VectorStore.upload.
  destruct (fold_left _ _ _) as [c err] eqn:Hup. cbn [fst VectorStore.points].
  specialize (Hout ltac:(
    intros p Hp; apply In_nth_error in Hp as [j Hj];
    assert (j < length documents)%nat
      by (rewrite <- Hlen; apply nth_error_Some; congruence);
    destruct (nth_error documents j) as [d|] eqn:Hd;
      [|apply nth_error_None in Hd; lia];
    destruct (Hnth j d Hd) as (q & Hq & Hid & _);
    assert (q = p) by congruence; subst q; unfold len in Hk; lia)
    (range_step (len points) VectorStore.batch_size) (VectorStore.points self) None).
  now rewrite Hup in Hout.
Qed.

Lemma qdrant_add_documents_frame_witness :
  VectorStore.points
    (fst (VectorStore.add_documents available
            [document "dharma is duty" "gita" "2" "47" (spike 0 3)])) !! 1
  = VectorStore.points available !! 1.
Proof. apply qdrant_add_documents_frame. right. vm_compute. discriminate. Defined.

Lemma build_points_storable (documents : list Document.t) :
  Forall storable documents ->
  forall i, exists points,
    VectorStore.build_points i documents = Ok points
    /\ Forall (fun p => len (qdrant.vector p) = qdrant.size) points.
Proof.
  induction 1 as [|doc rest [Htext (e & He & Hlen)] _ IH]; intros i;
    cbn [VectorStore.build_points].
  - exists []. split; [reflexivity | constructor].
  - rewrite He. destruct (Document.text doc); [|congruence].
    destruct (IH (i + 1)) as (points & -> & Hall). cbn [bind].
    eexists. split; [reflexivity|]. constructor; [exact Hlen | exact Hall].
Qed.

Lemma upload_accepts (points : list qdrant.PointStruct) :
  Forall (fun p => len (qdrant.vector p) = qdrant.size) points ->
  forall starts c,
    snd (fold_left (VectorStore.upload_batch points) starts (c, None)) = None.
Proof.
  intros Hall. induction starts as [|i starts IH]; intros c; [reflexivity|].
  cbn [fold_left]. unfold VectorStore.upload_batch at 2. unfold qdrant.upsert.
  assert (Hbatch : forallb (fun p => len (qdrant.vector p) =? qdrant.size)
                     (py_slice points i (i + VectorStore.batch_size)) = true).
  { apply forallb_forall. intros p Hp. apply py_slice_In in Hp.
    rewrite List.Forall_forall in Hall. apply Z.eqb_eq. now apply Hall. }
  rewrite Hbatch. apply IH.
Qed.

Lemma fold_put_size (points : list qdrant.PointStruct) :
  (forall j p, nth_error points j = Some p -> qdrant.id p = Z.of_nat j) ->
  size (fold_left qdrant.put points (∅ : gmap Z qdrant.PointStruct)) = length points.
Proof.
  induction points as [|p points IH] using rev_ind; intros Hids; [reflexivity|].
  rewrite fold_left_app. cbn [fold_left]. unfold qdrant.put at 1.
  assert (Hp : qdrant.id p = Z.of_nat (length points)).
  { apply Hids. rewrite nth_error_app2 by lia. now rewrite Nat.sub_diag. }
  rewrite map_size_insert_None.
  - rewrite IH, length_app; [simpl; lia|].
    intros j q Hq. apply Hids. rewrite nth_error_app1; [exact Hq|].
    apply nth_error_Some. congruence.
  - rewrite (fold_put_lookup points 0).
    + rewrite Hp. unfold len.
      destruct (Z.ltb_spec (Z.of_nat (length points)) (0 + Z.of_nat (length points)));
        [lia|]. rewrite andb_false_r. apply lookup_empty.
    + intros j q Hq. rewrite Z.add_0_l. apply Hids.
      rewrite nth_error_app1; [exact Hq|]. apply nth_error_Some. congruence.
Qed.

(** X21.  On an available, empty collection a batch of documents that all
    have a text and an embedding of size 1024 is accepted, and the
    collection then holds as many points as the batch has documents. *)
Theorem qdrant_add_documents_fresh (self : VectorStore.t)
    (documents : list Document.t) :
  VectorStore.is_available self = true ->
  VectorStore.points self = ∅ ->
  Forall storable documents ->
  let after := VectorStore.add_documents self documents in
  snd after = None /\ VectorStore.points_count (fst after) = len documents.
Proof.
  intros Havail Hempty Hall. cbv zeta. unfold VectorStore.add_documents.
  rewrite Havail. cbn [negb].
  destruct (build_points_storable documents Hall 0) as (points & Hbuild & Hsizes).
  rewrite Hbuild.
  destruct (build_points_spec documents 0 points Hbuild) as [Hlen Hnth].
  pose proof (upload_accepts points Hsizes
                (range_step (len points) VectorStore.batch_size)
                (VectorStore.points self)) as Hnone.
  fold (VectorStore.upload (VectorStore.points self) points) in Hnone.
  destruct (VectorStore.upload (VectorStore.points self) points) as [c err] eqn:Hup.
  cbn [snd fst] in *. subst err. split; [reflexivity|].
  apply upload_spec in Hup. subst c. rewrite Hempty.
  unfold VectorStore.points_count. cbn [VectorStore.is_available negb VectorStore.points].
  rewrite fold_put_size; [unfold len; now rewrite Hlen|].
  intros j p Hp.
  assert (j < length documents)%nat
    by (rewrite <- Hlen; apply nth_error_Some; congruence).
  destruct (nth_error documents j) as [d|] eqn:Hd; [|apply nth_error_None in Hd; lia].
  destruct (Hnth j d Hd) as (q & Hq & Hid & _). assert (q = p) by congruence. subst q. lia.
Qed.

Lemma qdrant_add_documents_key_error_witness :
  VectorStore.add_documents available [unembedded] = (available, Some KeyError).
Proof.
  apply qdrant_add_documents_key_error; [reflexivity|].
  constructor. left. reflexivity.
Defined.

Lemma qdrant_add_documents_fresh_witness :
  let after := VectorStore.add_documents available
                 [document "dharma is duty" "gita" "2" "47" (spike 0 3)] in
  snd after = None /\ VectorStore.points_count (fst after) = 1.
Proof.
  apply (qdrant_add_documents_fresh available); [reflexivity | reflexivity |].
  constructor; [|constructor].
  split; [discriminate|]. eexists. split; reflexivity.
Defined.

Lemma py_slice_nth {A : Type} (l : list A) (i : Z) (x : A) :
  0 <= i -> In x (py_slice l i (i + VectorStore.batch_size)) ->
  exists j, (Z.to_nat i <= j)%nat /\ nth_error l j = Some x.
Proof.
  intros Hi Hin. unfold VectorStore.batch_size in Hin.
  rewrite py_slice_window in Hin by lia.
  apply firstn_In, In_nth_error in Hin as [j Hj].
  rewrite nth_error_skipn in Hj. exists (Z.to_nat i + j)%nat. split; [lia | exact Hj].
Qed.

Lemma upload_raises (points : list qdrant.PointStruct) (j : nat) (p : qdrant.PointStruct) :
  nth_error points j = Some p -> len (qdrant.vector p) <> qdrant.size ->
  forall starts c err,
    In (Z.of_nat (j / 100) * VectorStore.batch_size) starts ->
    exists c',
      fold_left (VectorStore.upload_batch points) starts (c, err) = (c', Some ServiceError)
      \/ exists e, err = Some e
                   /\ fold_left (VectorStore.upload_batch points) starts (c, err) = (c, Some e).
Proof.
  intros Hp Hsize. induction starts as [|i starts IH]; intros c err Hin; [destruct Hin|].
  destruct err as [e|].
  { exists c. right. exists e. split; [reflexivity | apply upload_error_sticks]. }
  cbn [fold_left]. unfold VectorStore.upload_batch at 2. unfold qdrant.upsert.
  destruct (forallb _ _) eqn:Hbatch.
  - destruct Hin as [Hi|Hin].
    + exfalso. rewrite forallb_forall in Hbatch.
      specialize (Hbatch p). rewrite Z.eqb_eq in Hbatch. apply Hsize, Hbatch.
      subst i. unfold VectorStore.batch_size. rewrite py_slice_window by lia.
      pose proof (Nat.div_mod_eq j 100) as Hdm.
      pose proof (Nat.mod_upper_bound j 100 ltac:(lia)) as Hmod.
      replace (Z.to_nat (Z.of_nat (j / 100) * 100 + 100 - Z.of_nat (j / 100) * 100))
        with 100%nat by lia.
      replace (Z.to_nat (Z.of_nat (j / 100) * 100)) with (100 * (j / 100))%nat by lia.
      apply (nth_error_In _ (j mod 100)).
      rewrite nth_error_firstn.
      destruct (Nat.ltb_spec (j mod 100) 100); [|lia].
      rewrite nth_error_skipn. now rewrite <- Hdm.
    + destruct (IH (fold_left qdrant.put
                      (py_slice points i (i + VectorStore.batch_size)) c) None Hin)
        as [c' [Hrun|(e & He & _)]]; [|discriminate].
      exists c'. now left.
  - exists c. left. apply upload_error_sticks.
Qed.

Lemma upload_keeps_first (points : list qdrant.PointStruct) (k : Z) :
  (forall j p, nth_error points j = Some p -> qdrant.id p = Z.of_nat j) ->
  0 <= k < 100 ->
  forall starts c err,
    Forall (fun i => 100 <= i) starts ->
    fst (fold_left (VectorStore.upload_batch points) starts (c, err)) !! k = c !! k.
Proof.
  intros Hids Hk. induction starts as [|i starts IH]; intros c err Hstarts; [reflexivity|].
  inversion Hstarts as [|? ? Hi Hrest]; subst.
  cbn [fold_left]. unfold VectorStore.upload_batch at 2.
  destruct err as [e|]; [now apply IH|]. unfold qdrant.upsert.
  destruct (forallb _ _); [|now apply IH].
  rewrite IH by assumption. apply fold_put_outside.
  intros p Hp. apply py_slice_nth in Hp as (j & Hj & Hnth); [|lia].
  rewrite (Hids j p Hnth). lia.
Qed.

(** X22.  [VectorStore.add_documents] is not all-or-nothing: when the
    first hundred documents are storable and a later one has an embedding of
    the wrong size, the call raises and the first batch stays stored: each
    of its documents has a point under its number, with the document's fields
    as payload. *)
Theorem qdrant_add_documents_partial (self : VectorStore.t)
    (documents : list Document.t) (j : nat) (bad : Document.t) (e : list float) :
  VectorStore.is_available self = true ->
  Forall (fun doc => Document.text doc <> None /\ Document.embedding doc <> None)
    documents ->
  Forall storable (firstn 100 documents) ->
  nth_error documents j = Some bad ->
  Document.embedding bad = Some e -> len e <> qdrant.size ->
  let after := VectorStore.add_documents self documents in
  snd after = Some ServiceError
  /\ forall i doc,
       (i < 100)%nat -> nth_error documents i = Some doc ->
       exists p,
         VectorStore.points (fst after) !! Z.of_nat i = Some p
         /\ qdrant.id p = Z.of_nat i
         /\ qdrant.payload p = Entry.of_doc doc.
Proof.
  intros Havail Hkeys Hfirst Hbad Hemb Hsize. cbv zeta.
  unfold VectorStore.add_documents. rewrite Havail. cbn [negb].
  assert (Hbuild : exists points, VectorStore.build_points 0 documents = Ok points).
  { clear -Hkeys. generalize 0. induction Hkeys as [|doc rest [Ht He] _ IH]; intros i;
      cbn [VectorStore.build_points]; [eauto|].
    destruct (Document.embedding doc); [|congruence].
    destruct (Document.text doc); [|congruence].
    destruct (IH (i + 1)) as [points ->]. cbn [bind]. eauto. }
  destruct Hbuild as [points Hbuild]. rewrite Hbuild.
  destruct (build_points_spec documents 0 points Hbuild) as [Hlen Hnth].
  assert (Hids : forall i p, nth_error points i = Some p -> qdrant.id p = Z.of_nat i).
  { intros i p Hp.
    assert (i < length documents)%nat
      by (rewrite <- Hlen; apply nth_error_Some; congruence).
    destruct (nth_error documents i) as [d|] eqn:Hd; [|apply nth_error_None in Hd; lia].
    destruct (Hnth i d Hd) as (q & Hq & Hid & _). assert (q = p) by congruence.
    subst q. lia. }
  destruct (Hnth j bad Hbad) as (pbad & Hpbad & _ & Hvec & _).
  assert (Hpsize : len (qdrant.vector pbad) <> qdrant.size) by congruence.
  assert (Hj : (100 <= j)%nat).
  { destruct (Nat.lt_ge_cases j 100) as [Hlt|]; [|assumption]. exfalso.
    rewrite List.Forall_forall in Hfirst.
    destruct (Hfirst bad) as [_ (e' & He' & Hlen')]; [|congruence].
    apply (nth_error_In _ j). rewrite nth_error_firstn.
    destruct (Nat.ltb_spec j 100); [exact Hbad | lia]. }
  assert (Hjlt : (j < length points)%nat) by (apply nth_error_Some; congruence).
  assert (Hup : exists c',
            VectorStore.upload (VectorStore.points self) points = (c', Some ServiceError)
            /\ forall k, 0 <= k < 100 ->
                 c' !! k
                 = fold_left qdrant.put (firstn 100 points) (VectorStore.points self) !! k).
  { unfold VectorStore.upload, range_step, VectorStore.batch_size.
    set (m := Z.to_nat ((len points + 100 - 1) / 100)).
    assert (Hm : (j / 100 < m)%nat).
    { subst m. unfold len.
      pose proof (Nat.div_mod_eq j 100). pose proof (Nat.mod_upper_bound j 100 ltac:(lia)).
      assert (Z.of_nat (j / 100) < (Z.of_nat (length points) + 100 - 1) / 100); [|lia].
      apply Z.lt_le_trans with ((Z.of_nat (j / 100) * 100 + 100) / 100).
      - rewrite Z.div_add_l by lia. replace (100 / 100) with 1 by reflexivity. lia.
      - apply Z.div_le_mono; lia. }
    destruct m as [|m'] eqn:Hm'; [lia|].
    cbn [seq List.map fold_left]. change (Z.of_nat 0 * 100) with 0.
    unfold VectorStore.upload_batch at 2. unfold qdrant.upsert, VectorStore.batch_size.
    assert (Hslice0 : py_slice points 0 (0 + 100) = firstn 100 points).
    { rewrite py_slice_window by lia. now rewrite skipn_O. }
    rewrite Hslice0.
    assert (Hbatch0 : forallb (fun p => len (qdrant.vector p) =? qdrant.size)
                        (firstn 100 points) = true).
    { apply forallb_forall. intros p Hp. apply In_nth_error in Hp as [i Hi].
      rewrite nth_error_firstn in Hi.
      destruct (Nat.ltb_spec i 100) as [Hi100|]; [|discriminate].
      assert (i < length documents)%nat
        by (rewrite <- Hlen; apply nth_error_Some; congruence).
      destruct (nth_error documents i) as [d|] eqn:Hd; [|apply nth_error_None in Hd; lia].
      destruct (Hnth i d Hd) as (q & Hq & _ & Hqe & _). assert (q = p) by congruence.
      subst q. rewrite List.Forall_forall in Hfirst.
      destruct (Hfirst d) as [_ (e' & He' & Hlen')].
      { apply (nth_error_In _ i). rewrite nth_error_firstn.
        destruct (Nat.ltb_spec i 100); [exact Hd | lia]. }
      apply Z.eqb_eq. congruence. }
    rewrite Hbatch0.
    set (c1 := fold_left qdrant.put (firstn 100 points) (VectorStore.points self)).
    set (starts := List.map (fun k => Z.of_nat k * 100) (seq 1 m')).
    assert (Hstarts : Forall (fun i => 100 <= i) starts).
    { subst starts. apply List.Forall_forall. intros i Hi.
      apply in_map_iff in Hi as (k & <- & Hk). apply in_seq in Hk. lia. }
    assert (Hin : In (Z.of_nat (j / 100) * VectorStore.batch_size) starts).
    { subst starts. apply in_map_iff. exists (j / 100)%nat. split; [reflexivity|].
      apply in_seq.
      pose proof (Nat.div_le_lower_bound j 100 1 ltac:(lia) ltac:(lia)). lia. }
    destruct (upload_raises points j pbad Hpbad Hpsize starts c1 None Hin)
      as [c' [Hrun|(e' & He' & _)]]; [|discriminate].
    exists c'. split; [exact Hrun|]. intros k Hk.
    pose proof (upload_keeps_first points k Hids Hk starts c1 None Hstarts) as Hkeep.
    now rewrite Hrun in Hkeep. }
  destruct Hup as (c' & -> & Hkeep). cbn [fst snd VectorStore.points].
  split; [reflexivity|].
  intros i doc Hi Hdoc.
  destruct (Hnth i doc Hdoc) as (p & Hp & Hpid & _ & Hpay).
  exists p. split; [|split; [lia | assumption]].
  rewrite Hkeep by lia.
  rewrite (fold_put_lookup (firstn 100 points) 0).
  2:{ intros i' q Hq. rewrite nth_error_firstn in Hq.
      destruct (Nat.ltb_spec i' 100); [|discriminate]. rewrite (Hids i' q Hq). lia. }
  assert (Hfl : len (firstn 100 points) = 100).
  { unfold len. rewrite length_firstn. lia. }
  rewrite Hfl.
  destruct (Z.leb_spec 0 (Z.of_nat i)); [|lia].
  destruct (Z.ltb_spec (Z.of_nat i) (0 + 100)); [|lia]. cbn [andb].
  rewrite Z.sub_0_r, Nat2Z.id, nth_error_firstn.
  destruct (Nat.ltb_spec i 100); [exact Hp | lia].
Qed.

Lemma qdrant_add_documents_partial_witness :
  let after := VectorStore.add_documents available overfull_batch in
  snd after = Some ServiceError
  /\ forall i doc,
       (i < 100)%nat -> nth_error overfull_batch i = Some doc ->
       exists p,
         VectorStore.points (fst after) !! Z.of_nat i = Some p
         /\ qdrant.id p = Z.of_nat i
         /\ qdrant.payload p = Entry.of_doc doc.
Proof.
  apply (qdrant_add_documents_partial available overfull_batch 100
           (document "the self is eternal" "gita" "2" "20" []) []).
  - reflexivity.
  - apply Forall_app. split.
    + apply List.Forall_forall. intros doc Hdoc. apply repeat_spec in Hdoc.
      subst doc. split; discriminate.
    + constructor; [split; discriminate | constructor].
  - change (firstn 100 overfull_batch)
      with (repeat (document "dharma is duty" "gita" "2" "47" (spike 0 3)) 100).
    apply List.Forall_forall. intros doc Hdoc. apply repeat_spec in Hdoc. subst doc.
    split; [discriminate|]. eexists. split; reflexivity.
  - reflexivity.
  - reflexivity.
  - vm_compute. discriminate.
Defined.

(** ** The gate, the answers and the database *)

Lemma hindu_keywords_lowercase :
  forallb lowercase_ascii RAGService.hindu_keywords = true.
Proof. vm_compute. reflexivity. Qed.

(** X23.  A question that contains a domain keyword, as written or in any
    capitalisation, and none of the off-topic keywords passes the gate. *)
Theorem gate_accepts `{Unicode} (question keyword : str) :
  In keyword RAGService.hindu_keywords ->
  contains keyword question = true \/ contains keyword (lower question) = true ->
  RAGService.any_in RAGService.modern_keywords (lower question) = false ->
  RAGService._is_hindu_text_related question = true.
Proof.
  intros Hkw Hin Hmodern. unfold RAGService._is_hindu_text_related.
  rewrite Hmodern.
  assert (Hlow : contains keyword (lower question) = true).
  { destruct Hin as [Hin|]; [|assumption]. apply contains_lower; [|assumption].
    pose proof hindu_keywords_lowercase as Hall.
    rewrite forallb_forall in Hall. now apply Hall. }
  assert (Hany : RAGService.any_in RAGService.hindu_keywords (lower question) = true).
  { unfold RAGService.any_in. apply existsb_exists. eauto. }
  now rewrite Hany.
Qed.

Lemma gate_accepts_witness :
  @RAGService._is_hindu_text_related caseless (lit "Who taught DHARMA to Arjuna?") = true.
Proof.
  apply (@gate_accepts caseless _ (lit "dharma")).
  - vm_compute. tauto.
  - right. vm_compute. reflexivity.
  - vm_compute. reflexivity.
Defined.

(** X24.  [search_and_answer] never consults the embeddings endpoint: two
    clients that agree on the chat endpoint give the same answer. *)
Theorem search_and_answer_embeddings_api_unused `{Unicode} `{qdrant.Service}
    (one other : APIClient.Services)
    (self : RAGService.t) (question : str) (source_filter : option str) :
  (forall q context,
     @APIClient.openrouter_chat one q context = @APIClient.openrouter_chat other q context) ->
  @RAGService.search_and_answer _ one _ self question source_filter
  = @RAGService.search_and_answer _ other _ self question source_filter.
Proof.
  intros Hchat. unfold RAGService.search_and_answer, APIClient.get_embedding.
  cbn [negb].
  destruct (RAGService._is_hindu_text_related question); [|reflexivity]. cbn [negb].
  destruct (APIClient._get_embedding_openrouter _) as [question_embedding|e|];
    [|reflexivity|reflexivity].
  destruct (RAGService.store_search self question_embedding 20 source_filter);
    [reflexivity|].
  cbn [truthy negb]. unfold APIClient.generate_answer. now rewrite Hchat.
Qed.

Lemma search_and_answer_embeddings_api_unused_witness :
  @RAGService.search_and_answer caseless flaky silent
    (RAGService.new unavailable axis_store) (lit "What is dharma?") None
  = @RAGService.search_and_answer caseless offline silent
      (RAGService.new unavailable axis_store) (lit "What is dharma?") None.
Proof. apply search_and_answer_embeddings_api_unused. reflexivity. Defined.

(** X25.  With an empty local index [search_and_answer] returns one of its
    three canned messages with confidence 0.0 and no context: the chat
    endpoint is not asked. *)
Theorem search_and_answer_empty_index `{Unicode} `{APIClient.Services} `{qdrant.Service}
    (self : RAGService.t) (store : FaissVectorStore.t)
    (question : str) (source_filter : option str) :
  RAGService.vector_store self = RAGService.Faiss store ->
  faiss.ntotal (FaissVectorStore.index store) = 0 ->
  exists a,
    RAGService.search_and_answer self question source_filter = Ok a
    /\ In (RAGService.answer a)
         [RAGService.off_topic_message; RAGService.no_information_message;
          RAGService.failure_message]
    /\ RAGService.confidence a = RAGService.zero
    /\ RAGService.context_used a = None.
Proof.
  intros Hstore Hempty. unfold RAGService.search_and_answer.
  destruct (RAGService._is_hindu_text_related question); cbn [negb].
  2:{ eexists. split; [reflexivity|]. cbn. auto. }
  pose proof (hash_embedding_cases (TextNormalizer.normalize_query question)) as Hloop.
  unfold APIClient.get_embedding. cbn [negb].
  destruct (APIClient._get_embedding_openrouter _) as [question_embedding|e|].
  - unfold RAGService.store_search. rewrite Hstore.
    rewrite faiss_search_empty by assumption. cbn [truthy negb].
    eexists. split; [reflexivity|]. cbn. auto.
  - eexists. split; [reflexivity|]. cbn. auto.
  - destruct Hloop.
Qed.

Lemma search_and_answer_empty_index_witness :
  exists a,
    @RAGService.search_and_answer caseless offline silent
      (RAGService.new unavailable (FaissVectorStore.new 1024))
      (lit "What is dharma?") None = Ok a
    /\ In (RAGService.answer a)
         [RAGService.off_topic_message; RAGService.no_information_message;
          RAGService.failure_message]
    /\ RAGService.confidence a = RAGService.zero
    /\ RAGService.context_used a = None.
Proof.
  apply (@search_and_answer_empty_index caseless offline silent _
           (FaissVectorStore.new 1024)); reflexivity.
Defined.

Lemma py_index_In {A : Type} (l : list A) (i : Z) (x : A) :
  py_index l i = Some x -> In x l.
Proof.
  unfold py_index. destruct (_ <? 0); [discriminate|]. apply nth_error_In.
Qed.

(** X26.  [search_by_verse] always returns; on the local backend a verse
    it reports as found is a stored entry whose [verse_id] is
    [chapter.verse]. *)
Theorem search_by_verse_sound `{APIClient.Services} `{qdrant.Service}
    (self : RAGService.t) (store : FaissVectorStore.t) (chapter verse : str) :
  RAGService.vector_store self = RAGService.Faiss store ->
  exists a,
    RAGService.search_by_verse self chapter verse = Ok a
    /\ (RAGService.found a = true ->
        exists r m,
          RAGService.verse_fields a = Some r
          /\ In m (FaissVectorStore.metadata store)
          /\ r = QueryResult.make m (QueryResult.score r)
          /\ verse_id_of m = Some (chapter ++ lit "." ++ verse))
    /\ (RAGService.found a = false -> RAGService.verse_fields a = None).
Proof.
  intros Hstore. unfold RAGService.search_by_verse.
  pose proof (hash_embedding_cases
                (lit "chapter " ++ chapter ++ lit " verse " ++ verse)) as Hloop.
  unfold APIClient.get_embedding. cbn [negb].
  destruct (APIClient._get_embedding_openrouter _) as [query_embedding|e|];
    [|eexists; split; [reflexivity|]; split; [discriminate | reflexivity]
     |destruct Hloop].
  unfold RAGService.store_search. rewrite Hstore.
  destruct (List.filter _ _) as [|r rest] eqn:Hfilter;
    [eexists; split; [reflexivity|]; split; [discriminate | reflexivity]|].
  eexists. split; [reflexivity|]. split; [|discriminate]. intros _.
  assert (Hr : In r (List.filter
                       (fun result =>
                          bool_decide
                            (RAGService.metadata_get (lit "verse_id")
                               (QueryResult.metadata result)
                             = Some (chapter ++ lit "." ++ verse)))
                       (FaissVectorStore.search store query_embedding 50 None)))
    by (rewrite Hfilter; now left).
  apply filter_In in Hr as [Hin Hid]. apply bool_decide_eq_true in Hid.
  revert Hin. unfold FaissVectorStore.search, FaissVectorStore.search_body.
  destruct (_ =? 0); [intros []|].
  destruct (faiss.search _ _ _) as [hits| |]; cbn [bind]; try (intros []).
  destruct (FaissVectorStore.gather _ _ _ _ _) as [found| |] eqn:Hrun; try (intros []).
  intros Hin.
  destruct (gather_sound _ _ _ _ _ _ Hrun r Hin)
    as [[]|(score & idx & m & _ & Hm & _ & ->)].
  exists (QueryResult.make m (f64.of_f32 score)), m.
  repeat split; [now apply py_index_In in Hm | exact Hid].
Qed.

Lemma insert_desc_keeps (h x : float32 * Z) (l : list (float32 * Z)) :
  x = h \/ In x l -> In x (faiss.insert_desc h l).
Proof.
  induction l as [|h' l IH]; cbn [faiss.insert_desc].
  - intros [->|[]]. now left.
  - destruct (SFltb (fst h) (fst h')).
    + intros [->|[->|Hin]]; [right; apply IH; now left | now left
                             | right; apply IH; now right].
    + intros [->|Hin]; [now left | now right].
Qed.

Lemma rank_keeps (x : float32 * Z) (hits : list (float32 * Z)) :
  In x hits -> In x (faiss.rank hits).
Proof.
  induction hits as [|h hits IH]; [intros []|].
  unfold faiss.rank. cbn [fold_right]. fold (faiss.rank hits).
  intros [->|Hin]; apply insert_desc_keeps; [now left | right; auto].
Qed.

Lemma scored_rows_keeps (q : list float32) (xb : list (list float32)) :
  forall start i row,
    nth_error xb i = Some row ->
    In (np.dot q row, Z.of_nat (start + i))
       (combine (List.map (np.dot q) xb) (List.map Z.of_nat (seq start (length xb)))).
Proof.
  induction xb as [|row' xb IH]; intros start [|i] row Hrow; try discriminate;
    cbn [List.map length seq combine nth_error] in *.
  - injection Hrow as ->. left. now rewrite Nat.add_0_r.
  - right. replace (start + S i)%nat with (S start + i)%nat by lia. now apply IH.
Qed.

(** Hits that fit within the limit are all gathered. *)
Lemma gather_complete (self : FaissVectorStore.t) (limit : Z) :
  forall hits results,
    Forall (fun h => - len (FaissVectorStore.metadata self) <= snd h
                     < len (FaissVectorStore.metadata self)) hits ->
    len results + len hits <= limit ->
    exists found,
      FaissVectorStore.gather self limit None hits results = Ok found
      /\ (forall r, In r results -> In r found)
      /\ forall score idx m,
           In (score, idx) hits -> 0 <= idx ->
           nth_error (FaissVectorStore.metadata self) (Z.to_nat idx) = Some m ->
           In (QueryResult.make m (f64.of_f32 score)) found.
Proof.
  induction hits as [|[score idx] hits IH]; intros results Hhits Hlen;
    cbn [FaissVectorStore.gather].
  - exists results. split; [reflexivity|]. split; [auto|]. intros ? ? ? [].
  - inversion Hhits as [|? ? Hidx Hrest]; subst. cbn [snd] in Hidx.
    destruct (Z.ltb_spec idx (len (FaissVectorStore.metadata self))); [|lia].
    destruct (py_index_valid (FaissVectorStore.metadata self) idx Hidx) as [m Hm].
    rewrite Hm. cbn [FaissVectorStore.filtered_out].
    set (results' := results ++ [QueryResult.make m (f64.of_f32 score)]).
    assert (Hgrow : len results' = len results + 1)
      by (subst results'; unfold len; rewrite length_app; simpl; lia).
    assert (Hcons : len ((score, idx) :: hits) = 1 + len hits)
      by (unfold len; cbn [length]; lia).
    assert (Hsame : forall m', 0 <= idx ->
              nth_error (FaissVectorStore.metadata self) (Z.to_nat idx) = Some m' ->
              m' = m).
    { intros m' Hpos Hm'. rewrite py_index_nonneg in Hm by assumption. congruence. }
    destruct (Z.geb_spec (len results') limit).
    + assert (hits = []) as ->.
      { destruct hits; [reflexivity|]. unfold len in *. cbn [length] in *. lia. }
      exists results'. split; [reflexivity|]. split.
      * intros r Hr. subst results'. apply in_or_app. now left.
      * intros s i m' [Heq|[]] Hpos Hm'. injection Heq as <- <-.
        rewrite (Hsame m' Hpos Hm').
        subst results'. apply in_or_app. right. now left.
    + destruct (IH results' Hrest ltac:(lia)) as (found & -> & Hold & Hnew).
      exists found. split; [reflexivity|]. split.
      * intros r Hr. apply Hold. subst results'. apply in_or_app. now left.
      * intros s i m' [Heq|Hin] Hpos Hm'.
        -- injection Heq as <- <-. rewrite (Hsame m' Hpos Hm').
           apply Hold. subst results'. apply in_or_app. right. now left.
        -- eapply Hnew; eauto.
Qed.

Lemma filter_length {A : Type} (f : A -> bool) (l : list A) :
  (length (List.filter f l) <= length l)%nat.
Proof.
  induction l as [|x l IH]; [reflexivity|]. cbn [List.filter].
  destruct (f x); cbn [length]; lia.
Qed.

(** A search whose limit covers the whole index returns every entry whose
    row the index admits. *)
Lemma faiss_search_all (self : FaissVectorStore.t) (query_embedding : list float)
    (limit : Z) (i : nat) (m : Entry.t) (row : list float32) :
  consistent self ->
  len query_embedding = faiss.d (FaissVectorStore.index self) ->
  faiss.ntotal (FaissVectorStore.index self) <= limit ->
  nth_error (FaissVectorStore.metadata self) i = Some m ->
  nth_error (faiss.xb (FaissVectorStore.index self)) i = Some row ->
  faiss.admitted (np.dot (query_vector query_embedding) row, Z.of_nat i) = true ->
  In (QueryResult.make m (f64.of_f32 (np.dot (query_vector query_embedding) row)))
     (FaissVectorStore.search self query_embedding limit None).
Proof.
  intros [Hcount Hrows] Hq Hlimit Hi Hrow Hadm.
  assert (Hilt : (i < length (FaissVectorStore.metadata self))%nat)
    by (apply nth_error_Some; congruence).
  unfold FaissVectorStore.search, FaissVectorStore.search_body.
  unfold faiss.ntotal, len in Hcount, Hlimit. unfold faiss.ntotal, len at 1.
  destruct (Z.eqb_spec (Z.of_nat (length (faiss.xb (FaissVectorStore.index self)))) 0)
    as [Hzero|_]; [lia|].
  fold (query_vector query_embedding).
  destruct (faiss.search _ _ _) as [hits| |] eqn:Hhits.
  2,3: exfalso; revert Hhits; unfold faiss.search;
       assert (Hlen : len (query_vector query_embedding)
                      = faiss.d (FaissVectorStore.index self))
         by (unfold query_vector, np.divide, np.array, len in *;
             now rewrite !length_map);
       rewrite Hlen, Z.eqb_refl; cbn [negb]; unfold faiss.ntotal, len;
       destruct (Z.gtb_spec
                   (Z.min (limit * 2)
                      (Z.of_nat (length (faiss.xb (FaissVectorStore.index self))))) 0);
       [discriminate | lia].
  cbn [bind].
  unfold faiss.ntotal, len in Hhits.
  set (n := length (faiss.xb (FaissVectorStore.index self))) in *.
  replace (Z.min (limit * 2) (Z.of_nat n)) with (Z.of_nat n) in Hhits by lia.
  pose proof (index_search_length _ _ _ _ Hhits) as Hhlen. rewrite Nat2Z.id in Hhlen.
  assert (Hin : In (np.dot (query_vector query_embedding) row, Z.of_nat i) hits).
  { revert Hhits. unfold faiss.search. destruct (negb _); [discriminate|].
    destruct (negb _); [discriminate|]. intros Heq. injection Heq as <-.
    apply in_or_app. left. rewrite Nat2Z.id, firstn_all2.
    - apply rank_keeps, filter_In. split; [|exact Hadm].
      apply (scored_rows_keeps _ (faiss.xb (FaissVectorStore.index self)) O i row Hrow).
    - rewrite rank_length.
      etransitivity; [apply filter_length|].
      rewrite length_combine, !length_map, length_seq. fold n. lia. }
  assert (Hvalid : Forall (fun h => - len (FaissVectorStore.metadata self) <= snd h
                                    < len (FaissVectorStore.metadata self)) hits).
  { apply List.Forall_forall. intros [score idx] Hh. cbn [snd]. unfold len.
    destruct (index_search_sound _ _ _ _ Hhits score idx Hh)
      as [(j & row' & -> & Hj & _)|[_ ->]].
    - assert (j < n)%nat by (apply nth_error_Some; congruence). lia.
    - unfold faiss.no_label. lia. }
  destruct (gather_complete self limit hits [] Hvalid) as (found & -> & _ & Hnew).
  { unfold len. rewrite Hhlen. simpl. lia. }
  apply (Hnew _ (Z.of_nat i)); [exact Hin | lia | now rewrite Nat2Z.id].
Qed.

Lemma encode_app (a b : str) (x y : hashlib.bytes) :
  encode a = Ok x -> encode b = Ok y -> encode (a ++ b) = Ok (x ++ y).
Proof.
  revert x. induction a as [|c a IH]; intros x Ha Hb; cbn [encode app] in *.
  - injection Ha as <-. exact Hb.
  - destruct (utf8_char c) as [bs|]; [|discriminate].
    destruct (encode a) as [x'| |]; cbn [bind] in Ha; try discriminate.
    injection Ha as <-. rewrite (IH x' eq_refl Hb). cbn [bind].
    now rewrite app_assoc.
Qed.

Lemma encode_scalar (text : str) :
  Forall scalar text -> exists data, encode text = Ok data.
Proof.
  intros Htext. apply encode_total.
  eapply List.Forall_impl; [|exact Htext]. intros c. apply utf8_char_scalar.
Qed.

(** The hash-based embedding of a text without surrogates. *)
Lemma hash_embedding_returns (text : str) :
  Forall scalar text ->
  exists embedding,
    APIClient._get_embedding_openrouter text = Ok embedding
    /\ length embedding = 1024%nat.
Proof.
  intros Htext. destruct (encode_scalar text Htext) as [data Hdata].
  pose proof (hash_embedding_cases text) as Hcases.
  destruct (APIClient._get_embedding_openrouter text) as [embedding|e|].
  - eauto.
  - congruence.
  - destruct Hcases.
Qed.

(** X27.  On a consistent local store of dimension 1024 with at most 50
    entries, [search_by_verse] finds a stored verse whenever the index admits
    the row of the verse, that is, whenever the score of that row is a number
    above [-FLT_MAX]: the search of 50 results then covers the whole
    index.  (A row of NaN, as a zero embedding leaves it, is never
    admitted.) *)
Theorem search_by_verse_complete `{APIClient.Services} `{qdrant.Service}
    (self : RAGService.t) (store : FaissVectorStore.t) (chapter verse : str)
    (i : nat) (m : Entry.t) (row : list float32) :
  RAGService.vector_store self = RAGService.Faiss store ->
  consistent store ->
  faiss.d (FaissVectorStore.index store) = 1024 ->
  faiss.ntotal (FaissVectorStore.index store) <= 50 ->
  Forall scalar chapter -> Forall scalar verse ->
  nth_error (FaissVectorStore.metadata store) i = Some m ->
  nth_error (faiss.xb (FaissVectorStore.index store)) i = Some row ->
  verse_id_of m = Some (chapter ++ lit "." ++ verse) ->
  (forall query_embedding,
      APIClient._get_embedding_openrouter
        (lit "chapter " ++ chapter ++ lit " verse " ++ verse) = Ok query_embedding ->
      faiss.admitted (np.dot (query_vector query_embedding) row, Z.of_nat i) = true) ->
  exists a,
    RAGService.search_by_verse self chapter verse = Ok a
    /\ RAGService.found a = true.
Proof.
  intros Hstore Hcons Hd Hsmall Hchapter Hverse Hm Hrow Hid Hadm.
  unfold RAGService.search_by_verse, APIClient.get_embedding. cbn [negb].
  destruct (hash_embedding_returns (lit "chapter " ++ chapter ++ lit " verse " ++ verse))
    as (query_embedding & Hemb & Hlen).
  { apply Forall_app. split; [repeat constructor; left; reflexivity|].
    apply Forall_app. split; [exact Hchapter|].
    apply Forall_app. split; [repeat constructor; left; reflexivity | exact Hverse]. }
  rewrite Hemb.
  unfold RAGService.store_search. rewrite Hstore.
  pose proof (faiss_search_all store query_embedding 50 i m row Hcons
                ltac:(unfold len; lia) Hsmall Hm Hrow (Hadm _ Hemb)) as Hin.
  destruct (List.filter _ _) as [|r rest] eqn:Hfilter.
  - exfalso.
    assert (Hr : In (QueryResult.make m
                       (f64.of_f32 (np.dot (query_vector query_embedding) row)))
                   (List.filter
                      (fun result =>
                         bool_decide
                           (RAGService.metadata_get (lit "verse_id")
                              (QueryResult.metadata result)
                            = Some (chapter ++ lit "." ++ verse)))
                      (FaissVectorStore.search store query_embedding 50 None))).
    { apply filter_In. split; [exact Hin|]. apply bool_decide_eq_true. exact Hid. }
    rewrite Hfilter in Hr. destruct Hr.
  - eexists. split; reflexivity.
Qed.

Lemma search_by_verse_complete_witness :
  exists a,
    @RAGService.search_by_verse offline silent
      (RAGService.new unavailable verse_store) (lit "2") (lit "47") = Ok a
    /\ RAGService.found a = true.
Proof.
  apply (@search_by_verse_complete offline silent _ verse_store (lit "2") (lit "47") O
           (Entry.of_doc
              {| Document.text := Some (lit "karmany evadhikaras te");
                 Document.source := Some (lit "gita");
                 Document.chapter := Some (lit "2");
                 Document.verse := Some (lit "47");
                 Document.sanskrit := None;
                 Document.translation := Some (lit "You have a right to action alone");
                 Document.explanation := None;
                 Document.metadata := Some [(lit "verse_id", lit "2.47")];
                 Document.embedding := Some (spike 0 1) |})
           (FaissVectorStore.normalize (np.array (spike 0 1)))).
  - reflexivity.
  - apply consistent_add, consistent_new.
  - reflexivity.
  - vm_compute. discriminate.
  - repeat constructor; left; reflexivity.
  - repeat constructor; left; reflexivity.
  - reflexivity.
  - reflexivity.
  - reflexivity.
  - intros query_embedding Hq. vm_compute in Hq. injection Hq as <-.
    vm_compute. reflexivity.
Defined.

Lemma search_by_verse_sound_witness :
  exists a,
    @RAGService.search_by_verse offline silent
      (RAGService.new unavailable verse_store) (lit "2") (lit "47") = Ok a
    /\ (RAGService.found a = true ->
        exists r m,
          RAGService.verse_fields a = Some r
          /\ In m (FaissVectorStore.metadata verse_store)
          /\ r = QueryResult.make m (QueryResult.score r)
          /\ verse_id_of m = Some (lit "2" ++ lit "." ++ lit "47"))
    /\ (RAGService.found a = false -> RAGService.verse_fields a = None).
Proof.
  apply (@search_by_verse_sound offline silent _ verse_store). reflexivity.
Defined.

Lemma reachable_dims (dim : Z) (self : FaissVectorStore.t) :
  reachable dim self ->
  FaissVectorStore.embedding_dim self = dim
  /\ faiss.d (FaissVectorStore.index self) = dim.
Proof.
  induction 1 as [|self documents _ [IH1 IH2]|self _ [IH1 IH2]].
  - split; reflexivity.
  - pose proof (faiss_add_documents_spec self documents) as Hspec. cbv zeta in Hspec.
    destruct Hspec as [[e [_ ->]]|(_ & -> & -> & _)]; now split.
  - split; [exact IH1 | cbn; exact IH1].
Qed.

Lemma embed_documents_spec `{APIClient.Services} (documents : list Document.t) :
  Forall has_text documents ->
  exists embedded,
    RAGService.embed_documents documents = Ok embedded
    /\ List.filter RAGService.has_embedding embedded = embedded
    /\ List.map Entry.of_doc embedded = List.map Entry.of_doc documents
    /\ entries_of embedded = List.map Entry.of_doc documents
    /\ length (embeddings_of embedded) = length documents
    /\ Forall (fun e => len e = 1024) (embeddings_of embedded).
Proof.
  induction 1 as [|doc rest (text & Htext & Hscalar) _ IH];
    cbn [RAGService.embed_documents].
  - exists []. repeat split; constructor.
  - unfold RAGService.embed_document, APIClient.get_embedding. rewrite Htext.
    cbn [negb].
    destruct (hash_embedding_returns text Hscalar) as (e & -> & Hlen).
    destruct IH as (embedded & -> & Hfilter & Hmap & Hentries & Hcount & Hdims).
    cbn [bind]. eexists. split; [reflexivity|].
    cbn [List.filter RAGService.has_embedding RAGService.set_embedding
         Document.embedding List.map entries_of embeddings_of flat_map app length].
    fold (entries_of embedded). fold (embeddings_of embedded).
    rewrite Hfilter, Hmap, Hentries, Hcount.
    repeat split. constructor; [unfold len; lia | exact Hdims].
Qed.

(** X28.  On the local backend, [initialize_database] with
    [force_reload=True], or on an empty store, leaves exactly one entry per
    document, in order, when every document has a text that [encode]
    accepts: whatever was stored before is gone. *)
Theorem initialize_database_loads `{APIClient.Services}
    (self : RAGService.t) (store : FaissVectorStore.t)
    (documents : list Document.t) (force_reload : bool) :
  RAGService.vector_store self = RAGService.Faiss store ->
  reachable 1024 store ->
  force_reload = true \/ FaissVectorStore.points_count store = 0 ->
  Forall has_text documents ->
  exists store',
    RAGService.initialize_database self documents force_reload
    = Ok ({| RAGService.vector_store := RAGService.Faiss store' |}, None)
    /\ FaissVectorStore.metadata store' = List.map Entry.of_doc documents
    /\ FaissVectorStore.points_count store' = len documents
    /\ faiss.ntotal (FaissVectorStore.index store') = len documents.
Proof.
  intros Hstore Hreach Hfresh Hdocs.
  unfold RAGService.initialize_database, RAGService.store_points_count.
  rewrite Hstore.
  assert (Hguard : (FaissVectorStore.points_count store >? 0) && negb force_reload = false).
  { destruct Hfresh as [->| ->]; [apply andb_false_r | reflexivity]. }
  rewrite Hguard.
  set (base := if force_reload then FaissVectorStore.clear_collection store else store).
  assert (Hself : (if force_reload then RAGService.store_clear self else self)
                  = {| RAGService.vector_store := RAGService.Faiss base |}).
  { subst base. unfold RAGService.store_clear. rewrite Hstore.
    destruct force_reload; [reflexivity|]. destruct self. cbn in Hstore. now subst. }
  rewrite Hself.
  assert (Hbase : reachable 1024 base).
  { subst base. destruct force_reload; [now apply reachable_clear | exact Hreach]. }
  assert (Hmeta : FaissVectorStore.metadata base = []).
  { subst base. destruct Hfresh as [->|Hzero]; [reflexivity|].
    unfold FaissVectorStore.points_count, len in Hzero.
    destruct force_reload; [reflexivity|].
    destruct (FaissVectorStore.metadata store); [reflexivity | discriminate]. }
  assert (Hcons : consistent base).
  { clear -Hbase. induction Hbase as [|s documents _ IH|s _ _].
    - apply consistent_new.
    - now apply consistent_add.
    - split; [reflexivity | constructor]. }
  destruct (reachable_dims 1024 base Hbase) as [_ Hd].
  destruct documents as [|doc rest]; cbn [truthy negb].
  { exists base. split; [reflexivity|]. destruct Hcons as [Hcount _].
    rewrite Hcount. unfold FaissVectorStore.points_count. now rewrite Hmeta. }
  destruct (embed_documents_spec (doc :: rest) Hdocs)
    as (embedded & -> & Hfilter & _ & Hentries & Hcount & Hdims).
  cbn [bind]. rewrite Hfilter.
  destruct embedded as [|doc' rest']; [discriminate Hcount|]. cbn [truthy].
  unfold RAGService.store_add. cbn [RAGService.vector_store].
  assert (Hnone : snd (FaissVectorStore.add_documents base (doc' :: rest')) = None).
  { apply faiss_add_documents_none. now rewrite Hd. }
  pose proof (faiss_add_documents_spec base (doc' :: rest')) as Hspec. cbv zeta in Hspec.
  destruct (FaissVectorStore.add_documents base (doc' :: rest')) as [store' raised].
  cbn [fst snd] in *. subst raised.
  destruct Hspec as [[e [He _]]|(_ & _ & _ & Hxb & Hmd)]; [discriminate|].
  exists store'. split; [reflexivity|].
  destruct Hcons as [Hc _]. unfold faiss.ntotal, FaissVectorStore.points_count, len in *.
  rewrite Hmeta in *. cbn [length] in Hc.
  rewrite Hxb, Hmd, Hentries. cbn [app].
  rewrite length_app, !length_map, Hcount.
  repeat split; lia.
Qed.

Lemma initialize_database_loads_witness :
  exists store',
    @RAGService.initialize_database offline (RAGService.new unavailable axis_store)
      [unembedded] true
    = Ok ({| RAGService.vector_store := RAGService.Faiss store' |}, None)
    /\ FaissVectorStore.metadata store' = List.map Entry.of_doc [unembedded]
    /\ FaissVectorStore.points_count store' = len [unembedded]
    /\ faiss.ntotal (FaissVectorStore.index store') = len [unembedded].
Proof.
  apply (@initialize_database_loads offline _ axis_store).
  - reflexivity.
  - unfold axis_store. apply reachable_add, reachable_new.
  - now left.
  - constructor; [|constructor]. eexists. split; [reflexivity|].
    repeat constructor; left; reflexivity.
Defined.

(** ** Verse references *)

Lemma skipn_cons {A : Type} (l : list A) (pos : nat) (c : A) (s : list A) :
  skipn pos l = c :: s ->
  nth_error l pos = Some c /\ skipn (S pos) l = s /\ (pos < length l)%nat.
Proof.
  revert l. induction pos as [|pos IH]; intros [|x l] Hs; try discriminate.
  - injection Hs as -> ->. repeat split. simpl. lia.
  - destruct (IH l Hs) as (Hn & Hk & Hl). repeat split; [exact Hn | exact Hk | simpl; lia].
Qed.

Lemma group_empty (s : str) (pos : nat) : re.group s pos pos = [].
Proof. unfold re.group. now rewrite Nat.sub_diag. Qed.

Lemma group_snoc (s : str) (pos k : nat) (c : N) :
  (pos <= k)%nat -> nth_error s k = Some c ->
  re.group s pos (S k) = re.group s pos k ++ [c].
Proof.
  intros Hk Hc. unfold re.group.
  replace (S k - pos)%nat with (S (k - pos)) by lia.
  assert (Hn : nth_error (skipn pos s) (k - pos) = Some c).
  { rewrite nth_error_skipn. now replace (pos + (k - pos))%nat with k by lia. }
  revert Hn. generalize (skipn pos s) (k - pos)%nat. clear.
  intros l n. revert l. induction n as [|n IH]; intros [|x l] Hn; try discriminate.
  - now injection Hn as ->.
  - cbn [firstn app]. f_equal. now apply IH.
Qed.

(** What an anchored match returns is a match. *)
Lemma gmatch_here_sound (text : str) (pat : re.gpattern) :
  forall pos e marks,
    (pos <= length text)%nat ->
    re.gmatch_here pat (skipn pos text) pos = Some (e, marks) ->
    spans text pat pos e marks.
Proof.
  induction pat as [|[p q| |] rest IH]; intros pos e marks Hpos Hm;
    cbn [re.gmatch_here] in Hm.
  - injection Hm as <- <-. constructor.
  - assert (Hg : forall s k,
      s = skipn k text -> (pos <= k <= length text)%nat ->
      Forall (fun c => p c = true) (re.group text pos k) ->
      (fix greedy (s : str) (pos : nat) : option (nat * list nat) :=
         match s with
         | c :: s' =>
             if p c then
               match greedy s' (S pos) with
               | Some r => Some r
               | None => re.gmatch_here rest s pos
               end
             else re.gmatch_here rest s pos
         | [] => re.gmatch_here rest s pos
         end) s k = Some (e, marks) ->
      exists k',
        (k <= k' <= length text)%nat
        /\ Forall (fun c => p c = true) (re.group text pos k')
        /\ re.gmatch_here rest (skipn k' text) k' = Some (e, marks)).
    { clear Hm. induction s as [|c s IHs]; intros k Hs Hk Hrun Hgreedy.
      - exists k. rewrite <- Hs. repeat split; try lia; assumption.
      - symmetry in Hs. destruct (skipn_cons _ _ _ _ Hs) as (Hc & Hrest & Hlt).
        destruct (p c) eqn:Hpc.
        2:{ exists k. rewrite Hs. repeat split; try lia; assumption. }
        match type of Hgreedy with
        | match ?g with _ => _ end = _ => destruct g as [r|] eqn:Hdeep
        end.
        + injection Hgreedy as ->.
          destruct (IHs (S k) (eq_sym Hrest) ltac:(lia)) as (k' & Hk' & Hrun' & Hm').
          * rewrite (group_snoc text pos k c) by (lia || assumption).
            apply Forall_app. split; [exact Hrun|]. now repeat constructor.
          * exact Hdeep.
          * exists k'. repeat split; try lia; assumption.
        + exists k. rewrite Hs. repeat split; try lia; assumption. }
    destruct q.
    + destruct (skipn pos text) as [|c s] eqn:Hs; [discriminate|].
      destruct (skipn_cons _ _ _ _ Hs) as (Hc & Hrest & Hlt).
      destruct (p c) eqn:Hpc; [|discriminate].
      apply (spans_class text p re.Once rest pos (S pos)); [lia | |reflexivity|].
      * rewrite (group_snoc text pos pos c), group_empty by (lia || assumption).
        now repeat constructor.
      * apply IH; [lia|]. now rewrite Hrest.
    + destruct (Hg (skipn pos text) pos eq_refl ltac:(lia)) as (k & Hk & Hrun & Hrest).
      * rewrite group_empty. constructor.
      * exact Hm.
      * apply (spans_class text p re.Star rest pos k); [lia | exact Hrun | exact I|].
        apply IH; [lia | exact Hrest].
    + destruct (skipn pos text) as [|c s] eqn:Hs; [discriminate|].
      destruct (skipn_cons _ _ _ _ Hs) as (Hc & Hrest & Hlt).
      destruct (p c) eqn:Hpc; [|discriminate].
      destruct (Hg s (S pos) (eq_sym Hrest) ltac:(lia)) as (k & Hk & Hrun & Hrest').
      * rewrite (group_snoc text pos pos c), group_empty by (lia || assumption).
        now repeat constructor.
      * exact Hm.
      * apply (spans_class text p re.Plus rest pos k); [lia | exact Hrun | lia|].
        apply IH; [lia | exact Hrest'].
  - destruct (re.gmatch_here rest (skipn pos text) pos) as [[e' marks']|] eqn:Hrest;
      [|discriminate].
    injection Hm as <- <-. constructor. now apply IH.
  - destruct (re.gmatch_here rest (skipn pos text) pos) as [[e' marks']|] eqn:Hrest;
      [|discriminate].
    injection Hm as <- <-. constructor. now apply IH.
Qed.

Lemma gsearch_from_sound (text : str) (pat : re.gpattern) :
  forall s pos e marks,
    s = skipn pos text -> (pos <= length text)%nat ->
    re.gsearch_from pat s pos = Some (e, marks) ->
    exists start, (start <= length text)%nat /\ spans text pat start e marks.
Proof.
  induction s as [|c s IH]; intros pos e marks Hs Hpos Hsearch;
    cbn [re.gsearch_from] in Hsearch.
  - destruct (re.gmatch_here pat [] pos) as [r|] eqn:Hm; [|discriminate].
    injection Hsearch as ->. exists pos. split; [exact Hpos|].
    apply gmatch_here_sound; [exact Hpos | now rewrite <- Hs].
  - destruct (re.gmatch_here pat (c :: s) pos) as [r|] eqn:Hm.
    + injection Hsearch as ->. exists pos. split; [exact Hpos|].
      apply gmatch_here_sound; [exact Hpos | now rewrite <- Hs].
    + symmetry in Hs. destruct (skipn_cons _ _ _ _ Hs) as (_ & Hrest & Hlt).
      apply (IH (S pos)); [now symmetry | lia | exact Hsearch].
Qed.

Lemma spans_skip (text : str) (p : N -> bool) (q : re.quant) (rest : re.gpattern)
    (pos e : nat) (marks : list nat) :
  spans text (re.Class p q :: rest) pos e marks ->
  exists k, spans text rest k e marks.
Proof. inversion 1; subst. eauto. Qed.

Lemma spans_literal (text : str) (s : str) (rest : re.gpattern) :
  forall pos e marks,
    spans text (re.literal s ++ rest) pos e marks ->
    exists k, spans text rest k e marks.
Proof.
  induction s as [|c s IH]; intros pos e marks Hspans; [eauto|].
  cbn [re.literal List.map app] in Hspans.
  apply spans_skip in Hspans as [k Hk]. now apply (IH k).
Qed.

Lemma spans_number `{Decimals} (text : str) (rest : re.gpattern)
    (pos e : nat) (marks : list nat) :
  spans text (TextNormalizer.number ++ rest) pos e marks ->
  exists k marks',
    marks = pos :: k :: marks'
    /\ re.group text pos k <> []
    /\ Forall (fun c => isdecimal c = true) (re.group text pos k)
    /\ spans text rest k e marks'.
Proof.
  unfold TextNormalizer.number. cbn [app]. intros Hspans.
  inversion Hspans as [|? ? ? marks1 Hclass| |]; subst.
  inversion Hclass as [| | |? ? ? ? k ? ? Hk Hrun Hq Hclose]; subst.
  inversion Hclose as [| |? ? ? marks2 Hrest|]; subst.
  exists k, marks2. repeat split; try assumption.
  intros Hempty. apply (f_equal (@length N)) in Hempty. unfold re.group in Hempty.
  rewrite length_firstn, length_skipn in Hempty. simpl in Hempty. lia.
Qed.

Lemma spans_end (text : str) (pos e : nat) (marks : list nat) :
  spans text [] pos e marks -> marks = [].
Proof. now inversion 1. Qed.

(** Every reference built from a match of one of the three patterns is a
    reference. *)
Lemma reference_by_shape `{Decimals} (pat : re.gpattern) (text reference : str) :
  pat = TextNormalizer.dotted_pattern \/ pat = TextNormalizer.worded_pattern
  \/ pat = TextNormalizer.short_pattern ->
  TextNormalizer.reference_by pat text = Some reference ->
  is_reference reference.
Proof.
  intros Hpat. unfold TextNormalizer.reference_by, re.gsearch.
  destruct (re.gsearch_from pat text 0) as [[e marks]|] eqn:Hsearch; [|discriminate].
  destruct (gsearch_from_sound text pat text O e marks eq_refl ltac:(lia) Hsearch)
    as (start & _ & Hspans).
  assert (Hmarks : exists a b c d,
            marks = [a; b; c; d]
            /\ re.group text a b <> [] /\ re.group text c d <> []
            /\ Forall (fun c => isdecimal c = true) (re.group text a b)
            /\ Forall (fun c => isdecimal c = true) (re.group text c d)).
  { destruct Hpat as [->|[->| ->]].
    - unfold TextNormalizer.dotted_pattern in Hspans.
      apply spans_number in Hspans as (b & marks1 & -> & Hne1 & Hd1 & Hspans).
      cbn [app] in Hspans. apply spans_skip in Hspans as [c Hspans].
      rewrite <- (app_nil_r TextNormalizer.number) in Hspans.
      apply spans_number in Hspans as (d & marks2 & -> & Hne2 & Hd2 & Hspans).
      apply spans_end in Hspans as ->. now exists start, b, c, d.
    - unfold TextNormalizer.worded_pattern in Hspans.
      apply spans_literal in Hspans as [k1 Hspans].
      cbn [app] in Hspans. apply spans_skip in Hspans as [a Hspans].
      apply spans_number in Hspans as (b & marks1 & -> & Hne1 & Hd1 & Hspans).
      cbn [app] in Hspans. apply spans_skip in Hspans as [k2 Hspans].
      apply spans_literal in Hspans as [k3 Hspans].
      cbn [app] in Hspans. apply spans_skip in Hspans as [c Hspans].
      rewrite <- (app_nil_r TextNormalizer.number) in Hspans.
      apply spans_number in Hspans as (d & marks2 & -> & Hne2 & Hd2 & Hspans).
      apply spans_end in Hspans as ->. now exists a, b, c, d.
    - unfold TextNormalizer.short_pattern in Hspans.
      apply spans_literal in Hspans as [k1 Hspans].
      cbn [app] in Hspans. apply spans_skip in Hspans as [a Hspans].
      apply spans_number in Hspans as (b & marks1 & -> & Hne1 & Hd1 & Hspans).
      cbn [app] in Hspans. apply spans_skip in Hspans as [k2 Hspans].
      apply spans_literal in Hspans as [k3 Hspans].
      cbn [app] in Hspans. apply spans_skip in Hspans as [c Hspans].
      rewrite <- (app_nil_r TextNormalizer.number) in Hspans.
      apply spans_number in Hspans as (d & marks2 & -> & Hne2 & Hd2 & Hspans).
      apply spans_end in Hspans as ->. now exists a, b, c, d. }
  destruct Hmarks as (a & b & c & d & -> & Hne1 & Hne2 & Hd1 & Hd2).
  intros Heq. injection Heq as <-.
  exists (re.group text a b), (re.group text c d). now repeat split.
Qed.

(** X29.  [extract_verse_reference] returns the empty string or two
    non-empty numbers with a dot between them. *)
Theorem extract_verse_reference_shape `{Unicode} `{Decimals} (text : str) :
  TextNormalizer.extract_verse_reference text = []
  \/ is_reference (TextNormalizer.extract_verse_reference text).
Proof.
  unfold TextNormalizer.extract_verse_reference. cbv zeta.
  destruct (TextNormalizer.reference_by TextNormalizer.dotted_pattern _) eqn:H1.
  { right. eapply reference_by_shape; [|exact H1]. auto. }
  destruct (TextNormalizer.reference_by TextNormalizer.worded_pattern _) eqn:H2.
  { right. eapply reference_by_shape; [|exact H2]. auto. }
  destruct (TextNormalizer.reference_by TextNormalizer.short_pattern _) eqn:H3.
  { right. eapply reference_by_shape; [|exact H3]. auto. }
  now left.
Qed.

(** A run of [p] that ends where [p] fails is taken as a whole. *)
Lemma gmatch_here_run (p : N -> bool) (rest : re.gpattern) (run s : str)
    (pos : nat) (r : nat * list nat) :
  run <> [] -> Forall (fun c => p c = true) run ->
  match s with c :: _ => p c = false | [] => True end ->
  re.gmatch_here rest s (pos + length run) = Some r ->
  re.gmatch_here (re.Class p re.Plus :: rest) (run ++ s) pos = Some r.
Proof.
  intros Hne Hrun Hstop Hrest.
  assert (Hg : forall run k,
    Forall (fun c => p c = true) run ->
    re.gmatch_here rest s (k + length run) = Some r ->
    (fix greedy (s : str) (pos : nat) : option (nat * list nat) :=
       match s with
       | c :: s' =>
           if p c then
             match greedy s' (S pos) with
             | Some r => Some r
             | None => re.gmatch_here rest s pos
             end
           else re.gmatch_here rest s pos
       | [] => re.gmatch_here rest s pos
       end) (run ++ s) k = Some r).
  { clear run Hne Hrun Hrest pos.
    induction run as [|c run IH]; intros k Hrun Hrest.
    - cbn [app length] in *. rewrite Nat.add_0_r in Hrest.
      destruct s as [|c s]; [exact Hrest|]. now rewrite Hstop.
    - inversion Hrun as [|? ? Hc Hrun']; subst. cbn [app]. rewrite Hc.
      rewrite (IH (S k) Hrun'); [reflexivity|].
      cbn [length] in Hrest. now replace (S k + length run)%nat with (k + S (length run))%nat by lia. }
  destruct run as [|c run]; [congruence|].
  inversion Hrun as [|? ? Hc Hrun']; subst.
  cbn [re.gmatch_here app]. rewrite Hc. apply Hg; [exact Hrun'|].
  cbn [length] in Hrest. now replace (S pos + length run)%nat with (pos + S (length run))%nat by lia.
Qed.

Lemma ascii_digit_decimal `{Decimals} (c : N) : ascii_digit c -> isdecimal c = true.
Proof.
  unfold ascii_digit, isdecimal. intros Hc.
  destruct (N.ltb_spec c 128); [|lia].
  apply andb_true_iff. split; apply N.leb_le; lia.
Qed.

Lemma ascii_digit_lowercase (s : str) :
  Forall ascii_digit s -> lowercase_ascii s = true.
Proof.
  intros Hs. unfold lowercase_ascii. apply forallb_forall. intros c Hc.
  rewrite List.Forall_forall in Hs. specialize (Hs c Hc). unfold ascii_digit in Hs.
  apply andb_true_iff. split; [apply N.ltb_lt; lia|].
  unfold ascii_lower. destruct (N.leb_spec 65 c); [lia|]. cbn [andb]. apply N.eqb_refl.
Qed.

Lemma group_app (a b c : str) :
  re.group (a ++ b ++ c) (length a) (length a + length b) = b.
Proof.
  unfold re.group.
  rewrite skipn_app, skipn_all, Nat.sub_diag, skipn_O. cbn [app].
  replace (length a + length b - length a)%nat with (length b) by lia.
  rewrite firstn_app, firstn_all, Nat.sub_diag, firstn_O. apply app_nil_r.
Qed.

(** The dotted pattern on a reference. *)
Lemma dotted_pattern_match `{Decimals} (chapter verse : str) :
  chapter <> [] -> verse <> [] ->
  Forall ascii_digit chapter -> Forall ascii_digit verse ->
  re.gmatch_here TextNormalizer.dotted_pattern (chapter ++ lit "." ++ verse) 0
  = Some ((length chapter + 1 + length verse)%nat,
          [O; length chapter; S (length chapter);
           (length chapter + 1 + length verse)%nat]).
Proof.
  intros Hc Hv Hdc Hdv.
  assert (Hrc : Forall (fun c => isdecimal c = true) chapter)
    by (eapply List.Forall_impl; [|exact Hdc]; intros c; apply ascii_digit_decimal).
  assert (Hrv : Forall (fun c => isdecimal c = true) verse)
    by (eapply List.Forall_impl; [|exact Hdv]; intros c; apply ascii_digit_decimal).
  set (n := (length chapter + 1 + length verse)%nat).
  assert (Hsecond :
    re.gmatch_here TextNormalizer.number verse (S (length chapter))
    = Some (n, [S (length chapter); n])).
  { unfold TextNormalizer.number.
    change (re.gmatch_here (re.Open :: ?rest) ?s ?pos)
      with (match re.gmatch_here rest s pos with
            | Some (e, marks) => Some (e, pos :: marks)
            | None => None
            end).
    rewrite <- (app_nil_r verse) at 1.
    rewrite (gmatch_here_run isdecimal [re.Close] verse [] (S (length chapter)) (n, [n]));
      try assumption; [reflexivity | exact I|].
    cbn [re.gmatch_here]. subst n. do 3 f_equal; lia. }
  unfold TextNormalizer.dotted_pattern. unfold TextNormalizer.number at 1.
  cbn [app].
  change (re.gmatch_here (re.Open :: ?rest) ?s ?pos)
    with (match re.gmatch_here rest s pos with
          | Some (e, marks) => Some (e, pos :: marks)
          | None => None
          end).
  rewrite (gmatch_here_run isdecimal _ chapter (lit "." ++ verse) O
             (n, [length chapter; S (length chapter); n]));
    try assumption; [reflexivity | reflexivity|].
  cbn [Nat.add].
  change (re.gmatch_here (re.Close :: ?rest) ?s ?pos)
    with (match re.gmatch_here rest s pos with
          | Some (e, marks) => Some (e, pos :: marks)
          | None => None
          end).
  change (lit "." ++ verse) with (46%N :: verse).
  change (re.gmatch_here (re.Class (N.eqb 46) re.Once :: TextNormalizer.number)
            (46%N :: verse) (length chapter))
    with (re.gmatch_here TextNormalizer.number verse (S (length chapter))).
  now rewrite Hsecond.
Qed.

(** X30.  [extract_verse_reference] reads back the [chapter.verse] form
    of two numbers written with the digits 0 to 9. *)
Theorem extract_verse_reference_round_trip `{Unicode} `{Decimals}
    (chapter verse : str) :
  chapter <> [] -> verse <> [] ->
  Forall ascii_digit chapter -> Forall ascii_digit verse ->
  TextNormalizer.extract_verse_reference (chapter ++ lit "." ++ verse)
  = chapter ++ lit "." ++ verse.
Proof.
  intros Hc Hv Hdc Hdv. unfold TextNormalizer.extract_verse_reference. cbv zeta.
  assert (Hlower : lower (chapter ++ lit "." ++ verse) = chapter ++ lit "." ++ verse).
  { unfold lower. rewrite <- (app_nil_r (chapter ++ lit "." ++ verse)) at 1.
    rewrite lower_from_lowercase; [apply app_nil_r|].
    pose proof (ascii_digit_lowercase chapter Hdc) as Hlc.
    pose proof (ascii_digit_lowercase verse Hdv) as Hlv.
    unfold lowercase_ascii in *. rewrite !forallb_app, Hlc, Hlv. reflexivity. }
  rewrite Hlower.
  unfold TextNormalizer.reference_by at 1. unfold re.gsearch.
  assert (Hsearch :
    re.gsearch_from TextNormalizer.dotted_pattern (chapter ++ lit "." ++ verse) 0
    = Some ((length chapter + 1 + length verse)%nat,
            [O; length chapter; S (length chapter);
             (length chapter + 1 + length verse)%nat])).
  { destruct (chapter ++ lit "." ++ verse) eqn:Htext;
      cbn [re.gsearch_from]; rewrite <- Htext;
      now rewrite dotted_pattern_match. }
  rewrite Hsearch. f_equal.
  - change O with (length (@nil N)).
    change (chapter ++ lit "." ++ verse) with ([] ++ chapter ++ lit "." ++ verse).
    apply group_app.
  - replace (chapter ++ lit "." ++ verse)
      with ((chapter ++ lit ".") ++ verse ++ []) by (now rewrite app_nil_r, <- app_assoc).
    replace (S (length chapter)) with (length (chapter ++ lit "."))
      by (rewrite length_app; simpl; lia).
    replace (length chapter + 1 + length verse)%nat
      with (length (chapter ++ lit ".") + length verse)%nat
      by (rewrite length_app; simpl; lia).
    rewrite group_app. reflexivity.
Qed.

Lemma extract_verse_reference_round_trip_witness :
  @TextNormalizer.extract_verse_reference caseless ascii_decimals
    (lit "2" ++ lit "." ++ lit "47")
  = lit "2" ++ lit "." ++ lit "47".
Proof.
  apply (@extract_verse_reference_round_trip caseless ascii_decimals);
    try discriminate; repeat constructor; vm_compute; discriminate.
Defined.
